(** * RealDatabaseService: the catalog and counselor-request data-access layer

    A shallow embedding of [src/services/realDatabaseService.js].

    The service is a JavaScript class whose methods are [async] functions
    over a Supabase (PostgREST) client.  The embedding has four layers:

    - [Js]      JavaScript values, truthiness, [String(v)], [toISOString];
    - [Store]   the remote relational store the client talks to: tables of
                rows, filter predicates, ordering, and the three kinds of
                request the service sends (select, insert, update);
    - [Async]   a small resumption monad for the bodies of the [async]
                methods (cache reads and writes, clock reads, [await],
                [throw], [try]/[catch]) with two semantics, a sequential
                one and a cooperative scheduler, and [Promise.all];
    - [Service] the methods themselves, one definition per method.

    The store is not part of the repository: it is the service the client
    library reaches over the network.  Its model follows what the requests
    of the service mean in SQL: a filter keeps the rows that satisfy it, an
    insert appends the rows, an update sets the given columns of the rows
    that match, [.single()] asks for exactly one row.  What the store or
    the network may do wrong is left to the environment, as a [fault]
    given with each request.

    The sign-in page, [src/components/SignInPage.jsx], is embedded in
    [Regex] and [SignInPage]: the pattern the page tests an email with,
    the state of the component, its effect and its handlers.  [login]
    and the router are not part of the page: what [login] answers is
    given to the handler, and a navigation is recorded by its path. *)

From stdpp Require Import base strings gmap list pretty.
From Stdlib Require Import ZArith Ascii String Sorted.

Open Scope Z_scope.

(* ===================================================================== *)
(** ** JavaScript values *)
(* ===================================================================== *)

Module Js.

(** The values the service handles as arguments and as column values.
    Numbers are integers (keys and counts); objects are [gmap]s, below. *)
Inductive value : Type :=
| Undefined
| Null
| Bool (b : bool)
| Num (n : Z)
| Str (s : string).

#[global] Instance value_eq_dec : EqDecision value.
Proof. solve_decision. Defined.

(** [if (v)]: the falsy values are undefined, null, false, 0 and the
    empty string. *)
Definition truthy (v : value) : bool :=
  match v with
  | Undefined | Null => false
  | Bool b => b
  | Num n => negb (n =? 0)
  | Str s => negb (String.eqb s "")
  end.

(** [String(v)], as used by template literals and by the client when it
    writes a filter value into the request. *)
Definition to_string (v : value) : string :=
  match v with
  | Undefined => "undefined"
  | Null => "null"
  | Bool true => "true"
  | Bool false => "false"
  | Num n => pretty n
  | Str s => s
  end.

(** *** [Date.prototype.toISOString]

    An instant is a number of milliseconds since the epoch.  The date is
    obtained from the day number by the usual era/day-of-era
    computation on the proleptic Gregorian calendar. *)

Fixpoint zeros (n : nat) : string :=
  match n with
  | O => ""
  | S n' => "0" +:+ zeros n'
  end.

(** [String(n).padStart(w, "0")] *)
Definition digits (w : nat) (n : Z) : string :=
  let s := pretty n in zeros (w - String.length s) +:+ s.

Definition civil_from_days (d : Z) : Z * Z * Z :=
  let z := d + 719468 in
  let era := z / 146097 in
  let doe := z - era * 146097 in
  let yoe := (doe - doe / 1460 + doe / 36524 - doe / 146096) / 365 in
  let doy := doe - (365 * yoe + yoe / 4 - yoe / 100) in
  let mp := (5 * doy + 2) / 153 in
  let day := doy - (153 * mp + 2) / 5 + 1 in
  let month := if mp <? 10 then mp + 3 else mp - 9 in
  let year := yoe + era * 400 + (if month <=? 2 then 1 else 0) in
  (year, month, day).

Definition year_string (y : Z) : string :=
  if (0 <=? y) && (y <=? 9999) then digits 4 y
  else if y <? 0 then "-" +:+ digits 6 (- y)
  else "+" +:+ digits 6 y.

Definition toISOString (t : Z) : string :=
  let days := t / 86400000 in
  let ms := t mod 86400000 in
  let '(y, m, d) := civil_from_days days in
  year_string y +:+ "-" +:+ digits 2 m +:+ "-" +:+ digits 2 d +:+ "T"
    +:+ digits 2 (ms / 3600000) +:+ ":"
    +:+ digits 2 (ms / 60000 mod 60) +:+ ":"
    +:+ digits 2 (ms / 1000 mod 60) +:+ "."
    +:+ digits 3 (ms mod 1000) +:+ "Z".

End Js.
Export Js.

(** A JavaScript object used as a record of named fields: a table row, the
    [filters] argument, the [updateData] object. *)
Abbreviation row := (gmap string value).

(** What a failed call carries.  The service never inspects an error; it
    passes it on as the [error] field of its result. *)
Inductive err : Type :=
| NotSingular (n : nat)            (* [.single()] found [n] rows, [n <> 1] *)
| QueryRejected (msg : string)     (* the store answered with an error *)
| TransportFailure (msg : string)  (* the request did not complete *)
| TypeError (msg : string).        (* raised by the JavaScript runtime *)

#[global] Instance err_eq_dec : EqDecision err.
Proof. solve_decision. Defined.

(* ===================================================================== *)
(** ** The remote store *)
(* ===================================================================== *)

Module Store.

(** *** Filter predicates *)

Definition lower (c : ascii) : ascii :=
  let n := nat_of_ascii c in
  if (65 <=? n)%nat && (n <=? 90)%nat then ascii_of_nat (n + 32) else c.

(** [%] (written [*] as well on the wire) stands for any run of
    characters and [_] for any one character.  The escape character of
    LIKE is not modelled: patterns are taken without backslashes. *)
Definition is_any_run (c : ascii) : bool :=
  (c =? "%")%char || (c =? "*")%char.

Fixpoint ilike_match (pat s : string) : bool :=
  match pat with
  | EmptyString => match s with EmptyString => true | _ => false end
  | String c pat' =>
      if is_any_run c then
        (fix from (s : string) : bool :=
           ilike_match pat' s
           || match s with
              | EmptyString => false
              | String _ s' => from s'
              end) s
      else
        match s with
        | EmptyString => false
        | String d s' =>
            ((c =? "_")%char || (lower c =? lower d)%char)
            && ilike_match pat' s'
        end
  end.

(** The argument of [.or] is a string, sent as it is given; the store
    reads it as a list of conditions [column.operator.value] separated by
    commas.  Of these the model reads the conditions [column.ilike.pattern],
    the column being a name and the pattern running up to the next comma:
    a string with anything else in it (a piece that is no condition,
    another operator, a group in parentheses) is not read, and the store
    of the model answers it with an error, as the store does a string
    that is no list of conditions.  What the store makes of the operators
    the model does not read is outside the model. *)
Inductive pred : Type :=
| Eq (col : string) (v : value)               (* .eq(col, v) *)
| Ilike (col : string) (pat : string)         (* .ilike(col, pat) *)
| Or (conditions : string).                   (* .or(conditions) *)

Fixpoint every_char (f : ascii -> bool) (s : string) : bool :=
  match s with
  | EmptyString => true
  | String c s' => f c && every_char f s'
  end.

(** The pieces of [s] between the occurrences of [c]. *)
Fixpoint split_at (c : ascii) (s : string) : list string :=
  match s with
  | EmptyString => [EmptyString]
  | String d s' =>
      if (d =? c)%char then EmptyString :: split_at c s'
      else match split_at c s' with
           | p :: ps => String d p :: ps
           | [] => [String d EmptyString]
           end
  end.

(** What is before and what is after the first [c] of [s]. *)
Fixpoint cut_at (c : ascii) (s : string) : option (string * string) :=
  match s with
  | EmptyString => None
  | String d s' =>
      if (d =? c)%char then Some (EmptyString, s')
      else match cut_at c s' with
           | Some (a, b) => Some (String d a, b)
           | None => None
           end
  end.

Definition is_name_char (c : ascii) : bool :=
  let n := nat_of_ascii c in
  ((97 <=? n)%nat && (n <=? 122)%nat) || ((65 <=? n)%nat && (n <=? 90)%nat)
  || ((48 <=? n)%nat && (n <=? 57)%nat) || (c =? "_")%char.

Definition is_name (s : string) : bool :=
  negb (String.eqb s "") && every_char is_name_char s.

(** One condition [column.ilike.pattern]: the column and the pattern. *)
Definition condition (piece : string) : option (string * string) :=
  match cut_at "." piece with
  | Some (col, rest) =>
      match cut_at "." rest with
      | Some (op, pat) =>
          if is_name col && String.eqb op "ilike"
             && every_char (fun c => negb (c =? ")")%char) pat
          then Some (col, pat)
          else None
      | None => None
      end
  | None => None
  end.

Fixpoint all_some {A : Type} (l : list (option A)) : option (list A) :=
  match l with
  | [] => Some []
  | Some a :: l' =>
      match all_some l' with
      | Some r => Some (a :: r)
      | None => None
      end
  | None :: _ => None
  end.

(** The conditions of an [or] string, when all of it is read. *)
Definition conditions (s : string) : option (list (string * string)) :=
  all_some (map condition (split_at "," s)).

(** A column that a row does not carry reads as SQL NULL. *)
Definition column (r : row) (c : string) : value := default Null (r !! c).

Definition is_null (v : value) : bool :=
  match v with
  | Null | Undefined => true
  | _ => false
  end.

(** The client writes the filter value into the request as text, and the
    store compares it with the column; NULL equals nothing. *)
Definition eq_holds (r : row) (c : string) (v : value) : bool :=
  negb (is_null (column r c))
  && String.eqb (to_string (column r c)) (to_string v).

Definition ilike_holds (r : row) (c : string) (pat : string) : bool :=
  negb (is_null (column r c)) && ilike_match pat (to_string (column r c)).

Definition holds (p : pred) (r : row) : bool :=
  match p with
  | Eq c v => eq_holds r c v
  | Ilike c pat => ilike_holds r c pat
  | Or s =>
      match conditions s with
      | Some alts => existsb (fun cp => ilike_holds r cp.1 cp.2) alts
      | None => false
      end
  end.

(** A filter the store can read. *)
Definition readable (p : pred) : bool :=
  match p with
  | Or s => bool_decide (is_Some (conditions s))
  | _ => true
  end.

(** Chained filters are a conjunction. *)
Definition all_hold (ps : list pred) (r : row) : bool :=
  forallb (fun p => holds p r) ps.

(** *** Ordering *)

Definition rank (v : value) : nat :=
  match v with
  | Bool _ => 0
  | Num _ => 1
  | Str _ => 2
  | Null | Undefined => 3
  end.

(** Ascending order of one column; NULL sorts last. *)
Definition value_leb (a b : value) : bool :=
  match a, b with
  | Num x, Num y => x <=? y
  | Str x, Str y => String.leb x y
  | Bool x, Bool y => implb x y
  | _, _ => (rank a <=? rank b)%nat
  end.

Definition row_leb (c : string) (ascending : bool) (a b : row) : bool :=
  if ascending then value_leb (column a c) (column b c)
  else value_leb (column b c) (column a c).

Fixpoint insert_sorted (le : row -> row -> bool) (x : row) (l : list row)
  : list row :=
  match l with
  | [] => [x]
  | y :: l' => if le x y then x :: l else y :: insert_sorted le x l'
  end.

Fixpoint sort_rows (le : row -> row -> bool) (l : list row) : list row :=
  match l with
  | [] => []
  | x :: l' => insert_sorted le x (sort_rows le l')
  end.

(** [.order(col, { ascending })], or no ordering. *)
Definition order_by (ord : option (string * bool)) (l : list row) : list row :=
  match ord with
  | None => l
  | Some (c, asc) => sort_rows (row_leb c asc) l
  end.

(** *** Tables and requests *)

(** The database: table name to rows, in insertion order. *)
Abbreviation db := (gmap string (list row)).

Definition table (d : db) (t : string) : list row := default [] (d !! t).

(** [JSON.stringify] of an object leaves out the fields whose value is
    [undefined]; this is what an insert or update body carries. *)
Definition json (o : row) : row := filter (fun kv => kv.2 <> Undefined) o.

(** The [data] of an answer: an array of rows, or one row object for a
    [.single()] request.  [null] is [None]. *)
Inductive payload : Type :=
| Rows (rs : list row)
| One (r : row).

(** The object [{ data, error }]: what the client resolves to, and what
    every method of the service except [getStatistics] returns. *)
Record reply : Type := Reply { data : option payload; error : option err }.

Inductive request : Type :=
| Select (tbl : string) (wh : list pred) (ord : option (string * bool))
         (single : bool)
| Insert (tbl : string) (rows : list row)             (* .insert(rows).select() *)
| Update (tbl : string) (patch : row) (wh : list pred)
         (single : bool).                             (* .update(patch)...select() *)

Definition select_rows (d : db) (tbl : string) (wh : list pred)
  (ord : option (string * bool)) : list row :=
  order_by ord (List.filter (all_hold wh) (table d tbl)).

(** [.single()]: exactly one row, or an error. *)
Definition singular (rs : list row) : reply :=
  match rs with
  | [r] => Reply (Some (One r)) None
  | _ => Reply None (Some (NotSingular (List.length rs)))
  end.

(** UPDATE ... SET: the columns of the patch replace those of each
    matching row and every other column keeps its value. *)
Definition patch_rows (wh : list pred) (patch : row) (rs : list row)
  : list row :=
  map (fun r => if all_hold wh r then patch ∪ r else r) rs.

(** The store answering a request it accepts.  A singular update that does
    not touch exactly one row is rolled back, and a select with a filter
    that is not read is answered with an error. *)
Definition exec (rq : request) (d : db) : db * reply :=
  match rq with
  | Select t wh ord single =>
      if forallb readable wh then
        let rs := select_rows d t wh ord in
        (d, if single then singular rs else Reply (Some (Rows rs)) None)
      else (d, Reply None (Some (QueryRejected "failed to parse filter")))
  | Insert t rows =>
      let stored := map json rows in
      (<[t := table d t ++ stored]> d, Reply (Some (Rows stored)) None)
  | Update t patch wh single =>
      let touched := map (fun r => json patch ∪ r)
                         (List.filter (all_hold wh) (table d t)) in
      let d' := <[t := patch_rows wh (json patch) (table d t)]> d in
      if single then
        match touched with
        | [r] => (d', Reply (Some (One r)) None)
        | _ => (d, Reply None (Some (NotSingular (List.length touched))))
        end
      else (d', Reply (Some (Rows touched)) None)
  end.

(** What the environment does to one request: the store carries it out
    and answers; or the store refuses it and answers with an error; or the
    request does not get through and the call throws.  A request that is
    refused or does not get through changes nothing (a write that is
    applied while its answer is lost is not modelled). *)
Inductive fault : Type :=
| Healthy
| Refused (e : err)
| Broken (e : err).

(** What an [await] on a request yields. *)
Inductive response : Type :=
| Resolved (r : reply)
| Thrown (e : err).

Definition respond (f : fault) (rq : request) (d : db) : db * response :=
  match f with
  | Healthy => let '(d', r) := exec rq d in (d', Resolved r)
  | Refused e => (d, Resolved (Reply None (Some e)))
  | Broken e => (d, Thrown e)
  end.

End Store.
Export Store.

(* ===================================================================== *)
(** ** Asynchronous method bodies *)
(* ===================================================================== *)

(** [this.cache]: four slots, each [null] or the [data] of an answer.  Only
    [countries] and [pathways] are ever read or written by a method. *)
Module Cache.

Record t : Type := Make {
  countries : option payload;
  universities : option payload;
  courses : option payload;
  pathways : option payload
}.

(** The cache the constructor builds. *)
Definition empty : t := Make None None None None.

Definition set_countries (d : option payload) (c : t) : t :=
  Make d (universities c) (courses c) (pathways c).

Definition set_pathways (d : option payload) (c : t) : t :=
  Make (countries c) (universities c) (courses c) d.

End Cache.

Module Async.

(** How a piece of code ends: with a value, or by throwing. *)
Inductive completion (A : Type) : Type :=
| Normal (a : A)
| Abrupt (e : err).
Arguments Normal {A} a.
Arguments Abrupt {A} e.

(** The body of an [async] method.  Everything up to an [Await] runs
    without interruption; at an [Await] the request is sent and the method
    is suspended until the answer arrives.  [console.error] is left out:
    nothing reads the console. *)
Inductive prog (A : Type) : Type :=
| Ret (a : A)
| Throw (e : err)
| GetCache (k : Cache.t -> prog A)                 (* read this.cache *)
| ModCache (f : Cache.t -> Cache.t) (k : prog A)   (* assign a slot of it *)
| Clock (k : Z -> prog A)                          (* new Date() *)
| Await (rq : request) (k : response -> prog A).
Arguments Ret {A} a.
Arguments Throw {A} e.
Arguments GetCache {A} k.
Arguments ModCache {A} f k.
Arguments Clock {A} k.
Arguments Await {A} rq k.

Fixpoint bind {A B : Type} (p : prog A) (f : A -> prog B) : prog B :=
  match p with
  | Ret a => f a
  | Throw e => Throw e
  | GetCache k => GetCache (fun c => bind (k c) f)
  | ModCache g k => ModCache g (bind k f)
  | Clock k => Clock (fun t => bind (k t) f)
  | Await rq k => Await rq (fun r => bind (k r) f)
  end.

#[global] Instance prog_ret : MRet prog := fun A a => Ret a.
#[global] Instance prog_bind : MBind prog := fun A B f p => bind p f.

(** [try { p } catch (e) { h e }] *)
Fixpoint try_catch {A : Type} (p : prog A) (h : err -> prog A) : prog A :=
  match p with
  | Ret a => Ret a
  | Throw e => h e
  | GetCache k => GetCache (fun c => try_catch (k c) h)
  | ModCache g k => ModCache g (try_catch k h)
  | Clock k => Clock (fun t => try_catch (k t) h)
  | Await rq k => Await rq (fun r => try_catch (k r) h)
  end.

(** *** The world a method runs in *)

Record world : Type := World {
  svc : Cache.t;            (* the service instance's cache *)
  store : db;               (* the remote database *)
  sent : list request;      (* every request sent so far, oldest first *)
  ticks : list Z            (* the readings the clock will give, in order *)
}.

Definition with_svc (f : Cache.t -> Cache.t) (w : world) : world :=
  World (f (svc w)) (store w) (sent w) (ticks w).

Definition with_store (d : db) (w : world) : world :=
  World (svc w) d (sent w) (ticks w).

Definition log (rq : request) (w : world) : world :=
  World (svc w) (store w) (sent w ++ [rq]) (ticks w).

(** [new Date()]: the next reading; a clock with no reading left shows the
    epoch. *)
Definition now (w : world) : Z := hd 0 (ticks w).

Definition tick (w : world) : world :=
  World (svc w) (store w) (sent w) (tl (ticks w)).

(** *** Sequential semantics

    One call, awaited to its end before anything else runs.  [fs] gives the
    environment's behaviour at each successive request of the call (once
    exhausted, the store answers). *)
Fixpoint run {A : Type} (p : prog A) (fs : list fault) (w : world)
  : world * completion A :=
  match p with
  | Ret a => (w, Normal a)
  | Throw e => (w, Abrupt e)
  | GetCache k => run (k (svc w)) fs w
  | ModCache g k => run k fs (with_svc g w)
  | Clock k => run (k (now w)) fs (tick w)
  | Await rq k =>
      let '(d, r) := respond (hd Healthy fs) rq (store w) in
      run (k r) (tl fs) (with_store d (log rq w))
  end.

(** *** Cooperative scheduling

    A call in progress is either finished or waiting for an answer. *)
Inductive task (A : Type) : Type :=
| Finished (c : completion A)
| Waiting (rq : request) (k : response -> prog A).
Arguments Finished {A} c.
Arguments Waiting {A} rq k.

Definition is_finished {A : Type} (t : task A) : bool :=
  match t with
  | Finished _ => true
  | Waiting _ _ => false
  end.

(** Run a method from where it stands up to its next [await] (sending the
    request) or to its end. *)
Fixpoint advance {A : Type} (p : prog A) (w : world) : world * task A :=
  match p with
  | Ret a => (w, Finished (Normal a))
  | Throw e => (w, Finished (Abrupt e))
  | GetCache k => advance (k (svc w)) w
  | ModCache g k => advance k (with_svc g w)
  | Clock k => advance (k (now w)) (tick w)
  | Await rq k => (log rq w, Waiting rq k)
  end.

(** The answer to a waiting call arrives: the store handles the request now
    and the call resumes. *)
Definition deliver {A : Type} (f : fault) (t : task A) (w : world)
  : world * task A :=
  match t with
  | Finished c => (w, Finished c)
  | Waiting rq k =>
      let '(d, r) := respond f rq (store w) in
      advance (k r) (with_store d w)
  end.

(** A waiting call awaited to its end with nothing else running. *)
Definition finish {A : Type} (fs : list fault) (t : task A) (w : world)
  : world * completion A :=
  match t with
  | Finished c => (w, c)
  | Waiting rq k =>
      let '(d, r) := respond (hd Healthy fs) rq (store w) in
      run (k r) (tl fs) (with_store d w)
  end.

(** A pool of calls in progress, numbered in the order they were made;
    [settled] lists the finished ones in the order they finished. *)
Record pool (A : Type) : Type := Pool {
  env : world;
  tasks : list (task A);
  settled : list nat
}.
Arguments Pool {A} env tasks settled.
Arguments env {A} p.
Arguments tasks {A} p.
Arguments settled {A} p.

(** What can happen next: a new call is made, or the answer awaited by call
    number [i] arrives. *)
Inductive event (A : Type) : Type :=
| Call (p : prog A)
| Answer (i : nat) (f : fault).
Arguments Call {A} p.
Arguments Answer {A} i f.

Definition step {A : Type} (s : pool A) (ev : event A) : pool A :=
  match ev with
  | Call p =>
      let '(w, t) := advance p (env s) in
      Pool w (tasks s ++ [t])
           (if is_finished t then settled s ++ [List.length (tasks s)]
            else settled s)
  | Answer i f =>
      match tasks s !! i with
      | Some (Waiting rq k) =>
          let '(w, t) := deliver f (Waiting rq k) (env s) in
          Pool w (<[i := t]> (tasks s))
               (if is_finished t then settled s ++ [i] else settled s)
      | _ => s
      end
  end.

Definition schedule {A : Type} (evs : list (event A)) (s : pool A) : pool A :=
  foldl step s evs.

(** *** [Promise.all]

    The calls are made in order; the answers arrive in the order [arrival]
    (call numbers), call [i] meeting the fault [fs !! i]; whatever is
    still waiting after that is awaited in order.  The result is the array
    of the values, or the error of the call that failed first. *)
Definition fault_of (fs : list fault) (i : nat) : fault :=
  default Healthy (fs !! i).

Definition await_remaining {A : Type} (fs : list fault) (s : pool A)
  (i : nat) : pool A :=
  match tasks s !! i with
  | Some (Waiting rq k) =>
      let '(w, c) := finish [fault_of fs i] (Waiting rq k) (env s) in
      Pool w (<[i := Finished c]> (tasks s)) (settled s ++ [i])
  | _ => s
  end.

Fixpoint first_abrupt {A : Type} (ts : list (task A)) (order : list nat)
  : option err :=
  match order with
  | [] => None
  | i :: order' =>
      match ts !! i with
      | Some (Finished (Abrupt e)) => Some e
      | _ => first_abrupt ts order'
      end
  end.

Fixpoint values {A : Type} (ts : list (task A)) : list A :=
  match ts with
  | [] => []
  | Finished (Normal a) :: ts' => a :: values ts'
  | _ :: ts' => values ts'
  end.

Definition promise_all {A : Type} (ps : list (prog A)) (fs : list fault)
  (arrival : list nat) (w : world) : world * completion (list A) :=
  let made := schedule (map Call ps) (Pool w [] []) in
  let answered :=
    schedule (map (fun i => Answer i (fault_of fs i)) arrival) made in
  let done :=
    foldl (await_remaining fs) answered (seq 0 (List.length ps)) in
  (env done,
   match first_abrupt (tasks done) (settled done) with
   | Some e => Abrupt e
   | None => Normal (values (tasks done))
   end).

End Async.
Export Async.

(* ===================================================================== *)
(** ** The service *)
(* ===================================================================== *)

Module Service.

(** [{ data, error: null }] and [{ data: null, error }] *)
Definition ok (d : option payload) : reply := Reply d None.
Definition failed (e : err) : reply := Reply None (Some e).

(** [const { data, error } = await rq; if (error) throw error;] *)
Definition await_checked (rq : request) : prog (option payload) :=
  Await rq (fun r =>
    match r with
    | Thrown e => Throw e
    | Resolved a =>
        match error a with
        | Some e => Throw e
        | None => Ret (data a)
        end
    end).

(** [catch (error) { console.error(...); return { data: null, error }; }] *)
Definition handler (e : err) : prog reply := Ret (failed e).

(** The body shared by the methods that send one request and hand back
    its [data].  The nested select lists the methods pass (the country
    embedded in a university, and so on) decide which fields a returned
    row carries, not which rows are returned, and are left out: a request
    of the model says which rows are asked for, and two methods that ask
    for the same rows with different select lists send the same request
    here without sending the same request to the store. *)
Definition fetch (rq : request) : prog reply :=
  try_catch (d ← await_checked rq; Ret (ok d)) handler.

Definition ascending (c : string) : option (string * bool) := Some (c, true).
Definition descending (c : string) : option (string * bool) := Some (c, false).

(** *** Countries *)

Definition getAllCountries : prog reply :=
  try_catch
    (GetCache (fun c =>
       match Cache.countries c with
       | Some d => Ret (ok (Some d))
       | None =>
           d ← await_checked
                 (Select "n_countries" [] (ascending "country_name") false);
           ModCache (Cache.set_countries d) (Ret (ok d))
       end))
    handler.

Definition getCountryById (countryId : value) : prog reply :=
  fetch (Select "n_countries" [Eq "country_id" countryId] None true).

(** *** Universities *)

Definition getAllUniversities : prog reply :=
  fetch (Select "new_universities" [] (ascending "university_name") false).

Definition getUniversitiesByCountry (countryId : value) : prog reply :=
  fetch (Select "new_universities" [Eq "country_id" countryId]
                (ascending "university_name") false).

Definition getUniversityById (universityId : value) : prog reply :=
  fetch (Select "new_universities" [Eq "id" universityId] None true).

(** *** Courses *)

Definition getAllCourses : prog reply :=
  fetch (Select "new_courses" [] (ascending "program_name") false).

Definition getCoursesByUniversity (universityId : value) : prog reply :=
  fetch (Select "new_courses" [Eq "university_id" universityId]
                (ascending "program_name") false).

Definition getCourseById (courseId : value) : prog reply :=
  fetch (Select "new_courses" [Eq "id" courseId] None true).

(** *** Pathways *)

Definition getAllPathways : prog reply :=
  try_catch
    (GetCache (fun c =>
       match Cache.pathways c with
       | Some d => Ret (ok (Some d))
       | None =>
           d ← await_checked (Select "pathways" [] (ascending "name") false);
           ModCache (Cache.set_pathways d) (Ret (ok d))
       end))
    handler.

(** *** Search *)

(** The [filters] argument: left out (the default [{}] applies), [null],
    or an object. *)
Inductive filters_arg : Type :=
| NoFilters
| NullFilters
| Filters (o : row).

#[global] Instance filters_arg_eq_dec : EqDecision filters_arg.
Proof. solve_decision. Defined.

(** [filters.k]: reading a property of [null] throws; a property the
    object lacks reads as [undefined]. *)
Definition prop (filters : filters_arg) (k : string) : prog value :=
  match filters with
  | NoFilters => Ret Undefined
  | NullFilters => Throw (TypeError "Cannot read properties of null")
  | Filters o => Ret (default Undefined (o !! k))
  end.

(** [`%${v}%`] *)
Definition contains (v : value) : string := "%" +:+ to_string v +:+ "%".

Definition searchUniversities (searchTerm : value) (filters : filters_arg)
  : prog reply :=
  try_catch
    (let query := [] in
     let query :=
       if truthy searchTerm
       then query ++ [Or ("university_name.ilike.%" +:+ to_string searchTerm
                          +:+ "%,city.ilike.%" +:+ to_string searchTerm
                          +:+ "%,state_province.ilike.%"
                          +:+ to_string searchTerm +:+ "%")]
       else query in
     country_id ← prop filters "country_id";
     let query :=
       if truthy country_id
       then query ++ [Eq "country_id" country_id]
       else query in
     university_type ← prop filters "university_type";
     let query :=
       if truthy university_type
       then query ++ [Ilike "university_type" (contains university_type)]
       else query in
     d ← await_checked
           (Select "new_universities" query (ascending "university_name")
                   false);
     Ret (ok d))
    handler.

Definition searchCourses (searchTerm : value) (filters : filters_arg)
  : prog reply :=
  try_catch
    (let query := [] in
     let query :=
       if truthy searchTerm
       then query ++ [Ilike "program_name" (contains searchTerm)]
       else query in
     university_id ← prop filters "university_id";
     let query :=
       if truthy university_id
       then query ++ [Eq "university_id" university_id]
       else query in
     degree_level ← prop filters "degree_level";
     let query :=
       if truthy degree_level
       then query ++ [Eq "degree_level" degree_level]
       else query in
     d ← await_checked
           (Select "new_courses" query (ascending "program_name") false);
     Ret (ok d))
    handler.

(** *** Counselors *)

Definition getAllCounselors : prog reply :=
  fetch (Select "counselors" [Eq "is_available" (Bool true)]
                (ascending "display_name") false).

Definition getCounselorById (counselorId : value) : prog reply :=
  fetch (Select "counselors" [Eq "id" counselorId] None true).

(** *** Counselor requests *)

Definition getCounselorRequestByStudent (studentId : value) : prog reply :=
  fetch (Select "counselor_requests" [Eq "student_id" studentId]
                (descending "created_at") false).

Definition getCounselorRequestsByCounselor (counselorId : value)
  : prog reply :=
  fetch (Select "counselor_requests"
                [Eq "requested_counselor_id" counselorId]
                (descending "created_at") false).

Definition createCounselorRequest (requestData : row) : prog reply :=
  fetch (Insert "counselor_requests" [requestData]).

Definition getAllCounselorRequests : prog reply :=
  fetch (Select "counselor_requests" [] (descending "requested_at") false).

Definition getCounselorRequestsByStatus (status : value) : prog reply :=
  fetch (Select "counselor_requests" [Eq "status" status]
                (descending "requested_at") false).

(** [status === 'approved'] *)
Definition is_approved (status : value) : bool :=
  bool_decide (status = Str "approved").

(** [adminNotes] defaults to [null] when left out; [undefined] and [null]
    are both falsy, which is all the body asks of it. *)
Definition updateCounselorRequestStatus (requestId status adminNotes : value)
  : prog reply :=
  try_catch
    (Clock (fun t =>
       let updateData : row :=
         {[ "status" := status; "updated_at" := Str (toISOString t) ]} in
       let updateData :=
         if truthy adminNotes
         then <["admin_notes" := adminNotes]> updateData
         else updateData in
       updateData ←
         (if is_approved status
          then Clock (fun t' =>
                 Ret (<["approved_at" := Str (toISOString t')]> updateData))
          else Ret updateData);
       d ← await_checked
             (Update "counselor_requests" updateData [Eq "id" requestId] true);
       Ret (ok d)))
    handler.

Definition getCounselorStudents (counselorId : value) : prog reply :=
  fetch (Select "counselor_requests"
                [Eq "counselor_id" counselorId; Eq "status" (Str "approved")]
                (descending "approved_at") false).

(** *** Statistics *)

Module Stats.

(** [{ countries, universities, courses, pathways }] *)
Record t : Type := Make {
  countries : value;
  universities : value;
  courses : value;
  pathways : value
}.

Definition zero : t := Make (Num 0) (Num 0) (Num 0) (Num 0).

End Stats.

(** [result.data?.length || 0] *)
Definition count (r : reply) : value :=
  match data r with
  | None => Num 0
  | Some (Rows rs) => Num (Z.of_nat (List.length rs))
  | Some (One o) =>
      let n := default Undefined (o !! "length") in
      if truthy n then n else Num 0
  end.

Definition catching {A : Type} (c : completion A) (h : err -> A)
  : completion A :=
  match c with
  | Normal a => Normal a
  | Abrupt e => Normal (h e)
  end.

(** The four list calls are made together and awaited with [Promise.all];
    [fs] and [arrival] are as in [promise_all]. *)
Definition getStatistics (fs : list fault) (arrival : list nat) (w : world)
  : world * completion Stats.t :=
  let '(w', results) :=
    promise_all
      [getAllCountries; getAllUniversities; getAllCourses; getAllPathways]
      fs arrival w in
  (w',
   catching
     match results with
     | Abrupt e => Abrupt e
     | Normal (countriesResult :: universitiesResult :: coursesResult
                 :: pathwaysResult :: _) =>
         Normal (Stats.Make (count countriesResult) (count universitiesResult)
                            (count coursesResult) (count pathwaysResult))
     | Normal _ => Abrupt (TypeError "Cannot read properties of undefined")
     end
     (fun _ => Stats.zero)).

(** *** The public interface *)

Inductive call : Type :=
| GetAllCountries
| GetCountryById (countryId : value)
| GetAllUniversities
| GetUniversitiesByCountry (countryId : value)
| GetUniversityById (universityId : value)
| GetAllCourses
| GetCoursesByUniversity (universityId : value)
| GetCourseById (courseId : value)
| GetAllPathways
| SearchUniversities (searchTerm : value) (filters : filters_arg)
| SearchCourses (searchTerm : value) (filters : filters_arg)
| GetStatistics
| GetAllCounselors
| GetCounselorById (counselorId : value)
| GetCounselorRequestByStudent (studentId : value)
| GetCounselorRequestsByCounselor (counselorId : value)
| CreateCounselorRequest (requestData : row)
| GetAllCounselorRequests
| GetCounselorRequestsByStatus (status : value)
| UpdateCounselorRequestStatus (requestId status adminNotes : value)
| GetCounselorStudents (counselorId : value).

#[global] Instance call_eq_dec : EqDecision call.
Proof. solve_decision. Defined.

(** The methods that are a single [async] body; [getStatistics] is the one
    that is not. *)
Definition body (c : call) : option (prog reply) :=
  match c with
  | GetAllCountries => Some getAllCountries
  | GetCountryById i => Some (getCountryById i)
  | GetAllUniversities => Some getAllUniversities
  | GetUniversitiesByCountry i => Some (getUniversitiesByCountry i)
  | GetUniversityById i => Some (getUniversityById i)
  | GetAllCourses => Some getAllCourses
  | GetCoursesByUniversity i => Some (getCoursesByUniversity i)
  | GetCourseById i => Some (getCourseById i)
  | GetAllPathways => Some getAllPathways
  | SearchUniversities t f => Some (searchUniversities t f)
  | SearchCourses t f => Some (searchCourses t f)
  | GetStatistics => None
  | GetAllCounselors => Some getAllCounselors
  | GetCounselorById i => Some (getCounselorById i)
  | GetCounselorRequestByStudent i => Some (getCounselorRequestByStudent i)
  | GetCounselorRequestsByCounselor i =>
      Some (getCounselorRequestsByCounselor i)
  | CreateCounselorRequest r => Some (createCounselorRequest r)
  | GetAllCounselorRequests => Some getAllCounselorRequests
  | GetCounselorRequestsByStatus s => Some (getCounselorRequestsByStatus s)
  | UpdateCounselorRequestStatus i s n =>
      Some (updateCounselorRequestStatus i s n)
  | GetCounselorStudents i => Some (getCounselorStudents i)
  end.

(** What a caller gets back: the object [{ data, error }], or the counts. *)
Inductive result : Type :=
| Envelope (r : reply)
| Counts (s : Stats.t).

Definition fmap_completion {A B : Type} (f : A -> B) (c : completion A)
  : completion B :=
  match c with
  | Normal a => Normal (f a)
  | Abrupt e => Abrupt e
  end.

(** One call of a method, awaited to its end. *)
Definition invoke (c : call) (fs : list fault) (arrival : list nat)
  (w : world) : world * completion result :=
  match body c with
  | Some p => let '(w', r) := run p fs w in (w', fmap_completion Envelope r)
  | None =>
      let '(w', r) := getStatistics fs arrival w in
      (w', fmap_completion Counts r)
  end.

End Service.
Export Service.

(* ===================================================================== *)
(** ** The sign-in page *)
(* ===================================================================== *)

(** The regular expressions of the page: sequences of single characters
    and of runs [x+] of a character class.  A string is its sequence of
    code units, here those below 256. *)
Module Regex.

(** [\s]: the white space and line terminators of the language (tab, line
    feed, vertical tab, form feed, carriage return, space, no-break
    space). *)
Definition is_space (c : ascii) : bool :=
  let n := nat_of_ascii c in
  ((9 <=? n)%nat && (n <=? 13)%nat) || (n =? 32)%nat || (n =? 160)%nat.

Inductive atom : Type :=
| Char (c : ascii)        (* a literal character, escaped or not *)
| NonSpace.               (* \S *)

Definition accepts (a : atom) (c : ascii) : bool :=
  match a with
  | Char d => (c =? d)%char
  | NonSpace => negb (is_space c)
  end.

Inductive t : Type :=
| One (a : atom)          (* a *)
| Many (a : atom)         (* a+ *)
| Seq (r1 r2 : t).        (* r1 r2 *)

(** A match of [r] at the start of [s], after which [k] accepts what is
    left; a run takes as many characters as it can and gives them back
    one by one. *)
Fixpoint matches (r : t) (s : string) (k : string -> bool) : bool :=
  match r with
  | One a =>
      match s with
      | String c s' => accepts a c && k s'
      | EmptyString => false
      end
  | Many a =>
      (fix more (s : string) : bool :=
         match s with
         | String c s' => accepts a c && (more s' || k s')
         | EmptyString => false
         end) s
  | Seq r1 r2 => matches r1 s (fun s' => matches r2 s' k)
  end.

(** [r.test(s)] for an expression without flags: a match that starts
    anywhere in [s]. *)
Fixpoint test (r : t) (s : string) : bool :=
  matches r s (fun _ => true)
  || match s with
     | String _ s' => test r s'
     | EmptyString => false
     end.

End Regex.

Module SignInPage.

(** A value that may be an object: what [login] resolves to has fields of
    any kind, and [user] is an object. *)
Inductive any : Type :=
| Prim (v : value)
| Object (o : row).

Definition truthy_any (x : any) : bool :=
  match x with
  | Prim v => truthy v
  | Object _ => true
  end.

(** [x.k]: [undefined] for a field the object lacks and for any field of
    a primitive. *)
Definition get (o : row) (k : string) : value := default Undefined (o !! k).

Definition get_any (x : any) (k : string) : value :=
  match x with
  | Prim _ => Undefined
  | Object o => get o k
  end.

(** [a || b] *)
Definition or_else (a b : any) : any := if truthy_any a then a else b.

(** The state of the component, and the navigations it has asked for
    with [setTimeout]: the delay in milliseconds and the path. *)
Record page : Type := Page {
  formData : row;
  loading : bool;
  error : any;
  success : value;
  timers : list (Z * string)
}.

Definition initial : page :=
  Page {[ "email" := Str ""; "password" := Str "" ]} false (Prim (Str ""))
       (Str "") [].

Definition setFormData (f : row -> row) (p : page) : page :=
  Page (f (formData p)) (loading p) (error p) (success p) (timers p).

Definition setLoading (b : bool) (p : page) : page :=
  Page (formData p) b (error p) (success p) (timers p).

Definition setError (e : any) (p : page) : page :=
  Page (formData p) (loading p) e (success p) (timers p).

Definition setSuccess (s : value) (p : page) : page :=
  Page (formData p) (loading p) (error p) s (timers p).

Definition setTimeout (path : string) (ms : Z) (p : page) : page :=
  Page (formData p) (loading p) (error p) (success p)
       (timers p ++ [(ms, path)]).

(** The effect that runs when [user] or [authLoading] change: where it
    navigates to, if it does.  [user] is an object or [null]. *)
Definition redirect (authLoading : bool) (user : option row)
  : option string :=
  match user with
  | Some u =>
      if negb authLoading then
        if bool_decide (get u "role" = Str "student")
        then Some "/student-dashboard"
        else if bool_decide (get u "role" = Str "counselor")
        then Some "/counselor-dashboard"
        else Some "/dashboard"
      else None
  | None => None
  end.

(** What the component renders. *)
Inductive view : Type :=
| Checking                (* the spinner *)
| Nothing                 (* [null] *)
| SignInForm.

Definition render (authLoading : bool) (user : option row) : view :=
  if authLoading then Checking
  else match user with
       | Some _ => Nothing
       | None => SignInForm
       end.

Definition handleInputChange (name : string) (v : value) (p : page) : page :=
  setError (Prim (Str "")) (setFormData (fun prev => <[name := v]> prev) p).

(** [/\S+@\S+\.\S+/] *)
Definition email_pattern : Regex.t :=
  Regex.Seq (Regex.Many Regex.NonSpace)
    (Regex.Seq (Regex.One (Regex.Char "@"))
       (Regex.Seq (Regex.Many Regex.NonSpace)
          (Regex.Seq (Regex.One (Regex.Char "."))
             (Regex.Many Regex.NonSpace)))).

Definition validateForm (p : page) : page * bool :=
  if negb (truthy (get (formData p) "email"))
     || negb (truthy (get (formData p) "password"))
  then (setError (Prim (Str "Email and password are required")) p, false)
  else if negb (Regex.test email_pattern
                  (to_string (get (formData p) "email")))
  then (setError (Prim (Str "Please enter a valid email address")) p, false)
  else (p, true).

(** What a call of [login] comes to: the promise is rejected, or fulfilled
    with [null] or [undefined], or with an object. *)
Inductive outcome : Type :=
| Rejected
| Nullish
| Fulfilled (result : gmap string any).

Definition field_of (result : gmap string any) (k : string) : any :=
  default (Prim Undefined) (result !! k).

(** A handler that has returned, or waits for [login]: the state it has
    left behind, what it has called [login] with, and what it does to the
    state it finds when the answer is there. *)
Inductive handler : Type :=
| Done (p : page)
| AwaitLogin (p : page) (email password : value)
             (k : outcome -> page -> page).

Definition handleSubmit (p : page) : handler :=
  let '(p, valid) := validateForm p in
  if negb valid then Done p
  else
    let p := setError (Prim (Str "")) (setLoading true p) in
    AwaitLogin p (get (formData p) "email") (get (formData p) "password")
      (fun o q =>
         setLoading false
           match o with
           | Rejected | Nullish =>
               setError (Prim (Str "An error occurred. Please try again.")) q
           | Fulfilled result =>
               if negb (truthy_any (field_of result "success"))
               then setError (or_else (field_of result "error")
                                (Prim (Str "Authentication failed"))) q
               else
                 let user := field_of result "user" in
                 if truthy_any user
                 then
                   let name :=
                     if truthy (get_any user "firstName")
                     then get_any user "firstName"
                     else get_any user "first_name" in
                   setTimeout
                     (if bool_decide (get_any user "role" = Str "counselor")
                      then "/counselor/dashboard"
                      else "/student/profile")
                     1500
                     (setSuccess
                        (Str ("Welcome back, " +:+ to_string name
                              +:+ "! Redirecting to your dashboard..."))
                        q)
                 else setError (Prim (Str "Invalid credentials")) q
           end).

End SignInPage.

(* ===================================================================== *)
(** ** Vocabulary of the statements *)
(* ===================================================================== *)

(** *** Results and method bodies *)

(** What a [catch] that only builds a value makes of a completion. *)
Definition recover {A : Type} (h : err -> A) (c : completion A) : A :=
  match c with
  | Normal a => a
  | Abrupt e => h e
  end.

(** The object a method returns for the answer its request got. *)
Definition envelope_of (r : response) : reply :=
  match r with
  | Thrown e => failed e
  | Resolved a =>
      match error a with
      | Some e => failed e
      | None => ok (data a)
      end
  end.

(** The two shapes of a result object: [{ data, error: null }] and
    [{ data: null, error }]. *)
Definition is_envelope (a : reply) : Prop :=
  (exists dt, a = ok dt) \/ (exists e, a = failed e).

(** The environment made the request fail with [e]. *)
Definition load_fails (f : fault) (e : err) : Prop :=
  f = Refused e \/ f = Broken e.

(** A method body that never throws, returns a result object of one of the
    two shapes, and after a request does nothing but return the envelope
    of the answer. *)
Fixpoint enveloped (p : prog reply) : Prop :=
  match p with
  | Ret a => is_envelope a
  | Throw _ => False
  | GetCache k => forall c, enveloped (k c)
  | ModCache _ k => enveloped k
  | Clock k => forall t, enveloped (k t)
  | Await rq k =>
      forall r w,
        (advance (k r) w).2 = Finished (Normal (envelope_of r))
        /\ sent (advance (k r) w).1 = sent w
  end.

(** A method body all of whose cache assignments keep [inv]. *)
Fixpoint respects {A : Type} (inv : Cache.t -> Prop) (p : prog A) : Prop :=
  match p with
  | Ret _ | Throw _ => True
  | GetCache k => forall c, respects inv (k c)
  | ModCache g k => (forall c, inv c -> inv (g c)) /\ respects inv k
  | Clock k => forall t, respects inv (k t)
  | Await _ k => forall r, respects inv (k r)
  end.

(** *** Calls in progress *)

(** A world whose database is [d] and whose cache satisfies [inv]. *)
Definition calm (d : db) (inv : Cache.t -> Prop) (w : world) : Prop :=
  store w = d /\ inv (svc w).

(** Call number [i] of a pool has returned [a], or will as soon as it is
    answered, whatever happened to the cache meanwhile. *)
Definition resolves {A : Type} (d : db) (inv : Cache.t -> Prop)
  (fs : list fault) (i : nat) (t : task A) (a : A) : Prop :=
  match t with
  | Finished c => c = Normal a
  | Waiting rq k =>
      forall w, calm d inv w ->
        exists w', deliver (fault_of fs i) (Waiting rq k) w
                   = (w', Finished (Normal a)) /\ calm d inv w'
  end.

Definition good {A : Type} (d : db) (inv : Cache.t -> Prop)
  (fs : list fault) (vals : list A) (s : pool A) : Prop :=
  calm d inv (env s)
  /\ List.length (tasks s) = List.length vals
  /\ forall i t a,
       tasks s !! i = Some t -> vals !! i = Some a -> resolves d inv fs i t a.

(** [n] calls of the same method made together, before any answer. *)
Definition made_together (p : prog reply) (n : nat) (w : world) : pool reply :=
  schedule (replicate n (Call p)) (Pool w [] []).

(** Then the answers arrive, in the order [arrival], the request of call
    [i] meeting the fault [fs !! i]. *)
Definition answered (fs : list fault) (arrival : list nat) (s : pool reply)
  : pool reply :=
  schedule (map (fun i => Answer i (fault_of fs i)) arrival) s.

(** What holds of a pool of [n] calls of a cached list while their answers
    arrive: the database is [d], the requests sent are [l], and call [i]
    still waits for the answer to [q] or has returned its envelope. *)
Definition in_flight_of (q : request) (k : response -> prog reply) (d : db)
  (fs : list fault) (n : nat) (l : list request) (s : pool reply) : Prop :=
  store (env s) = d
  /\ sent (env s) = l
  /\ List.length (tasks s) = n
  /\ forall i x, tasks s !! i = Some x ->
       x = Waiting q k
       \/ x = Finished (Normal (envelope_of (respond (fault_of fs i) q d).2)).

(** *** The cached lists *)

(** The requests the two cached lists send on a miss. *)
Definition countries_query : request :=
  Select "n_countries" [] (ascending "country_name") false.

Definition pathways_query : request :=
  Select "pathways" [] (ascending "name") false.

(** A cached list [p] with cache slot [slot] and request [q]: a failed load
    returns the error, leaves the whole cache as it was, and the next call
    sends the request again. *)
Definition retries_after_failure (p : prog reply)
  (slot : Cache.t -> option payload) (q : request) : Prop :=
  forall (fs : list fault) (w : world) (e : err),
    slot (svc w) = None ->
    load_fails (hd Healthy fs) e ->
    (run p fs w).2 = Normal (failed e)
    /\ svc (run p fs w).1 = svc w
    /\ forall fs', sent (run p fs' (run p fs w).1).1
                   = sent (run p fs w).1 ++ [q].

(** The slot is filled only by a load that succeeded, with what the load
    returned. *)
Definition stores_only_on_success (p : prog reply)
  (slot : Cache.t -> option payload) : Prop :=
  forall (fs : list fault) (w : world) (dt : payload),
    slot (svc w) = None ->
    slot (svc (run p fs w).1) = Some dt ->
    hd Healthy fs = Healthy /\ (run p fs w).2 = Normal (ok (Some dt)).

(** Single flight, as the cache contract words it: however many calls are
    made together on an empty slot, one request is sent. *)
Definition single_flight (p : prog reply) (slot : Cache.t -> option payload)
  : Prop :=
  forall (n : nat) (w : world),
    slot (svc w) = None -> (0 < n)%nat ->
    List.length (sent (env (made_together p n w))) = S (List.length (sent w)).

(** What the code does instead: every call sends its own request, nothing
    more is sent when the answers arrive, and each caller whose answer has
    arrived holds the envelope of its own answer. *)
Definition each_call_fetches (p : prog reply)
  (slot : Cache.t -> option payload) (q : request) : Prop :=
  forall (n : nat) (w : world) (fs : list fault) (arrival : list nat),
    slot (svc w) = None ->
    sent (env (made_together p n w)) = sent w ++ replicate n q
    /\ sent (env (answered fs arrival (made_together p n w)))
       = sent w ++ replicate n q
    /\ forall i, i ∈ arrival -> (i < n)%nat ->
         tasks (answered fs arrival (made_together p n w)) !! i
         = Some (Finished
                   (Normal (envelope_of (respond (fault_of fs i) q (store w)).2))).

(** A series of calls, each awaited before the next is made, with what the
    environment does to each. *)
Definition session (calls : list (call * list fault * list nat)) (w : world)
  : world :=
  foldl (fun w x => (invoke x.1.1 x.1.2 x.2 w).1) w calls.

(** A call after which [getAllCountries] goes to the store again, whatever
    the cache held: what an invalidation would be. *)
Definition refreshes_countries (c : call) : Prop :=
  forall (fs : list fault) (arrival : list nat) (w : world) (fs' : list fault),
    sent (run getAllCountries fs' (invoke c fs arrival w).1).1
    = sent (invoke c fs arrival w).1 ++ [countries_query].

(** *** Statistics *)

Definition universities_query : request :=
  Select "new_universities" [] (ascending "university_name") false.

Definition courses_query : request :=
  Select "new_courses" [] (ascending "program_name") false.

(** What a list call returns on its own: the cached array if there is one,
    otherwise the envelope of the answer to its request. *)
Definition list_result (slot : option payload) (f : fault) (q : request)
  (d : db) : reply :=
  match slot with
  | Some c => ok (Some c)
  | None => envelope_of (respond f q d).2
  end.

(** The four results [getStatistics] reduces, for the world [w] it starts
    in and the faults [fs] its four requests meet. *)
Definition list_results (fs : list fault) (w : world) : list reply :=
  [ list_result (Cache.countries (svc w)) (fault_of fs 0) countries_query
                (store w);
    list_result None (fault_of fs 1) universities_query (store w);
    list_result None (fault_of fs 2) courses_query (store w);
    list_result (Cache.pathways (svc w)) (fault_of fs 3) pathways_query
                (store w) ].

(** The count a finished list call stands for: the length of its data when
    it succeeded, 0 when it failed. *)
Definition outcome_count (c : completion reply) : value :=
  match c with
  | Normal r =>
      match error r with
      | None => count r
      | Some _ => Num 0
      end
  | Abrupt _ => Num 0
  end.

(** A count and the list call it stands for: the number of rows the call
    returned, or 0 for a call that returned an error. *)
Inductive counts : value -> completion reply -> Prop :=
| counts_rows (rs : list row) :
    counts (Num (Z.of_nat (List.length rs))) (Normal (ok (Some (Rows rs))))
| counts_failure (e : err) :
    counts (Num 0) (Normal (failed e)).

(** The number of rows of a table. *)
Definition table_size (w : world) (t : string) : value :=
  Num (Z.of_nat (List.length (table (store w) t))).

(** What the cache holds are arrays, as the loads put them there. *)
Definition holds_arrays (c : Cache.t) : Prop :=
  (forall x, Cache.countries c = Some x -> exists rs, x = Rows rs)
  /\ (forall x, Cache.pathways c = Some x -> exists rs, x = Rows rs).

(** *** Counselor requests *)

Definition requests : string := "counselor_requests".

(** The [updateData] object [updateCounselorRequestStatus] builds, when
    the clock reads [t] and then [t']. *)
Definition update_data (status adminNotes : value) (t t' : Z) : row :=
  let updateData : row :=
    {[ "status" := status; "updated_at" := Str (toISOString t) ]} in
  let updateData :=
    if truthy adminNotes
    then <["admin_notes" := adminNotes]> updateData
    else updateData in
  if is_approved status
  then <["approved_at" := Str (toISOString t')]> updateData
  else updateData.

(** The request it sends from the world [w]. *)
Definition update_request (requestId status adminNotes : value) (w : world)
  : request :=
  Update requests (update_data status adminNotes (now w) (now (tick w)))
         [Eq "id" requestId] true.

(** The columns an update may write. *)
Definition written : list string :=
  ["status"; "updated_at"; "admin_notes"; "approved_at"].

(** The rows of the request table with the given id. *)
Definition with_id (requestId : value) (w : world) : list row :=
  List.filter (all_hold [Eq "id" requestId]) (table (store w) requests).

(** The field [col] of row number [i] of the request table. *)
Definition stored (w : world) (i : nat) (col : string) : option value :=
  table (store w) requests !! i ≫= (fun r : row => r !! col).

(** *** Search *)

(** [filters.k] for a [filters] that is not [null]. *)
Definition field (filters : filters_arg) (k : string) : value :=
  match filters with
  | Filters o => default Undefined (o !! k)
  | _ => Undefined
  end.

(** The string [searchUniversities] gives to [.or]: the search term,
    as it is, three times between the names of the columns. *)
Definition name_city_or_state (searchTerm : value) : string :=
  "university_name.ilike.%" +:+ to_string searchTerm
  +:+ "%,city.ilike.%" +:+ to_string searchTerm
  +:+ "%,state_province.ilike.%" +:+ to_string searchTerm +:+ "%".

(** A search term that holds neither a comma nor a closing parenthesis:
    in the string above it stays inside the three patterns. *)
Definition plain (searchTerm : value) : bool :=
  every_char (fun c => negb ((c =? ",")%char || (c =? ")")%char))
             (to_string searchTerm).

(** The chain of filters each search puts on its query. *)
Definition universities_where (searchTerm country_id university_type : value)
  : list pred :=
  (if truthy searchTerm then [Or (name_city_or_state searchTerm)] else [])
  ++ (if truthy country_id then [Eq "country_id" country_id] else [])
  ++ (if truthy university_type
      then [Ilike "university_type" (contains university_type)]
      else []).

Definition courses_where (searchTerm university_id degree_level : value)
  : list pred :=
  (if truthy searchTerm
   then [Ilike "program_name" (contains searchTerm)]
   else [])
  ++ (if truthy university_id then [Eq "university_id" university_id] else [])
  ++ (if truthy degree_level then [Eq "degree_level" degree_level] else []).

(** What it takes for a row to be returned: the conjunction of the search
    term's condition and of one condition per filter that is truthy. *)
Definition university_matches (searchTerm country_id university_type : value)
  (r : row) : bool :=
  (if truthy searchTerm
   then ilike_holds r "university_name" (contains searchTerm)
        || ilike_holds r "city" (contains searchTerm)
        || ilike_holds r "state_province" (contains searchTerm)
   else true)
  && (if truthy country_id then eq_holds r "country_id" country_id else true)
  && (if truthy university_type
      then ilike_holds r "university_type" (contains university_type)
      else true).

Definition course_matches (searchTerm university_id degree_level : value)
  (r : row) : bool :=
  (if truthy searchTerm
   then ilike_holds r "program_name" (contains searchTerm)
   else true)
  && (if truthy university_id
      then eq_holds r "university_id" university_id
      else true)
  && (if truthy degree_level
      then eq_holds r "degree_level" degree_level
      else true).

(** The rows a search returns when the store answers. *)
Definition universities_found (searchTerm : value) (filters : filters_arg)
  (w : world) : list row :=
  order_by (ascending "university_name")
    (List.filter
       (university_matches searchTerm (field filters "country_id")
                           (field filters "university_type"))
       (table (store w) "new_universities")).

Definition courses_found (searchTerm : value) (filters : filters_arg)
  (w : world) : list row :=
  order_by (ascending "program_name")
    (List.filter
       (course_matches searchTerm (field filters "university_id")
                       (field filters "degree_level"))
       (table (store w) "new_courses")).

(** *** Concrete worlds used in the examples *)

(** A fresh service in front of an empty database. *)
Definition fresh_world : world := World Cache.empty ∅ [] [].

Definition offline : err := TransportFailure "Failed to fetch".

(** A service whose countries are cached (as an empty list). *)
Definition cached_world : world :=
  World (Cache.Make (Some (Rows [])) None None None) ∅ [] [].

(** A request waiting for a decision, and the same request once approved. *)
Definition pending_request : row :=
  {[ "id" := Num 1; "student_id" := Num 7; "requested_counselor_id" := Num 3;
     "status" := Str "requested"; "admin_notes" := Str "call first";
     "requested_at" := Str (toISOString 1000) ]}.

Definition approved_request : row :=
  {[ "id" := Num 1; "student_id" := Num 7; "requested_counselor_id" := Num 3;
     "status" := Str "approved"; "requested_at" := Str (toISOString 1000);
     "approved_at" := Str (toISOString 5000);
     "updated_at" := Str (toISOString 5000) ]}.

(** A fresh service in front of a database holding that one request; the
    clock reads one minute past the epoch. *)
Definition pending_world : world :=
  World Cache.empty {[ requests := [pending_request] ]} [] [60000; 60001].

Definition approved_world : world :=
  World Cache.empty {[ requests := [approved_request] ]} [] [60000; 60001].

(** Two universities, one public and one private. *)
Definition aston : row :=
  {[ "id" := Num 1; "university_name" := Str "Aston";
     "country_id" := Num 44; "university_type" := Str "Public" ]}.

Definition buckingham : row :=
  {[ "id" := Num 2; "university_name" := Str "Buckingham";
     "country_id" := Num 44; "university_type" := Str "Private" ]}.

Definition two_universities : world :=
  World Cache.empty
    {[ "new_universities" := [buckingham; aston] ]} [] [].

(** *** Lists and single rows *)

(** The rows are in the order [.order(c, { ascending })] asks for. *)
Definition in_order (c : string) (ascending : bool) (l : list row) : Prop :=
  Sorted (fun a b => row_leb c ascending a b = true) l.

(** A list method [p] over table [t] that sends the filters [wh] and
    orders by [c]: when the store answers, it sends its one request and
    returns the rows of the table that [keep] holds of, each as often as
    the table holds it, in order; cache and store stay as they are. *)
Definition lists_rows (p : prog reply) (t : string) (wh : list pred)
  (keep : row -> bool) (c : string) (ascending : bool) : Prop :=
  forall (fs : list fault) (w : world),
    hd Healthy fs = Healthy ->
    exists rows,
      run p fs w
      = (log (Select t wh (Some (c, ascending)) false) w,
         Normal (ok (Some (Rows rows))))
      /\ rows ≡ₚ List.filter keep (table (store w) t)
      /\ in_order c ascending rows.

(** A by-key method [p] over table [t] and key column [c]: when the store
    answers, it returns the one row whose key is [v], or, when the table
    holds [n] such rows with [n] other than one, no data and the error of
    a request for one row that found [n]. *)
Definition finds_single (p : value -> prog reply) (t c : string) : Prop :=
  forall (v : value) (fs : list fault) (w : world),
    hd Healthy fs = Healthy ->
    (run (p v) fs w).1 = log (Select t [Eq c v] None true) w
    /\ (run (p v) fs w).2
       = Normal
           match List.filter (fun r => eq_holds r c v) (table (store w) t) with
           | [r] => ok (Some (One r))
           | l => failed (NotSingular (List.length l))
           end.

(** A list method [p] that returns a whole table. *)
Definition lists_table (p : prog reply) (t c : string) (ascending : bool)
  : Prop :=
  forall (fs : list fault) (w : world),
    hd Healthy fs = Healthy ->
    exists rows,
      run p fs w
      = (log (Select t [] (Some (c, ascending)) false) w,
         Normal (ok (Some (Rows rows))))
      /\ rows ≡ₚ table (store w) t
      /\ in_order c ascending rows.

(** Countries, counselors and requests for the examples of this part. *)
Definition france : row :=
  {[ "country_id" := Num 33; "country_name" := Str "France" ]}.

Definition ada : row :=
  {[ "id" := Num 3; "display_name" := Str "Ada"; "is_available" := Bool true ]}.

Definition bob : row :=
  {[ "id" := Num 4; "display_name" := Str "Bob"; "is_available" := Bool false ]}.

Definition cleo : row :=
  {[ "id" := Num 5; "display_name" := Str "Cleo"; "is_available" := Bool true ]}.

Definition small_world : world :=
  World Cache.empty
    {[ "n_countries" := [france];
       "counselors" := [cleo; bob; ada];
       "new_universities" := [buckingham; aston] ]} [] [].

(** *** What the methods write *)

Definition is_select (rq : request) : bool :=
  match rq with
  | Select _ _ _ _ => true
  | _ => false
  end.

(** A method body that sends nothing but selects. *)
Fixpoint reads_only {A : Type} (p : prog A) : Prop :=
  match p with
  | Ret _ | Throw _ => True
  | GetCache k => forall c, reads_only (k c)
  | ModCache _ k => reads_only k
  | Clock k => forall t, reads_only (k t)
  | Await rq k => is_select rq = true /\ forall r, reads_only (k r)
  end.

(** The two methods that write. *)
Definition writes (c : call) : bool :=
  match c with
  | CreateCounselorRequest _ | UpdateCounselorRequestStatus _ _ _ => true
  | _ => false
  end.

(** No request of the table has a counselor assigned. *)
Definition unassigned (d : db) : Prop :=
  forall r, In r (table d requests) -> is_null (column r "counselor_id") = true.

(** The call does not send a [counselor_id] with a new request. *)
Definition assigns_nobody (c : call) : Prop :=
  match c with
  | CreateCounselorRequest requestData =>
      is_null (column (json requestData) "counselor_id") = true
  | _ => True
  end.

(** A student asks for counselor 3. *)
Definition a_request : row :=
  {[ "id" := Num 1; "student_id" := Num 7; "requested_counselor_id" := Num 3;
     "status" := Str "requested" ]}.

(** *** The world after [getStatistics] *)

(** The requests [getStatistics] sends from the world [w]: one per list
    that is not cached, in the order of the calls. *)
Definition stats_requests (w : world) : list request :=
  match Cache.countries (svc w) with Some _ => [] | None => [countries_query] end
  ++ [universities_query; courses_query]
  ++ match Cache.pathways (svc w) with Some _ => [] | None => [pathways_query] end.

(** What a cached list assigns to its slot when its answer is [r]. *)
Definition fill (set : option payload -> Cache.t -> Cache.t) (r : response)
  (c : Cache.t) : Cache.t :=
  match r with
  | Resolved (Reply dt None) => set dt c
  | _ => c
  end.

(** The pool of the four list calls of [getStatistics] started in [w],
    with continuations [k0] to [k3], at the moment when the calls marked
    in [b0] to [b3] have returned: each of these has its result, and the
    two cached lists among them have filled their slot. *)
Definition stats_pool (w : world) (fs : list fault)
  (k0 k1 k2 k3 : response -> prog reply) (b0 b1 b2 b3 : bool) (l : list nat)
  : pool reply :=
  let a0 := list_result (Cache.countries (svc w)) (fault_of fs 0)
                        countries_query (store w) in
  let a1 := list_result None (fault_of fs 1) universities_query (store w) in
  let a2 := list_result None (fault_of fs 2) courses_query (store w) in
  let a3 := list_result (Cache.pathways (svc w)) (fault_of fs 3)
                        pathways_query (store w) in
  Pool (World (Cache.Make (if b0 then data a0 else None)
                          (Cache.universities (svc w))
                          (Cache.courses (svc w))
                          (if b3 then data a3 else None))
              (store w) (sent w ++ stats_requests w) (ticks w))
       [ if b0 then Finished (Normal a0) else Waiting countries_query k0;
         if b1 then Finished (Normal a1) else Waiting universities_query k1;
         if b2 then Finished (Normal a2) else Waiting courses_query k2;
         if b3 then Finished (Normal a3) else Waiting pathways_query k3 ]
       l.

(** A call of the pool that still waits is one whose list was not cached
    when the calls were made. *)
Definition started (w : world) (b0 b3 : bool) : Prop :=
  (b0 = false -> Cache.countries (svc w) = None)
  /\ (b3 = false -> Cache.pathways (svc w) = None).

(** *** How the calls compose *)

(** [p] and then [q], each awaited to its end; the first meets the faults
    [fs] and the second [fs']. *)
Definition and_then {A B : Type} (p : prog A) (fs : list fault)
  (q : prog B) (fs' : list fault) (w : world) : world * completion B :=
  run q fs' (run p fs w).1.

(** The cache slots no method reads. *)
Definition idle_slots (c : Cache.t) : option payload * option payload :=
  (Cache.universities c, Cache.courses c).

(** A request of student 7 as the form sends it, and a store holding two
    requests with the same id. *)
Definition new_request : row :=
  {[ "student_id" := Num 7; "requested_counselor_id" := Num 3;
     "status" := Str "requested"; "notes" := Undefined ]}.

Definition twice_world : world :=
  World Cache.empty {[ requests := [pending_request; approved_request] ]}
        [] [60000; 60001].

(** *** The sign-in page *)

Fixpoint all_of (f : ascii -> bool) (s : string) : bool :=
  match s with
  | EmptyString => true
  | String c s' => f c && all_of f s'
  end.

(** A run of one or more characters that [a] accepts. *)
Definition run_of (a : Regex.atom) (s : string) : Prop :=
  s <> "" /\ all_of (Regex.accepts a) s = true.

(** A run of one or more characters none of which is white space. *)
Definition word (s : string) : Prop := run_of Regex.NonSpace s.

(** Somewhere in [s]: a word, an at sign, a word, a dot, a word. *)
Definition holds_an_address (s : string) : Prop :=
  exists pre a b c post,
    s = pre +:+ a +:+ "@" +:+ b +:+ "." +:+ c +:+ post
    /\ word a /\ word b /\ word c.

(** The form can be sent: both fields are filled in and the email holds
    an address. *)
Definition sendable (p : SignInPage.page) : Prop :=
  truthy (SignInPage.get (SignInPage.formData p) "email") = true
  /\ truthy (SignInPage.get (SignInPage.formData p) "password") = true
  /\ holds_an_address
       (to_string (SignInPage.get (SignInPage.formData p) "email")).

(** The user of an answer of [login] that signs in. *)
Definition signed_in (o : SignInPage.outcome) : option SignInPage.any :=
  match o with
  | SignInPage.Fulfilled result =>
      if SignInPage.truthy_any (SignInPage.field_of result "success")
         && SignInPage.truthy_any (SignInPage.field_of result "user")
      then Some (SignInPage.field_of result "user")
      else None
  | _ => None
  end.

(** A form filled in by a counselor, and the answer of [login] to it. *)
Definition filled_in : SignInPage.page :=
  SignInPage.handleInputChange "password" (Str "secret")
    (SignInPage.handleInputChange "email" (Str "kim@school.example")
       SignInPage.initial).

Definition kim : row :=
  {[ "firstName" := Str "Kim"; "role" := Str "counselor" ]}.

Definition welcome : SignInPage.outcome :=
  SignInPage.Fulfilled
    {[ "success" := SignInPage.Prim (Bool true);
       "user" := SignInPage.Object kim ]}.

(** *** Tactics *)

(** Closed equations between concrete values are settled by evaluating
    both sides with the virtual machine. *)
Ltac by_evaluation :=
  cbv zeta;
  repeat match goal with |- _ /\ _ => split end;
  match goal with
  | |- ?a = ?b => vm_cast_no_check (@eq_refl _ b)
  end.

(** The two properties of method bodies, by running through the body. *)
Ltac enveloped_method :=
  repeat (cbn; intros;
          match goal with
          | |- is_envelope _ => unfold is_envelope, ok, failed; eauto
          | |- _ /\ _ => split
          | |- context [match ?x with _ => _ end] => destruct x
          | _ => done
          end).

Ltac respects_method :=
  repeat (cbn; intros;
          match goal with
          | |- _ /\ _ => split
          | |- context [match ?x with _ => _ end] => destruct x
          | _ => done
          end).

(* ===================================================================== *)
(** ** Sanity checks of the JavaScript layer *)
(* ===================================================================== *)

Example toISOString_epoch : toISOString 0 = "1970-01-01T00:00:00.000Z".
Proof. vm_compute. reflexivity. Qed.

Example toISOString_2025 :
  toISOString 1756252800123 = "2025-08-27T00:00:00.123Z".
Proof. vm_compute. reflexivity. Qed.

Example toISOString_leap :
  toISOString 951825599999 = "2000-02-29T11:59:59.999Z".
Proof. vm_compute. reflexivity. Qed.

(* ===================================================================== *)
(** ** Properties of the two semantics *)
(* ===================================================================== *)

Section Semantics.

Context {A : Type}.

(** A call that finishes without waiting does the same under both
    semantics. *)
Lemma advance_run (p : prog A) :
  forall (w w' : world) (c : completion A) (fs : list fault),
    advance p w = (w', Finished c) -> run p fs w = (w', c).
Proof.
  induction p as [a|e|k IH|g k IH|k IH|rq k IH]; simpl; intros w w' c fs Hadv.
  - by inversion Hadv.
  - by inversion Hadv.
  - by apply IH.
  - by apply IH.
  - by apply IH.
  - discriminate.
Qed.

(** The sequential run is: advance to the first request, get the answer,
    and go on. *)
Lemma run_advance (p : prog A) :
  forall (fs : list fault) (w : world),
    run p fs w =
    let '(w1, t) := advance p w in
    match t with
    | Finished c => (w1, c)
    | Waiting rq k =>
        let '(d, r) := respond (hd Healthy fs) rq (store w1) in
        run (k r) (tl fs) (with_store d w1)
    end.
Proof.
  induction p as [a|e|k IH|g k IH|k IH|rq k IH]; simpl; intros fs w;
    try done; auto.
Qed.

Lemma run_try_catch (h : err -> A) (p : prog A) :
  forall (fs : list fault) (w : world),
    run (try_catch p (fun e => Ret (h e))) fs w =
    ((run p fs w).1, Normal (recover h (run p fs w).2)).
Proof.
  induction p as [a|e|k IH|g k IH|k IH|rq k IH]; simpl; intros fs w;
    try done; auto.
  destruct (respond (hd Healthy fs) rq (store w)) as [d r]. apply IH.
Qed.

End Semantics.

(** *** [Promise.all] over calls that each settle at their first answer

    [d] is the database, which the calls leave as it is; [inv] is any
    property of the cache that the calls keep. *)
Section PromiseAll.

Context {A : Type}.
Variables (d : db) (inv : Cache.t -> Prop) (fs : list fault).

#[local] Abbreviation calm := (calm d inv).
#[local] Abbreviation resolves := (resolves d inv fs).
#[local] Abbreviation good := (good d inv fs).

Lemma deliver_finish (f : fault) (t : task A) (w w' : world)
  (c : completion A) :
  deliver f t w = (w', Finished c) -> finish [f] t w = (w', c).
Proof.
  destruct t as [c0|rq k]; simpl.
  - intros H. by inversion H.
  - destruct (respond f rq (store w)) as [d' r]. apply advance_run.
Qed.

Lemma good_insert (vals : list A) (s : pool A) (w' : world) (i : nat) (a : A)
  (l : list nat) :
  good vals s -> calm w' -> vals !! i = Some a ->
  good vals (Pool w' (<[i := Finished (Normal a)]> (tasks s)) l).
Proof.
  intros (_ & Hlen & Hall) Hcalm Ha. split; [done|]. simpl. split.
  - by rewrite length_insert.
  - intros j t b Hj Hb. destruct (decide (i = j)) as [->|Hne].
    + apply list_lookup_insert_Some in Hj as [(_ & <- & _)|[? _]]; [|done].
      simpl. congruence.
    + rewrite list_lookup_insert_ne in Hj by done. eauto.
Qed.

Lemma step_answer_good (vals : list A) (s : pool A) (i : nat) :
  good vals s -> good vals (step s (Answer i (fault_of fs i))).
Proof.
  intros Hgood. unfold step.
  destruct (tasks s !! i) as [[c|rq k]|] eqn:Hi; try done.
  destruct Hgood as (Hcalm & Hlen & Hall).
  destruct (lookup_lt_is_Some_2 vals i) as [a Ha].
  { rewrite <- Hlen. by eapply lookup_lt_Some. }
  destruct (Hall i _ a Hi Ha _ Hcalm) as (w' & Hd & Hcalm').
  rewrite Hd. simpl. by apply good_insert.
Qed.

Lemma schedule_answers_good (vals : list A) (arrival : list nat) :
  forall s : pool A,
    good vals s ->
    good vals (schedule (map (fun i => Answer i (fault_of fs i)) arrival) s).
Proof.
  induction arrival as [|i arrival IH]; intros s Hgood; [done|].
  simpl. apply IH. by apply step_answer_good.
Qed.

Lemma await_remaining_good (vals : list A) (s : pool A) (i : nat) :
  good vals s ->
  good vals (await_remaining fs s i)
  /\ forall a, vals !! i = Some a ->
       tasks (await_remaining fs s i) !! i = Some (Finished (Normal a)).
Proof.
  intros Hgood. pose proof Hgood as (Hcalm & Hlen & Hall).
  unfold await_remaining.
  destruct (tasks s !! i) as [[c|rq k]|] eqn:Hi.
  - split; [done|]. intros a Ha. rewrite Hi.
    specialize (Hall i _ a Hi Ha). simpl in Hall. by subst c.
  - destruct (lookup_lt_is_Some_2 vals i) as [a Ha].
    { rewrite <- Hlen. by eapply lookup_lt_Some. }
    destruct (Hall i _ a Hi Ha _ Hcalm) as (w' & Hd & Hcalm').
    rewrite (deliver_finish _ _ _ _ _ Hd). split.
    + by apply good_insert.
    + intros b Hb. simpl. rewrite list_lookup_insert_eq.
      * congruence.
      * by eapply lookup_lt_Some.
  - split; [done|]. intros a Ha.
    apply lookup_ge_None in Hi. apply lookup_lt_Some in Ha. lia.
Qed.

Lemma await_remaining_keeps (s : pool A) (i j : nat) (c : completion A) :
  tasks s !! j = Some (Finished c) ->
  tasks (await_remaining fs s i) !! j = Some (Finished c).
Proof.
  intros Hj. unfold await_remaining.
  destruct (tasks s !! i) as [[c0|rq k]|] eqn:Hi; try done.
  destruct (finish _ _ _) as [w' c']. simpl.
  rewrite list_lookup_insert_ne; [done|]. intros ->. congruence.
Qed.

Lemma sweep_good (vals : list A) (n : nat) :
  forall s : pool A,
    good vals s ->
    good vals (foldl (await_remaining fs) s (seq 0 n))
    /\ forall i a, (i < n)%nat -> vals !! i = Some a ->
         tasks (foldl (await_remaining fs) s (seq 0 n)) !! i
         = Some (Finished (Normal a)).
Proof.
  induction n as [|n IH]; intros s Hgood.
  - split; [done|]. intros; lia.
  - rewrite seq_S, foldl_app. simpl.
    destruct (IH s Hgood) as [Hg Hdone].
    destruct (await_remaining_good vals _ n Hg) as [Hg' Hn].
    split; [done|]. intros i a Hi Ha.
    destruct (decide (i = n)) as [->|Hne]; [by apply Hn|].
    apply await_remaining_keeps, Hdone; [lia|done].
Qed.

Lemma values_finished (vals : list A) :
  values ((fun a => Finished (Normal a)) <$> vals) = vals.
Proof. induction vals as [|a vals IH]; csimpl; congruence. Qed.

Lemma first_abrupt_none (vals : list A) (order : list nat) :
  first_abrupt ((fun a => Finished (Normal a)) <$> vals) order = None.
Proof.
  induction order as [|i order IH]; [done|]. simpl.
  rewrite list_lookup_fmap. by destruct (vals !! i).
Qed.

(** Whatever the order of the answers, [Promise.all] yields the values the
    calls resolve to. *)
Lemma promise_all_resolves (ps : list (prog A)) (vals : list A)
  (arrival : list nat) (w : world) :
  List.length ps = List.length vals ->
  good vals (schedule (map Call ps) (Pool w [] [])) ->
  exists w', promise_all ps fs arrival w = (w', Normal vals) /\ calm w'.
Proof.
  intros Hlen Hmade. unfold promise_all.
  set (made := schedule (map Call ps) (Pool w [] [])) in *.
  pose proof (schedule_answers_good vals arrival made Hmade) as Hans.
  set (answered := schedule _ made) in *.
  destruct (sweep_good vals (List.length ps) answered Hans) as [Hg Hdone].
  set (done := foldl _ answered _) in *.
  assert (tasks done = (fun a => Finished (Normal a)) <$> vals) as ->.
  { destruct Hg as (_ & Hl & _). apply list_eq. intros i.
    rewrite list_lookup_fmap. destruct (vals !! i) as [a|] eqn:Ha; simpl.
    - apply Hdone; [|done]. rewrite Hlen. by eapply lookup_lt_Some.
    - apply lookup_ge_None. rewrite Hl. by apply lookup_ge_None. }
  rewrite first_abrupt_none, values_finished.
  exists (env done). split; [done|]. by destruct Hg.
Qed.

End PromiseAll.

(* ===================================================================== *)
(** ** The methods, one call at a time *)
(* ===================================================================== *)

Lemma respond_select_store (f : fault) (t : string) (wh : list pred)
  (ord : option (string * bool)) (single : bool) (d : db) :
  (respond f (Select t wh ord single) d).1 = d.
Proof. destruct f; simpl; [|done..]. by destruct (forallb readable wh). Qed.

(** A method made of one request: the request is sent, and the method
    returns the envelope of the answer. *)
Lemma run_fetch (rq : request) (fs : list fault) (w : world) :
  run (fetch rq) fs w =
  (with_store (respond (hd Healthy fs) rq (store w)).1 (log rq w),
   Normal (envelope_of (respond (hd Healthy fs) rq (store w)).2)).
Proof.
  unfold fetch. cbn.
  destruct (respond (hd Healthy fs) rq (store w)) as [d [a|e]]; cbn; [|done].
  by destruct a as [dt [e|]].
Qed.

Lemma advance_fetch (rq : request) (w : world) :
  exists k,
    advance (fetch rq) w = (log rq w, Waiting rq k)
    /\ forall r w', advance (k r) w' = (w', Finished (Normal (envelope_of r))).
Proof.
  unfold fetch. cbn. eexists. split; [done|].
  intros [[dt [e|]]|e] w'; done.
Qed.

(** The cached lists: a hit returns the cached array and sends nothing. *)
Lemma run_getAllCountries_hit (c : payload) (fs : list fault) (w : world) :
  Cache.countries (svc w) = Some c ->
  run getAllCountries fs w = (w, Normal (ok (Some c))).
Proof. intros H. unfold getAllCountries. cbn. by rewrite H. Qed.

Lemma run_getAllPathways_hit (c : payload) (fs : list fault) (w : world) :
  Cache.pathways (svc w) = Some c ->
  run getAllPathways fs w = (w, Normal (ok (Some c))).
Proof. intros H. unfold getAllPathways. cbn. by rewrite H. Qed.

(** On a miss the request is sent; the answer's data is stored only when
    the answer carries no error. *)
Lemma run_getAllCountries_miss (fs : list fault) (w : world) :
  Cache.countries (svc w) = None ->
  run getAllCountries fs w =
  let r := (respond (hd Healthy fs) countries_query (store w)).2 in
  (match r with
   | Resolved (Reply dt None) =>
       with_svc (Cache.set_countries dt) (log countries_query w)
   | _ => log countries_query w
   end,
   Normal (envelope_of r)).
Proof.
  intros H. unfold getAllCountries. cbn. rewrite H. cbn.
  pose proof (respond_select_store (hd Healthy fs) "n_countries" []
                (ascending "country_name") false (store w)) as Hst.
  fold countries_query in Hst |- *.
  destruct (respond (hd Healthy fs) countries_query (store w)) as [d [a|e]];
    simpl in Hst; subst d; cbn.
  - destruct a as [dt [e|]]; cbn; by destruct w.
  - by destruct w.
Qed.

Lemma run_getAllPathways_miss (fs : list fault) (w : world) :
  Cache.pathways (svc w) = None ->
  run getAllPathways fs w =
  let r := (respond (hd Healthy fs) pathways_query (store w)).2 in
  (match r with
   | Resolved (Reply dt None) =>
       with_svc (Cache.set_pathways dt) (log pathways_query w)
   | _ => log pathways_query w
   end,
   Normal (envelope_of r)).
Proof.
  intros H. unfold getAllPathways. cbn. rewrite H. cbn.
  pose proof (respond_select_store (hd Healthy fs) "pathways" []
                (ascending "name") false (store w)) as Hst.
  fold pathways_query in Hst |- *.
  destruct (respond (hd Healthy fs) pathways_query (store w)) as [d [a|e]];
    simpl in Hst; subst d; cbn.
  - destruct a as [dt [e|]]; cbn; by destruct w.
  - by destruct w.
Qed.

(* ===================================================================== *)
(** ** The cache *)
(* ===================================================================== *)

Lemma getAllCountries_retries :
  retries_after_failure getAllCountries Cache.countries countries_query.
Proof.
  intros fs w e Hmiss Hfail.
  rewrite (run_getAllCountries_miss fs w Hmiss).
  assert ((respond (hd Healthy fs) countries_query (store w)).2
          = match hd Healthy fs with
            | Broken _ => Thrown e
            | _ => Resolved (Reply None (Some e))
            end) as ->.
  { by destruct Hfail as [-> | ->]. }
  assert (forall x : world * completion reply,
            x = (log countries_query w, Normal (failed e)) ->
            x.2 = Normal (failed e) /\ svc x.1 = svc w
            /\ forall fs', sent (run getAllCountries fs' x.1).1
                           = sent x.1 ++ [countries_query]) as Hx.
  { intros x ->. cbn [fst snd]. split; [done|]. split; [done|].
    intros fs'. rewrite run_getAllCountries_miss by done. cbn [fst].
    by destruct (respond _ _ _).2 as [[dt [e'|]]|e']. }
  apply Hx. by destruct Hfail as [-> | ->].
Qed.

Lemma getAllPathways_retries :
  retries_after_failure getAllPathways Cache.pathways pathways_query.
Proof.
  intros fs w e Hmiss Hfail.
  rewrite (run_getAllPathways_miss fs w Hmiss).
  assert ((respond (hd Healthy fs) pathways_query (store w)).2
          = match hd Healthy fs with
            | Broken _ => Thrown e
            | _ => Resolved (Reply None (Some e))
            end) as ->.
  { by destruct Hfail as [-> | ->]. }
  assert (forall x : world * completion reply,
            x = (log pathways_query w, Normal (failed e)) ->
            x.2 = Normal (failed e) /\ svc x.1 = svc w
            /\ forall fs', sent (run getAllPathways fs' x.1).1
                           = sent x.1 ++ [pathways_query]) as Hx.
  { intros x ->. cbn [fst snd]. split; [done|]. split; [done|].
    intros fs'. rewrite run_getAllPathways_miss by done. cbn [fst].
    by destruct (respond _ _ _).2 as [[dt [e'|]]|e']. }
  apply Hx. by destruct Hfail as [-> | ->].
Qed.

Lemma getAllCountries_stores_only_on_success :
  stores_only_on_success getAllCountries Cache.countries.
Proof.
  intros fs w dt Hmiss. rewrite (run_getAllCountries_miss fs w Hmiss).
  destruct (hd Healthy fs) as [|e|e]; simpl; try congruence.
  intros [= ->]. done.
Qed.

Lemma getAllPathways_stores_only_on_success :
  stores_only_on_success getAllPathways Cache.pathways.
Proof.
  intros fs w dt Hmiss. rewrite (run_getAllPathways_miss fs w Hmiss).
  destruct (hd Healthy fs) as [|e|e]; simpl; try congruence.
  intros [= ->]. done.
Qed.

(* ===================================================================== *)
(** ** Statistics *)
(* ===================================================================== *)

Section Statistics.

Variables (inv : Cache.t -> Prop) (fs : list fault).

(** A waiting select whose continuation returns the envelope of the answer
    and keeps [inv] resolves to that envelope. *)
Lemma resolves_select (d : db) (i : nat) (t : string) (wh : list pred)
  (ord : option (string * bool)) (k : response -> prog reply) :
  (forall r w', exists c',
      advance (k r) w'
      = (World c' (store w') (sent w') (ticks w'),
         Finished (Normal (envelope_of r)))
      /\ (inv (svc w') -> inv c')) ->
  resolves d inv fs i (Waiting (Select t wh ord false) k)
    (envelope_of (respond (fault_of fs i) (Select t wh ord false) d).2).
Proof.
  intros Hk w [Hst Hinv]. subst d. unfold deliver.
  pose proof (respond_select_store (fault_of fs i) t wh ord false (store w))
    as Hd.
  destruct (respond (fault_of fs i) (Select t wh ord false) (store w))
    as [d r]. simpl in Hd. subst d. cbn [snd].
  destruct (Hk r (with_store (store w) w)) as (c' & Hadv & Hc').
  rewrite Hadv. eexists. split; [done|]. split; [done|]. by apply Hc'.
Qed.

Lemma advance_getAllCountries_hit (c : payload) (w : world) :
  Cache.countries (svc w) = Some c ->
  advance getAllCountries w = (w, Finished (Normal (ok (Some c)))).
Proof. intros H. unfold getAllCountries. cbn. by rewrite H. Qed.

Lemma advance_getAllPathways_hit (c : payload) (w : world) :
  Cache.pathways (svc w) = Some c ->
  advance getAllPathways w = (w, Finished (Normal (ok (Some c)))).
Proof. intros H. unfold getAllPathways. cbn. by rewrite H. Qed.

Lemma advance_getAllCountries_miss :
  exists k,
    (forall w, Cache.countries (svc w) = None ->
       advance getAllCountries w = (log countries_query w, Waiting countries_query k))
    /\ forall r w', exists c',
         advance (k r) w'
         = (World c' (store w') (sent w') (ticks w'),
            Finished (Normal (envelope_of r)))
         /\ (c' = svc w' \/ exists dt, c' = Cache.set_countries dt (svc w')).
Proof.
  eexists. split.
  - intros w H. unfold getAllCountries. cbn. rewrite H. cbn. reflexivity.
  - intros [[dt [e|]]|e] [c d l ts]; cbn; eauto.
Qed.

Lemma advance_getAllPathways_miss :
  exists k,
    (forall w, Cache.pathways (svc w) = None ->
       advance getAllPathways w = (log pathways_query w, Waiting pathways_query k))
    /\ forall r w', exists c',
         advance (k r) w'
         = (World c' (store w') (sent w') (ticks w'),
            Finished (Normal (envelope_of r)))
         /\ (c' = svc w' \/ exists dt, c' = Cache.set_pathways dt (svc w')).
Proof.
  eexists. split.
  - intros w H. unfold getAllPathways. cbn. rewrite H. cbn. reflexivity.
  - intros [[dt [e|]]|e] [c d l ts]; cbn; eauto.
Qed.

Lemma advance_fetch_select (t : string) (wh : list pred)
  (ord : option (string * bool)) (w : world) :
  exists k,
    advance (fetch (Select t wh ord false)) w
    = (log (Select t wh ord false) w, Waiting (Select t wh ord false) k)
    /\ forall r w', exists c',
         advance (k r) w'
         = (World c' (store w') (sent w') (ticks w'),
            Finished (Normal (envelope_of r)))
         /\ c' = svc w'.
Proof.
  destruct (advance_fetch (Select t wh ord false) w) as (k & Hk & Hk').
  exists k. split; [done|]. intros r [c d l ts]. rewrite Hk'. eauto.
Qed.

(** The four list calls of [getStatistics], whatever the order in which
    their answers arrive: each yields what it would yield on its own. *)
Lemma promise_all_lists (arrival : list nat) (w : world) :
  (Cache.countries (svc w) = None ->
   forall c x, inv c -> inv (Cache.set_countries x c)) ->
  (Cache.pathways (svc w) = None ->
   forall c x, inv c -> inv (Cache.set_pathways x c)) ->
  inv (svc w) ->
  exists w',
    promise_all
      [getAllCountries; getAllUniversities; getAllCourses; getAllPathways]
      fs arrival w
    = (w', Normal (list_results fs w))
    /\ store w' = store w /\ inv (svc w').
Proof.
  intros inv_countries inv_pathways Hinv.
  apply (promise_all_resolves (store w) inv); [done|].
  unfold schedule. cbn [map foldl]. unfold list_results.
  (* the four calls are made, in order *)
  assert (exists t0 w0,
            advance getAllCountries w = (w0, t0)
            /\ store w0 = store w /\ svc w0 = svc w
            /\ resolves (store w) inv fs 0 t0
                 (list_result (Cache.countries (svc w)) (fault_of fs 0)
                              countries_query (store w)))
    as (t0 & w0 & Ha0 & Hs0 & Hc0 & Hr0).
  { destruct (Cache.countries (svc w)) as [c|] eqn:Hc.
    - rewrite (advance_getAllCountries_hit c w Hc). by eexists _, _.
    - destruct advance_getAllCountries_miss as (k & Hk0 & Hk).
      rewrite (Hk0 w Hc).
      eexists _, _. split; [done|]. split; [done|]. split; [done|].
      apply resolves_select. intros r w'.
      destruct (Hk r w') as (c' & Hadv & Hc'). exists c'. split; [done|].
      intros Hi. destruct Hc' as [->|[dt ->]]; [done|].
      by apply inv_countries. }
  unfold getAllUniversities, getAllCourses.
  fold universities_query courses_query.
  cbn [step env tasks settled]. rewrite Ha0. cbn [env tasks settled app].
  destruct (advance_fetch_select "new_universities" []
              (ascending "university_name") w0) as (k1 & Ha1 & Hk1).
  fold universities_query in Ha1. rewrite Ha1. cbn [env tasks settled app].
  destruct (advance_fetch_select "new_courses" []
              (ascending "program_name") (log universities_query w0))
    as (k2 & Ha2 & Hk2).
  fold courses_query in Ha2. rewrite Ha2. cbn [env tasks settled app].
  set (w2 := log courses_query (log universities_query w0)).
  assert (exists t3 w3,
            advance getAllPathways w2 = (w3, t3)
            /\ store w3 = store w /\ svc w3 = svc w
            /\ resolves (store w) inv fs 3 t3
                 (list_result (Cache.pathways (svc w)) (fault_of fs 3)
                              pathways_query (store w)))
    as (t3 & w3 & Ha3 & Hs3 & Hc3 & Hr3).
  { assert (svc w2 = svc w) as Hsvc by done.
    destruct (Cache.pathways (svc w)) as [c|] eqn:Hc.
    - rewrite (advance_getAllPathways_hit c w2) by congruence.
      by eexists _, _.
    - destruct advance_getAllPathways_miss as (k & Hk0 & Hk).
      rewrite (Hk0 w2) by congruence.
      eexists _, _. split; [done|]. split; [done|]. split; [done|].
      apply resolves_select. intros r w'.
      destruct (Hk r w') as (c' & Hadv & Hc'). exists c'. split; [done|].
      intros Hi. destruct Hc' as [->|[dt ->]]; [done|].
      by apply inv_pathways. }
  rewrite Ha3. cbn [env tasks settled app].
  split; [|split].
  - split; cbn [env]; [done|]. by rewrite Hc3.
  - done.
  - intros i t a Ht Ha.
    destruct i as [|[|[|[|i]]]]; simpl in Ht, Ha; try done;
      injection Ht as <-; injection Ha as <-.
    + done.
    + apply resolves_select. intros r w'.
      destruct (Hk1 r w') as (c' & Hadv & ->). by exists (svc w').
    + apply resolves_select. intros r w'.
      destruct (Hk2 r w') as (c' & Hadv & ->). by exists (svc w').
    + done.
Qed.

End Statistics.

Lemma envelope_of_cases (r : response) :
  (exists dt, envelope_of r = ok dt) \/ (exists e, envelope_of r = failed e).
Proof. destruct r as [[dt [e|]]|e]; simpl; eauto. Qed.

Lemma list_result_cases (slot : option payload) (f : fault) (q : request)
  (d : db) :
  (exists dt, list_result slot f q d = ok dt)
  \/ (exists e, list_result slot f q d = failed e).
Proof. destruct slot; simpl; [eauto|apply envelope_of_cases]. Qed.

Lemma outcome_count_list_result (slot : option payload) (f : fault)
  (q : request) (d : db) :
  outcome_count (Normal (list_result slot f q d))
  = count (list_result slot f q d).
Proof. by destruct (list_result_cases slot f q d) as [[dt ->]|[e ->]]. Qed.

(** Each list call, made on its own. *)
Lemma run_getAllCountries_alone (f : fault) (w : world) :
  (run getAllCountries [f] w).2
  = Normal (list_result (Cache.countries (svc w)) f countries_query (store w)).
Proof.
  destruct (Cache.countries (svc w)) as [c|] eqn:Hc.
  - by rewrite (run_getAllCountries_hit c).
  - by rewrite run_getAllCountries_miss.
Qed.

Lemma run_getAllPathways_alone (f : fault) (w : world) :
  (run getAllPathways [f] w).2
  = Normal (list_result (Cache.pathways (svc w)) f pathways_query (store w)).
Proof.
  destruct (Cache.pathways (svc w)) as [c|] eqn:Hc.
  - by rewrite (run_getAllPathways_hit c).
  - by rewrite run_getAllPathways_miss.
Qed.

Lemma run_getAllUniversities_alone (f : fault) (w : world) :
  (run getAllUniversities [f] w).2
  = Normal (list_result None f universities_query (store w)).
Proof. unfold getAllUniversities. by rewrite run_fetch. Qed.

Lemma run_getAllCourses_alone (f : fault) (w : world) :
  (run getAllCourses [f] w).2
  = Normal (list_result None f courses_query (store w)).
Proof. unfold getAllCourses. by rewrite run_fetch. Qed.

(** What [getStatistics] returns and what it leaves behind, for any cache
    property [inv] that filling a slot keeps. *)
Lemma getStatistics_spec (inv : Cache.t -> Prop) (fs : list fault)
  (arrival : list nat) (w : world) :
  (Cache.countries (svc w) = None ->
   forall c x, inv c -> inv (Cache.set_countries x c)) ->
  (Cache.pathways (svc w) = None ->
   forall c x, inv c -> inv (Cache.set_pathways x c)) ->
  inv (svc w) ->
  exists w',
    getStatistics fs arrival w
    = (w', Normal
             (Stats.Make
                (outcome_count (run getAllCountries [fault_of fs 0] w).2)
                (outcome_count (run getAllUniversities [fault_of fs 1] w).2)
                (outcome_count (run getAllCourses [fault_of fs 2] w).2)
                (outcome_count (run getAllPathways [fault_of fs 3] w).2)))
    /\ store w' = store w /\ inv (svc w').
Proof.
  intros Hc Hp Hinv.
  destruct (promise_all_lists inv fs arrival w Hc Hp Hinv)
    as (w' & Hall & Hst & Hinv').
  exists w'. split; [|done].
  unfold getStatistics. rewrite Hall. unfold list_results, catching.
  rewrite run_getAllCountries_alone, run_getAllUniversities_alone,
    run_getAllCourses_alone, run_getAllPathways_alone.
  by rewrite !outcome_count_list_result.
Qed.

(** The courses request fails; the three other answers arrive in some
    order. *)
Example statistics_without_courses :
  (getStatistics [Healthy; Healthy; Broken offline; Healthy] [3; 0; 1]%nat
                 two_universities).2
  = Normal (Stats.Make (Num 0) (Num 2) (Num 0) (Num 0)).
Proof. by_evaluation. Qed.

Lemma insert_sorted_length (le : row -> row -> bool) (x : row)
  (l : list row) :
  List.length (insert_sorted le x l) = S (List.length l).
Proof.
  induction l as [|y l IH]; simpl; [done|].
  destruct (le x y); simpl; congruence.
Qed.

Lemma select_all_length (d : db) (t : string) (ord : option (string * bool)) :
  List.length (select_rows d t [] ord) = List.length (table d t).
Proof.
  unfold select_rows. generalize (table d t). intros l.
  assert (List.filter (all_hold []) l = l) as ->.
  { induction l as [|r l IH]; simpl; congruence. }
  destruct ord as [[c asc]|]; [|done]. simpl.
  induction l as [|r l IH]; simpl; [done|].
  by rewrite insert_sorted_length, IH.
Qed.

(** The count of a list call, for the result of the call. *)
Lemma counts_list_result (slot : option payload) (f : fault) (t : string)
  (ord : option (string * bool)) (d : db) :
  (forall x, slot = Some x -> exists rs, x = Rows rs) ->
  let r := list_result slot f (Select t [] ord false) d in
  counts (outcome_count (Normal r)) (Normal r)
  /\ (slot = None -> f = Healthy ->
      outcome_count (Normal r)
      = Num (Z.of_nat (List.length (table d t)))).
Proof.
  intros Hslot r. unfold r, list_result. destruct slot as [x|].
  - destruct (Hslot x eq_refl) as [rs ->]. split; [apply counts_rows|done].
  - destruct f as [|e|e]; cbn.
    + split; [apply counts_rows|]. intros _ _.
      by rewrite select_all_length.
    + split; [apply counts_failure|done].
    + split; [apply counts_failure|done].
Qed.

(** C5: [getStatistics] always returns four counts, whatever each of its
    four requests meets and in whatever order the answers arrive.  Each
    count is the number of rows its list call returns when that call
    succeeds, which for a list that is not cached is the number of rows of
    its table, and 0 when that call fails, so that one failing collection
    never fails the aggregate nor changes the other counts.  The cache is
    taken to hold arrays, which is all the loads ever put there
    ([session_holds_arrays]). *)
Theorem getStatistics_counts (fs : list fault) (arrival : list nat)
  (w : world) :
  holds_arrays (svc w) ->
  exists w' countries universities courses pathways,
    getStatistics fs arrival w
    = (w', Normal (Stats.Make countries universities courses pathways))
    /\ counts countries (run getAllCountries [fault_of fs 0] w).2
    /\ counts universities (run getAllUniversities [fault_of fs 1] w).2
    /\ counts courses (run getAllCourses [fault_of fs 2] w).2
    /\ counts pathways (run getAllPathways [fault_of fs 3] w).2
    /\ (Cache.countries (svc w) = None -> fault_of fs 0 = Healthy ->
        countries = table_size w "n_countries")
    /\ (fault_of fs 1 = Healthy ->
        universities = table_size w "new_universities")
    /\ (fault_of fs 2 = Healthy -> courses = table_size w "new_courses")
    /\ (Cache.pathways (svc w) = None -> fault_of fs 3 = Healthy ->
        pathways = table_size w "pathways").
Proof.
  intros [Hc Hp].
  destruct (getStatistics_spec (fun _ => True) fs arrival w)
    as (w' & H & _); [done..|].
  eexists w', _, _, _, _. split; [exact H|].
  rewrite run_getAllCountries_alone, run_getAllUniversities_alone,
    run_getAllCourses_alone, run_getAllPathways_alone.
  unfold countries_query, universities_query, courses_query, pathways_query,
    table_size.
  destruct (counts_list_result (Cache.countries (svc w)) (fault_of fs 0)
              "n_countries" (ascending "country_name") (store w) Hc)
    as [H0 H0'].
  destruct (counts_list_result None (fault_of fs 1) "new_universities"
              (ascending "university_name") (store w)) as [H1 H1'];
    [done|].
  destruct (counts_list_result None (fault_of fs 2) "new_courses"
              (ascending "program_name") (store w)) as [H2 H2']; [done|].
  destruct (counts_list_result (Cache.pathways (svc w)) (fault_of fs 3)
              "pathways" (ascending "name") (store w) Hp) as [H3 H3'].
  split; [exact H0|]. split; [exact H1|]. split; [exact H2|].
  split; [exact H3|]. split; [|split; [|split]]; auto.
Qed.

(** Two universities, and a courses request that does not get through:
    two universities are counted and no course. *)
Lemma getStatistics_counts_witness :
  holds_arrays (svc two_universities)
  /\ exists w',
       getStatistics [Healthy; Healthy; Broken offline; Healthy] [3; 0; 1]%nat
                     two_universities
       = (w', Normal (Stats.Make (Num 0) (Num 2) (Num 0) (Num 0))).
Proof.
  assert (holds_arrays (svc two_universities)) as Ha.
  { split; intros x Hx; discriminate Hx. }
  split; [exact Ha|].
  destruct (getStatistics_counts [Healthy; Healthy; Broken offline; Healthy]
              [3; 0; 1]%nat two_universities Ha)
    as (w' & n0 & n1 & n2 & n3 & Hrun & _ & _ & H2 & _ & H0 & H1 & _ & H3).
  exists w'. rewrite Hrun.
  rewrite (H0 eq_refl eq_refl), (H1 eq_refl), (H3 eq_refl eq_refl).
  assert ((run getAllCourses [fault_of [Healthy; Healthy; Broken offline;
                                         Healthy] 2] two_universities).2
          = Normal (failed offline)) as Hc by reflexivity.
  rewrite Hc in H2. inversion H2. reflexivity.
Defined.

(* ===================================================================== *)
(** ** The public boundary *)
(* ===================================================================== *)

Lemma envelope_of_fault (f : fault) (rq : request) (d : db) (x : err) :
  load_fails f x -> envelope_of (respond f rq d).2 = failed x.
Proof. by intros [-> | ->]. Qed.

Lemma run_enveloped (p : prog reply) :
  enveloped p ->
  forall (fs : list fault) (w : world),
    exists e,
      (run p fs w).2 = Normal e
      /\ is_envelope e
      /\ forall x, load_fails (hd Healthy fs) x ->
                   sent (run p fs w).1 <> sent w -> e = failed x.
Proof.
  induction p as [a|e|k IH|g k IH|k IH|rq k IH]; simpl; intros Hp fs w.
  - exists a. by repeat split.
  - done.
  - by apply IH.
  - apply (IH Hp fs (with_svc g w)).
  - apply (IH _ (Hp _) fs (tick w)).
  - pose proof (envelope_of_fault (hd Healthy fs) rq (store w)) as Hf.
    destruct (respond (hd Healthy fs) rq (store w)) as [d r]. simpl in Hf.
    destruct (Hp r (with_store d (log rq w))) as [Hk _].
    destruct (advance (k r) (with_store d (log rq w))) as [w' t] eqn:Hadv.
    simpl in Hk. subst t.
    rewrite (advance_run _ _ _ _ (tl fs) Hadv). simpl.
    exists (envelope_of r). split; [done|]. split.
    + apply envelope_of_cases.
    + intros x Hx _. by apply Hf.
Qed.

Lemma run_respects {A : Type} (inv : Cache.t -> Prop) (p : prog A) :
  respects inv p ->
  forall (fs : list fault) (w : world),
    inv (svc w) -> inv (svc (run p fs w).1).
Proof.
  induction p as [a|e|k IH|g k IH|k IH|rq k IH]; simpl; intros Hp fs w Hw.
  - done.
  - done.
  - by apply IH.
  - destruct Hp as [Hg Hk]. apply IH; [done|]. by apply Hg.
  - by apply IH.
  - destruct (respond (hd Healthy fs) rq (store w)) as [d r]. by apply IH.
Qed.

(** Every method other than [getStatistics] is such a body. *)
Lemma body_enveloped (c : call) (p : prog reply) :
  body c = Some p -> enveloped p.
Proof.
  destruct c; intros [= <-]; unfold fetch.
  all: try match goal with f : filters_arg |- _ => destruct f end.
  all: enveloped_method.
Qed.

(** C8, amended: no public method throws, whatever the store does; every
    method other than [getStatistics] returns an object [{ data, error }]
    that is either [{ data, error: null }] or [{ data: null, error }], and
    when the request it sent failed, it is [{ data: null, error }] with the
    error the request failed with; [getStatistics] returns the four counts,
    not such an object. *)
Theorem public_methods_never_throw (c : call) (fs : list fault)
  (arrival : list nat) (w : world) :
  exists r,
    (invoke c fs arrival w).2 = Normal r
    /\ (c = GetStatistics -> exists s, r = Counts s)
    /\ (c <> GetStatistics ->
        exists e,
          r = Envelope e
          /\ is_envelope e
          /\ forall x, load_fails (hd Healthy fs) x ->
                       sent (invoke c fs arrival w).1 <> sent w ->
                       e = failed x).
Proof.
  unfold invoke. destruct (body c) as [p|] eqn:Hbody.
  - destruct (run_enveloped p (body_enveloped c p Hbody) fs w)
      as (e & He & Henv & Hcause).
    destruct (run p fs w) as [w' r]. simpl in *. subst r.
    exists (Envelope e). split; [done|]. split.
    + intros ->. discriminate.
    + intros _. by exists e.
  - destruct (getStatistics_spec (fun _ => True) fs arrival w)
      as (w' & -> & _); [done..|].
    eexists. split; [done|]. split.
    + intros _. by eexists.
    + intros Hc. by destruct c.
Qed.

(** A call that meets a broken connection returns the error as data. *)
Lemma public_methods_never_throw_witness :
  GetCountryById (Num 1) <> GetStatistics
  /\ (invoke (GetCountryById (Num 1)) [Broken offline] [] fresh_world).2
     = Normal (Envelope (failed offline)).
Proof.
  assert (GetCountryById (Num 1) <> GetStatistics) as Hne by discriminate.
  split; [exact Hne|].
  destruct (public_methods_never_throw (GetCountryById (Num 1))
              [Broken offline] [] fresh_world) as (r & Hr & _ & Henv).
  destruct (Henv Hne) as (e & -> & _ & Hcause).
  rewrite Hr. do 2 f_equal. apply Hcause.
  - by right.
  - vm_compute. discriminate.
Defined.

(** C8 as stated fails at [getStatistics]: what it returns is not an
    object [{ data, error }]. *)
Lemma getStatistics_returns_no_envelope :
  ~ exists e : reply,
      (invoke GetStatistics [] [] fresh_world).2 = Normal (Envelope e).
Proof. intros [e H]. vm_compute in H. discriminate. Qed.

(* ===================================================================== *)
(** ** The cache is never emptied *)
(* ===================================================================== *)

Lemma body_respects_countries (dt : payload) (c : call) (p : prog reply) :
  body c = Some p -> c <> GetAllCountries ->
  respects (fun x => Cache.countries x = Some dt) p.
Proof.
  destruct c; intros [= <-] Hne; try done; unfold fetch.
  all: try match goal with f : filters_arg |- _ => destruct f end.
  all: respects_method.
Qed.

Lemma body_respects_pathways (dt : payload) (c : call) (p : prog reply) :
  body c = Some p -> c <> GetAllPathways ->
  respects (fun x => Cache.pathways x = Some dt) p.
Proof.
  destruct c; intros [= <-] Hne; try done; unfold fetch.
  all: try match goal with f : filters_arg |- _ => destruct f end.
  all: respects_method.
Qed.

Lemma invoke_keeps_countries (c : call) (fs : list fault)
  (arrival : list nat) (w : world) (dt : payload) :
  Cache.countries (svc w) = Some dt ->
  Cache.countries (svc (invoke c fs arrival w).1) = Some dt.
Proof.
  intros Hc. unfold invoke. destruct (body c) as [p|] eqn:Hbody.
  - destruct (decide (c = GetAllCountries)) as [->|Hne].
    + injection Hbody as <-. by rewrite (run_getAllCountries_hit dt).
    + pose proof (run_respects _ p (body_respects_countries dt c p Hbody Hne)
                    fs w Hc) as H.
      by destruct (run p fs w).
  - destruct (getStatistics_spec (fun x => Cache.countries x = Some dt)
                fs arrival w) as (w' & -> & _ & H); [congruence| |done..].
    by intros _ [] ?.
Qed.

Lemma invoke_keeps_pathways (c : call) (fs : list fault)
  (arrival : list nat) (w : world) (dt : payload) :
  Cache.pathways (svc w) = Some dt ->
  Cache.pathways (svc (invoke c fs arrival w).1) = Some dt.
Proof.
  intros Hc. unfold invoke. destruct (body c) as [p|] eqn:Hbody.
  - destruct (decide (c = GetAllPathways)) as [->|Hne].
    + injection Hbody as <-. by rewrite (run_getAllPathways_hit dt).
    + pose proof (run_respects _ p (body_respects_pathways dt c p Hbody Hne)
                    fs w Hc) as H.
      by destruct (run p fs w).
  - destruct (getStatistics_spec (fun x => Cache.pathways x = Some dt)
                fs arrival w) as (w' & -> & _ & H); [|congruence|done..].
    by intros _ [] ?.
Qed.

Lemma session_keeps_cache (calls : list (call * list fault * list nat)) :
  forall (w : world),
    (forall dt, Cache.countries (svc w) = Some dt ->
                Cache.countries (svc (session calls w)) = Some dt)
    /\ (forall dt, Cache.pathways (svc w) = Some dt ->
                   Cache.pathways (svc (session calls w)) = Some dt).
Proof.
  induction calls as [|[[c fs] arrival] calls IH]; intros w; [done|].
  simpl. split; intros dt Hdt; apply IH.
  - by apply invoke_keeps_countries.
  - by apply invoke_keeps_pathways.
Qed.

(** C4, amended: the service has no invalidation operation.  Once a list
    is cached, it stays cached through any series of calls of any methods,
    and [getAllCountries] (likewise [getAllPathways]) keeps returning that
    same array without sending anything; only a new service instance
    starts with an empty cache. *)
Theorem cache_is_never_invalidated
  (calls : list (call * list fault * list nat)) (w : world) (dt : payload)
  (fs : list fault) :
  (Cache.countries (svc w) = Some dt ->
   run getAllCountries fs (session calls w)
   = (session calls w, Normal (ok (Some dt))))
  /\ (Cache.pathways (svc w) = Some dt ->
      run getAllPathways fs (session calls w)
      = (session calls w, Normal (ok (Some dt)))).
Proof.
  destruct (session_keeps_cache calls w) as [Hc Hp]. split; intros H.
  - apply run_getAllCountries_hit. by apply Hc.
  - apply run_getAllPathways_hit. by apply Hp.
Qed.

(** After countries were cached, a series of calls of other methods, then
    [getAllCountries]: the cached array, and nothing sent. *)
Lemma cache_is_never_invalidated_witness :
  let calls := [(GetStatistics, [], [3; 1]%nat);
                (UpdateCounselorRequestStatus (Num 1) (Str "approved") Null,
                 [], []);
                (GetAllCountries, [Broken offline], [])] in
  Cache.countries (svc cached_world) = Some (Rows [])
  /\ run getAllCountries [] (session calls cached_world)
     = (session calls cached_world, Normal (ok (Some (Rows [])))).
Proof.
  intros calls. split; [reflexivity|].
  destruct (cache_is_never_invalidated calls cached_world (Rows []) [])
    as [H _].
  apply H. reflexivity.
Defined.

(** C4 as stated fails: no method is an invalidation. *)
Lemma no_call_invalidates : ~ exists c : call, refreshes_countries c.
Proof.
  intros [c H]. specialize (H [] [] cached_world []).
  pose proof (invoke_keeps_countries c [] [] cached_world (Rows []) eq_refl)
    as Hkept.
  rewrite (run_getAllCountries_hit _ _ _ Hkept) in H. simpl in H.
  apply (f_equal List.length) in H. rewrite length_app in H. simpl in H. lia.
Qed.

(** C9: for both cached lists, a load that fails returns the error, stores
    nothing (the whole cache is as before) and the next call sends the
    request again; a slot that was empty is filled only by a load that
    succeeded, with the data that load returned. *)
Theorem failed_load_does_not_poison_cache :
  (retries_after_failure getAllCountries Cache.countries countries_query
   /\ stores_only_on_success getAllCountries Cache.countries)
  /\ (retries_after_failure getAllPathways Cache.pathways pathways_query
      /\ stores_only_on_success getAllPathways Cache.pathways).
Proof.
  split; split.
  - apply getAllCountries_retries.
  - apply getAllCountries_stores_only_on_success.
  - apply getAllPathways_retries.
  - apply getAllPathways_stores_only_on_success.
Qed.

(** The connection is down for a first call and back for a second one. *)
Lemma failed_load_does_not_poison_cache_witness :
  let first := run getAllCountries [Broken offline] fresh_world in
  Cache.countries (svc fresh_world) = None
  /\ load_fails (hd Healthy [Broken offline]) offline
  /\ first.2 = Normal (failed offline)
  /\ svc first.1 = svc fresh_world
  /\ forall fs', sent (run getAllCountries fs' first.1).1
                 = sent first.1 ++ [countries_query].
Proof.
  intros first. split; [reflexivity|]. split; [by right|].
  destruct failed_load_does_not_poison_cache as [[H _] _].
  apply (H [Broken offline] fresh_world offline); [reflexivity|by right].
Defined.

(* ===================================================================== *)
(** ** Calls made together *)
(* ===================================================================== *)

Section Together.

Variables (p : prog reply) (slot : Cache.t -> option payload).
Variables (t : string) (ord : option (string * bool)).
Variable k : response -> prog reply.

#[local] Abbreviation q := (Select t [] ord false).

(** [p] on a miss sends [q] and waits with [k]; [k] returns the envelope
    of the answer and sends nothing. *)
Hypothesis p_miss :
  forall w, slot (svc w) = None -> advance p w = (log q w, Waiting q k).
Hypothesis k_returns :
  forall r w, exists c',
    advance (k r) w
    = (World c' (store w) (sent w) (ticks w),
       Finished (Normal (envelope_of r))).

Lemma calls_all_miss (n : nat) :
  forall s : pool reply,
    slot (svc (env s)) = None ->
    schedule (replicate n (Call p)) s
    = Pool (World (svc (env s)) (store (env s))
                  (sent (env s) ++ replicate n q) (ticks (env s)))
           (tasks s ++ replicate n (Waiting q k))
           (settled s).
Proof.
  induction n as [|n IH]; intros [w ts l] Hmiss; simpl in *.
  - rewrite !app_nil_r. by destruct w.
  - rewrite (p_miss w Hmiss). simpl. rewrite IH by done. simpl.
    by rewrite <- !app_assoc.
Qed.

Variables (w0 : world) (fs : list fault) (n : nat).

#[local] Abbreviation value_of i :=
  (envelope_of (respond (fault_of fs i) q (store w0)).2).

#[local] Abbreviation in_flight := (in_flight_of q k (store w0) fs n).

Lemma answer_in_flight (l : list request) (s : pool reply) (i : nat) :
  in_flight l s ->
  in_flight l (step s (Answer i (fault_of fs i)))
  /\ ((i < n)%nat ->
      tasks (step s (Answer i (fault_of fs i))) !! i
      = Some (Finished (Normal (value_of i))))
  /\ forall j a, tasks s !! j = Some (Finished a) ->
       tasks (step s (Answer i (fault_of fs i))) !! j = Some (Finished a).
Proof.
  intros (Hst & Hsent & Hlen & Hall). unfold step.
  destruct (tasks s !! i) as [[c|rq k']|] eqn:Hi.
  - split; [done|]. split; [|done]. intros _.
    by destruct (Hall i _ Hi) as [|[= ->]].
  - destruct (Hall i _ Hi) as [[= -> ->]|]; [|done]. unfold deliver.
    pose proof (respond_select_store (fault_of fs i) t [] ord false
                  (store (env s))) as Hd.
    rewrite Hst in *.
    destruct (respond (fault_of fs i) q (store w0)) as [d r] eqn:Hr.
    simpl in Hd. subst d.
    destruct (k_returns r (with_store (store w0) (env s))) as [c' ->].
    cbn [snd fst env tasks settled]. repeat split; cbn [env tasks]; try done.
    + by rewrite length_insert.
    + intros j x Hj. destruct (decide (i = j)) as [->|Hne].
      * rewrite list_lookup_insert_eq in Hj by (by eapply lookup_lt_Some).
        right. rewrite Hr. simpl. congruence.
      * rewrite list_lookup_insert_ne in Hj by done. eauto.
    + intros _.
      by rewrite list_lookup_insert_eq by (by eapply lookup_lt_Some).
    + intros j a Hj. rewrite list_lookup_insert_ne; [done|].
      intros ->. congruence.
  - split; [done|]. split; [|done]. intros Hlt.
    apply lookup_ge_None in Hi. lia.
Qed.

Lemma answers_in_flight (l : list request) (arrival : list nat) :
  forall s : pool reply,
    in_flight l s ->
    in_flight l (answered fs arrival s)
    /\ (forall i, i ∈ arrival -> (i < n)%nat ->
          tasks (answered fs arrival s) !! i
          = Some (Finished (Normal (value_of i))))
    /\ forall j a, tasks s !! j = Some (Finished a) ->
         tasks (answered fs arrival s) !! j = Some (Finished a).
Proof.
  unfold answered.
  induction arrival as [|i arrival IH]; intros s Hs; simpl.
  - split; [done|]. split; [|done]. intros i Hi. by apply elem_of_nil in Hi.
  - destruct (answer_in_flight l s i Hs) as (Hs' & Hi & Hkeep).
    destruct (IH _ Hs') as (Hs'' & Hin & Hkeep').
    split; [done|]. split.
    + intros j Hj Hlt. apply elem_of_cons in Hj as [->|Hj].
      * apply Hkeep'. by apply Hi.
      * by apply Hin.
    + intros j a Hj. by apply Hkeep', Hkeep.
Qed.

End Together.

Lemma each_call_fetches_of (p : prog reply) (slot : Cache.t -> option payload)
  (t : string) (ord : option (string * bool)) (k : response -> prog reply) :
  (forall w, slot (svc w) = None ->
     advance p w = (log (Select t [] ord false) w,
                    Waiting (Select t [] ord false) k)) ->
  (forall r w, exists c',
     advance (k r) w
     = (World c' (store w) (sent w) (ticks w),
        Finished (Normal (envelope_of r)))) ->
  each_call_fetches p slot (Select t [] ord false).
Proof.
  intros Hmiss Hk n w fs arrival Hslot. unfold made_together.
  rewrite (calls_all_miss p slot t ord k Hmiss n (Pool w [] []) Hslot).
  simpl. split; [done|].
  destruct (answers_in_flight t ord k Hk w fs n
              (sent w ++ replicate n (Select t [] ord false)) arrival
              (Pool (World (svc w) (store w)
                           (sent w ++ replicate n (Select t [] ord false))
                           (ticks w))
                    (replicate n (Waiting (Select t [] ord false) k)) []))
    as ((_ & Hsent & _) & Hdone & _).
  - repeat split; simpl; try done.
    + by rewrite length_replicate.
    + intros i x Hi. apply lookup_replicate in Hi as [-> _]. by left.
  - split; [done|]. apply Hdone.
Qed.

(** C3, amended: there is no sharing of a load in flight.  [n] calls of
    [getAllCountries] (likewise [getAllPathways]) made together on an empty
    slot send [n] requests, one each; nothing more is sent when the answers
    arrive, in whatever order; and every caller whose answer has arrived
    holds the envelope of the answer to its own request, which is the same
    rows for all of them when the store answers them all. *)
Theorem concurrent_loads_each_fetch :
  each_call_fetches getAllCountries Cache.countries countries_query
  /\ each_call_fetches getAllPathways Cache.pathways pathways_query.
Proof.
  split.
  - destruct advance_getAllCountries_miss as (k & Hmiss & Hk).
    apply (each_call_fetches_of _ _ _ _ k Hmiss).
    intros r w. destruct (Hk r w) as (c' & -> & _). by exists c'.
  - destruct advance_getAllPathways_miss as (k & Hmiss & Hk).
    apply (each_call_fetches_of _ _ _ _ k Hmiss).
    intros r w. destruct (Hk r w) as (c' & -> & _). by exists c'.
Qed.

(** Three calls made together on a fresh service; the answers to the last
    and the first arrive. *)
Lemma concurrent_loads_each_fetch_witness :
  let s := answered [] [2; 0]%nat (made_together getAllCountries 3 fresh_world) in
  Cache.countries (svc fresh_world) = None
  /\ sent (env s) = [countries_query; countries_query; countries_query]
  /\ tasks s !! 2%nat = Some (Finished (Normal (ok (Some (Rows []))))).
Proof.
  intros s. split; [reflexivity|].
  destruct concurrent_loads_each_fetch as [H _].
  destruct (H 3%nat fresh_world [] [2; 0]%nat eq_refl) as (_ & Hsent & Hdone).
  split; [exact Hsent|].
  apply (Hdone 2%nat); [|lia]. apply elem_of_cons. by left.
Defined.

(** C3 as stated fails: two calls made together on a fresh service send
    two requests. *)
Lemma two_calls_two_fetches :
  ~ single_flight getAllCountries Cache.countries.
Proof.
  intros H. specialize (H 2%nat fresh_world eq_refl). vm_compute in H.
  assert (2 = 1)%nat as Habs by (apply H; lia). discriminate.
Qed.

(* ===================================================================== *)
(** ** Updating the status of a counselor request *)
(* ===================================================================== *)

Lemma run_update (requestId status adminNotes : value) (fs : list fault)
  (w : world) :
  run (updateCounselorRequestStatus requestId status adminNotes) fs w =
  let rq := update_request requestId status adminNotes w in
  let w1 := if is_approved status then tick (tick w) else tick w in
  (with_store (respond (hd Healthy fs) rq (store w)).1 (log rq w1),
   Normal (envelope_of (respond (hd Healthy fs) rq (store w)).2)).
Proof.
  unfold updateCounselorRequestStatus, update_request, update_data, requests.
  rewrite (run_try_catch failed).
  cbn -[insert singletonM toISOString respond].
  destruct (is_approved status);
    cbn -[insert singletonM toISOString respond].
  all: destruct (respond _ _ _) as [d [[dt [e|]]|e]]; done.
Qed.

Lemma update_data_status (st notes : value) (t t' : Z) :
  update_data st notes t t' !! "status" = Some st.
Proof.
  unfold update_data.
  destruct (truthy notes), (is_approved st); by simplify_map_eq.
Qed.

Lemma update_data_updated_at (st notes : value) (t t' : Z) :
  update_data st notes t t' !! "updated_at" = Some (Str (toISOString t)).
Proof.
  unfold update_data.
  destruct (truthy notes), (is_approved st); by simplify_map_eq.
Qed.

Lemma update_data_approved_at (notes : value) (t t' : Z) :
  update_data (Str "approved") notes t t' !! "approved_at"
  = Some (Str (toISOString t')).
Proof. unfold update_data. destruct (truthy notes); by simplify_map_eq. Qed.

Lemma update_data_not_approved (st notes : value) (t t' : Z) :
  st <> Str "approved" -> update_data st notes t t' !! "approved_at" = None.
Proof.
  intros Hst. unfold update_data, is_approved.
  rewrite bool_decide_eq_false_2 by done.
  destruct (truthy notes); by simplify_map_eq.
Qed.

Lemma update_data_no_notes (st notes : value) (t t' : Z) :
  truthy notes = false -> update_data st notes t t' !! "admin_notes" = None.
Proof.
  intros H. unfold update_data. rewrite H.
  destruct (is_approved st); by simplify_map_eq.
Qed.

Lemma update_data_notes (st notes : value) (t t' : Z) :
  truthy notes = true ->
  update_data st notes t t' !! "admin_notes" = Some notes.
Proof.
  intros H. unfold update_data. rewrite H.
  destruct (is_approved st); by simplify_map_eq.
Qed.

Lemma update_data_other (st notes : value) (t t' : Z) (col : string) :
  col ∉ written -> update_data st notes t t' !! col = None.
Proof.
  intros H. unfold written in H. unfold update_data.
  repeat (apply not_elem_of_cons in H as [? H]).
  destruct (truthy notes), (is_approved st); by simplify_map_eq.
Qed.

(** The body of a request: fields that are [undefined] are not sent. *)
Lemma json_lookup_None (o : row) (col : string) :
  o !! col = None -> json o !! col = None.
Proof. intros H. unfold json. apply map_lookup_filter_None_2. by left. Qed.

Lemma json_lookup_Some (o : row) (col : string) (v : value) :
  o !! col = Some v -> v <> Undefined -> json o !! col = Some v.
Proof. intros H Hv. unfold json. by apply map_lookup_filter_Some. Qed.

Lemma lookup_map {A B : Type} (f : A -> B) (l : list A) (i : nat) :
  map f l !! i = f <$> l !! i.
Proof.
  revert i. induction l as [|a l IH]; intros [|i]; simpl; auto.
Qed.

(** What the store may do to the request table on an update: nothing, or
    patch the matching rows; other tables are not touched. *)
Lemma respond_update_table (f : fault) (t : string) (patch : row)
  (wh : list pred) (d : db) :
  (forall t', t' <> t ->
     (respond f (Update t patch wh true) d).1 !! t' = d !! t')
  /\ (table (respond f (Update t patch wh true) d).1 t = table d t
      \/ table (respond f (Update t patch wh true) d).1 t
         = patch_rows wh (json patch) (table d t)).
Proof.
  destruct f as [|e|e]; simpl; try by auto.
  destruct (map _ (List.filter (all_hold wh) (table d t))) as [|r [|r' l]];
    simpl; try by auto.
  split.
  - intros t' Hne. by rewrite lookup_insert_ne.
  - right. unfold table at 1. by rewrite lookup_insert_eq.
Qed.

(** What an update does to one row. *)
Lemma patched_row_frame (requestId st notes : value) (t t' : Z) (r r' : row) :
  r' = r
  \/ r' = (if all_hold [Eq "id" requestId] r
           then json (update_data st notes t t') ∪ r else r) ->
  (forall col, col ∉ written -> r' !! col = r !! col)
  /\ (truthy notes = false -> r' !! "admin_notes" = r !! "admin_notes")
  /\ (st <> Str "approved" -> r' !! "approved_at" = r !! "approved_at")
  /\ (eq_holds r "id" requestId = false -> r' = r).
Proof.
  intros [-> | ->]; [done|]. simpl. rewrite andb_true_r.
  destruct (eq_holds r "id" requestId); [|done].
  repeat split; try done.
  - intros col Hcol. apply lookup_union_r, json_lookup_None.
    by apply update_data_other.
  - intros Hn. apply lookup_union_r, json_lookup_None.
    by apply update_data_no_notes.
  - intros Hs. apply lookup_union_r, json_lookup_None.
    by apply update_data_not_approved.
Qed.

(** C10: an update touches nothing but the request table and adds or
    removes no row; in every row, every column other than [status],
    [updated_at], [admin_notes] and [approved_at] keeps its value;
    [admin_notes] keeps its value when [adminNotes] is omitted, [null] or
    empty (any falsy value), [approved_at] keeps its value when the new
    status is not ['approved'], and rows with another id are left as they
    are.  The cache is not touched. *)
Theorem update_writes_only_its_fields (requestId status adminNotes : value)
  (fs : list fault) (w : world) :
  let w' :=
    (run (updateCounselorRequestStatus requestId status adminNotes) fs w).1 in
  svc w' = svc w
  /\ (forall t, t <> requests -> store w' !! t = store w !! t)
  /\ List.length (table (store w') requests)
     = List.length (table (store w) requests)
  /\ forall i r r',
       table (store w) requests !! i = Some r ->
       table (store w') requests !! i = Some r' ->
       (forall col, col ∉ written -> r' !! col = r !! col)
       /\ (truthy adminNotes = false ->
           r' !! "admin_notes" = r !! "admin_notes")
       /\ (status <> Str "approved" ->
           r' !! "approved_at" = r !! "approved_at")
       /\ (eq_holds r "id" requestId = false -> r' = r).
Proof.
  rewrite run_update. cbn [fst]. unfold update_request.
  set (patch := update_data _ _ _ _).
  destruct (respond_update_table (hd Healthy fs) requests patch
              [Eq "id" requestId] (store w)) as [Hother Htable].
  split; [by destruct (is_approved status)|].
  split; [done|]. cbn [store with_store].
  split.
  - destruct Htable as [-> | ->]; [done|]. unfold patch_rows.
    by rewrite length_map.
  - intros i r r' Hr Hr'. apply (patched_row_frame _ _ _ (now w) (now (tick w))).
    fold patch. destruct Htable as [Ht|Ht]; rewrite Ht in Hr'.
    + left. congruence.
    + right. unfold patch_rows in Hr'. rewrite lookup_map, Hr in Hr'.
      cbn [fmap option_fmap option_map] in Hr'. congruence.
Qed.

(** An omitted note on a pending request: the note and the identifying
    columns stay. *)
Lemma update_writes_only_its_fields_witness :
  let w' := (run (updateCounselorRequestStatus (Num 1) (Str "declined")
                    (Str "")) [] pending_world).1 in
  truthy (Str "") = false
  /\ stored w' 0 "admin_notes" = Some (Str "call first")
  /\ stored w' 0 "student_id" = Some (Num 7)
  /\ stored w' 0 "approved_at" = None.
Proof.
  intros w'. split; [reflexivity|].
  destruct (update_writes_only_its_fields (Num 1) (Str "declined") (Str "")
              [] pending_world) as (_ & _ & _ & Hrows).
  fold w' in Hrows.
  set (r' := json (update_data (Str "declined") (Str "") 60000 60001)
             ∪ pending_request).
  assert (table (store pending_world) requests !! 0%nat
          = Some pending_request) as Hr by reflexivity.
  assert (table (store w') requests !! 0%nat = Some r') as Hr'
    by reflexivity.
  destruct (Hrows 0%nat pending_request r' Hr Hr')
    as (Hframe & Hnotes & Happroved & _).
  unfold stored. rewrite Hr'. cbn [mbind option_bind]. split; [|split].
  - rewrite Hnotes by reflexivity. vm_compute; reflexivity.
  - rewrite Hframe; [vm_compute; reflexivity|]. unfold written. intros H.
    repeat (apply elem_of_cons in H as [H|H]; [discriminate|]).
    by apply elem_of_nil in H.
  - rewrite Happroved by discriminate. vm_compute; reflexivity.
Defined.

(** An update the store applies: exactly one row has the id. *)
Lemma respond_update_one (t : string) (patch : row) (wh : list pred)
  (d : db) (r : row) :
  List.filter (all_hold wh) (table d t) = [r] ->
  respond Healthy (Update t patch wh true) d
  = (<[t := patch_rows wh (json patch) (table d t)]> d,
     Resolved (Reply (Some (One (json patch ∪ r))) None)).
Proof. intros H. unfold respond, exec. by rewrite H. Qed.

Lemma update_applied (requestId status adminNotes : value) (fs : list fault)
  (w : world) (r : row) :
  hd Healthy fs = Healthy ->
  with_id requestId w = [r] ->
  let patch := json (update_data status adminNotes (now w) (now (tick w))) in
  let res :=
    run (updateCounselorRequestStatus requestId status adminNotes) fs w in
  res.2 = Normal (ok (Some (One (patch ∪ r))))
  /\ forall i, table (store w) requests !! i = Some r ->
               table (store res.1) requests !! i = Some (patch ∪ r).
Proof.
  intros Hf Hone patch res. unfold res. rewrite run_update, Hf.
  unfold update_request, with_id in *.
  rewrite (respond_update_one _ _ _ _ r Hone).
  cbn [fst snd envelope_of error data store with_store].
  split; [done|]. intros i Hi.
  unfold table at 1. rewrite lookup_insert_eq.
  cbn [default from_option id]. unfold patch_rows. rewrite lookup_map, Hi.
  cbn [fmap option_fmap option_map].
  assert (all_hold [Eq "id" requestId] r = true) as ->; [|done].
  apply (proj1 (List.filter_In _ r (table (store w) requests))).
  rewrite Hone. by left.
Qed.

(** An update that fails has changed nothing in the store. *)
Lemma update_failed_store (requestId status adminNotes : value)
  (fs : list fault) (w : world) (e : err) :
  (run (updateCounselorRequestStatus requestId status adminNotes) fs w).2
  = Normal (failed e) ->
  store (run (updateCounselorRequestStatus requestId status adminNotes)
           fs w).1 = store w.
Proof.
  rewrite run_update. cbn [fst snd store with_store].
  destruct (hd Healthy fs) as [|x|x]; try done.
  unfold update_request. cbn [respond exec].
  by destruct (map _ (List.filter _ (table (store w) requests)))
    as [|r [|r' l]].
Qed.

(** C2, amended: the update checks neither the new status nor the current
    one.  When the store applies it (exactly one row has the id), the row's
    status becomes the given status, whatever it was before and whatever
    value is given; no call fails for the transition it asks for.  A call
    that does fail leaves the store as it was. *)
Theorem any_status_change_is_accepted (requestId status adminNotes : value)
  (fs : list fault) (w : world) :
  let res :=
    run (updateCounselorRequestStatus requestId status adminNotes) fs w in
  (forall e, res.2 = Normal (failed e) -> store res.1 = store w)
  /\ forall r,
       hd Healthy fs = Healthy ->
       with_id requestId w = [r] ->
       status <> Undefined ->
       exists r',
         res.2 = Normal (ok (Some (One r')))
         /\ r' !! "status" = Some status
         /\ forall i, table (store w) requests !! i = Some r ->
                      table (store res.1) requests !! i = Some r'.
Proof.
  intros res. split.
  - intros e. apply update_failed_store.
  - intros r Hf Hone Hst.
    destruct (update_applied requestId status adminNotes fs w r Hf Hone)
      as [Hres Hrow].
    eexists. split; [exact Hres|]. split; [|exact Hrow].
    apply lookup_union_Some_l, json_lookup_Some; [|done].
    apply update_data_status.
Qed.

(** An approved request is declined. *)
Lemma any_status_change_is_accepted_witness :
  let res := run (updateCounselorRequestStatus (Num 1) (Str "declined") Null)
                 [] approved_world in
  with_id (Num 1) approved_world = [approved_request]
  /\ exists r', res.2 = Normal (ok (Some (One r')))
                /\ r' !! "status" = Some (Str "declined").
Proof.
  intros res.
  assert (with_id (Num 1) approved_world = [approved_request]) as Hone
    by by_evaluation.
  split; [exact Hone|].
  destruct (any_status_change_is_accepted (Num 1) (Str "declined") Null []
              approved_world) as [_ H].
  destruct (H approved_request eq_refl Hone) as (r' & Hres & Hst & _);
    [discriminate|].
  exists r'. split; [exact Hres|exact Hst].
Defined.

(** C2 as stated fails: declining an approved request succeeds and the
    stored status changes; so does setting a status that is none of the
    three. *)
Lemma approved_request_can_be_declined :
  let declined := run (updateCounselorRequestStatus (Num 1) (Str "declined")
                         Null) [] approved_world in
  let odd := run (updateCounselorRequestStatus (Num 1) (Str "on hold") Null)
                 [] approved_world in
  stored approved_world 0 "status" = Some (Str "approved")
  /\ fmap_completion error declined.2 = Normal None
  /\ stored declined.1 0 "status" = Some (Str "declined")
  /\ fmap_completion error odd.2 = Normal None
  /\ stored odd.1 0 "status" = Some (Str "on hold").
Proof. by_evaluation. Qed.

Lemma all_hold_one (p : pred) (r : row) : all_hold [p] r = holds p r.
Proof. unfold all_hold. simpl. apply andb_true_r. Qed.

Lemma filter_map_commute (P : row -> bool) (f : row -> row) (l : list row) :
  (forall x, P (f x) = P x) ->
  List.filter P (map f l) = map f (List.filter P l).
Proof.
  intros H. induction l as [|x l IH]; simpl; [done|].
  rewrite H. destruct (P x); simpl; congruence.
Qed.

Lemma table_insert (d : db) (t : string) (l : list row) :
  table (<[t := l]> d) t = l.
Proof. unfold table. by rewrite lookup_insert_eq. Qed.

(** An update does not change the id of a row. *)
Lemma patch_keeps_id (requestId st notes : value) (t t' : Z) (r : row) :
  all_hold [Eq "id" requestId] (json (update_data st notes t t') ∪ r)
  = all_hold [Eq "id" requestId] r.
Proof.
  rewrite !all_hold_one. simpl. unfold eq_holds, column.
  rewrite lookup_union_r; [done|]. apply json_lookup_None, update_data_other.
  unfold written. intros H.
  repeat (apply elem_of_cons in H as [H|H]; [discriminate|]).
  by apply elem_of_nil in H.
Qed.

(** After an update that the store applied, the row with the id is the
    patched row, and it is still the only one with the id. *)
Lemma update_applied_table (requestId status adminNotes : value)
  (fs : list fault) (w : world) (r : row) :
  hd Healthy fs = Healthy ->
  with_id requestId w = [r] ->
  let patch := json (update_data status adminNotes (now w) (now (tick w))) in
  let w' := (run (updateCounselorRequestStatus requestId status adminNotes)
               fs w).1 in
  table (store w') requests
  = patch_rows [Eq "id" requestId] patch (table (store w) requests)
  /\ with_id requestId w' = [patch ∪ r]
  /\ now w' = now (if is_approved status then tick (tick w) else tick w).
Proof.
  intros Hf Hone patch w'. unfold w', with_id in *. rewrite run_update, Hf.
  unfold update_request. rewrite (respond_update_one _ _ _ _ r Hone).
  cbn [fst store with_store]. rewrite !table_insert.
  split; [done|]. split.
  - unfold patch_rows. rewrite filter_map_commute.
    + rewrite Hone. cbn [map].
      assert (all_hold [Eq "id" requestId] r = true) as ->; [|done].
      apply (proj1 (List.filter_In _ r (table (store w) requests))).
      rewrite Hone. by left.
    + intros x. destruct (all_hold [Eq "id" requestId] x) eqn:Hx; [|done].
      by rewrite patch_keeps_id.
  - by destruct (is_approved status).
Qed.

(** The clock after an update: one reading is taken, and one more when
    the status is ['approved']. *)
Lemma ticks_after_update (requestId status adminNotes : value)
  (fs : list fault) (w : world) :
  ticks (run (updateCounselorRequestStatus requestId status adminNotes)
           fs w).1
  = if is_approved status then tl (tl (ticks w)) else tl (ticks w).
Proof. rewrite run_update. cbn [fst]. by destruct (is_approved status). Qed.

(** On a clock that does not go back, a later reading is not before the
    first. *)
Lemma later_reading (l : list Z) (b : bool) :
  StronglySorted Z.le l ->
  (if b then tl (tl l) else tl l) <> [] ->
  hd 0 l <= hd 0 (if b then tl (tl l) else tl l).
Proof.
  intros Hl Hne. destruct l as [|x [|y l]]; [by destruct b..|].
  inversion Hl as [|? ? Hl' Hx]; subst.
  destruct b; simpl in *.
  - destruct l as [|z l]; [done|]. simpl.
    inversion Hx as [|? ? _ Hx']; subst. by inversion Hx'.
  - by inversion Hx.
Qed.

(** C6, amended: when the store applies the update, [updated_at] is set
    to the time read at the start of the call; [approved_at] is set to the
    time read next exactly when the new status is ['approved'], whatever
    the current status is (so approving an approved request again
    re-writes it), and keeps its value otherwise.  Over calls that are
    each awaited before the next is made, [updated_at] does not go back on
    a clock that does not: the next update of the request that the store
    applies writes a time that is not before this one. *)
Theorem update_sets_timestamps (requestId status adminNotes : value)
  (fs : list fault) (w : world) (r : row) :
  hd Healthy fs = Healthy ->
  with_id requestId w = [r] ->
  let res :=
    run (updateCounselorRequestStatus requestId status adminNotes) fs w in
  exists r',
    res.2 = Normal (ok (Some (One r')))
    /\ (forall i, table (store w) requests !! i = Some r ->
                  table (store res.1) requests !! i = Some r')
    /\ r' !! "updated_at" = Some (Str (toISOString (now w)))
    /\ (status = Str "approved" ->
        r' !! "approved_at" = Some (Str (toISOString (now (tick w)))))
    /\ (status <> Str "approved" ->
        r' !! "approved_at" = r !! "approved_at")
    /\ forall (status' adminNotes' : value) (fs' : list fault),
         hd Healthy fs' = Healthy ->
         StronglySorted Z.le (ticks w) ->
         ticks res.1 <> [] ->
         exists r'' t',
           (run (updateCounselorRequestStatus requestId status' adminNotes')
                fs' res.1).2 = Normal (ok (Some (One r'')))
           /\ r'' !! "updated_at" = Some (Str (toISOString t'))
           /\ now w <= t'.
Proof.
  intros Hf Hone res.
  destruct (update_applied requestId status adminNotes fs w r Hf Hone)
    as [Hres Hrow].
  destruct (update_applied_table requestId status adminNotes fs w r Hf Hone)
    as (_ & Hone' & _).
  assert (forall st notes t t' x,
            (json (update_data st notes t t') ∪ x) !! "updated_at"
            = Some (Str (toISOString t))) as Hup.
  { intros st notes t t' x.
    apply lookup_union_Some_l, json_lookup_Some; [|done].
    apply update_data_updated_at. }
  eexists. split; [exact Hres|]. split; [exact Hrow|]. split; [apply Hup|].
  split; [|split].
  - intros ->. apply lookup_union_Some_l, json_lookup_Some; [|done].
    apply update_data_approved_at.
  - intros Hst. apply lookup_union_r, json_lookup_None.
    by apply update_data_not_approved.
  - intros status' adminNotes' fs' Hf' Hclock Hleft. fold res in Hone'.
    destruct (update_applied requestId status' adminNotes' fs' res.1 _ Hf'
                Hone') as [Hres' _].
    eexists _, (now res.1). split; [exact Hres'|]. split; [apply Hup|].
    unfold now. unfold res in *. rewrite ticks_after_update in *.
    by apply later_reading.
Qed.

(** A pending request is approved at one minute past the epoch; and a
    request that is declined and then approved carries the time of the
    approval. *)
Lemma update_sets_timestamps_witness :
  let res := run (updateCounselorRequestStatus (Num 1) (Str "approved") Null)
                 [] pending_world in
  let declined :=
    (run (updateCounselorRequestStatus (Num 1) (Str "declined") Null)
         [] pending_world).1 in
  with_id (Num 1) pending_world = [pending_request]
  /\ (exists r', res.2 = Normal (ok (Some (One r')))
                 /\ r' !! "updated_at"
                    = Some (Str "1970-01-01T00:01:00.000Z")
                 /\ r' !! "approved_at"
                    = Some (Str "1970-01-01T00:01:00.001Z"))
  /\ StronglySorted Z.le (ticks pending_world)
  /\ ticks declined <> []
  /\ exists r'' t',
       (run (updateCounselorRequestStatus (Num 1) (Str "approved") Null)
            [] declined).2 = Normal (ok (Some (One r'')))
       /\ r'' !! "updated_at" = Some (Str (toISOString t'))
       /\ 60000 <= t'.
Proof.
  intros res declined.
  assert (with_id (Num 1) pending_world = [pending_request]) as Hone
    by by_evaluation.
  assert (StronglySorted Z.le (ticks pending_world)) as Hclock.
  { repeat constructor. discriminate. }
  assert (ticks declined <> []) as Hleft by discriminate.
  split; [exact Hone|]. split; [|split; [exact Hclock|split; [exact Hleft|]]].
  - destruct (update_sets_timestamps (Num 1) (Str "approved") Null []
                pending_world pending_request eq_refl Hone)
      as (r' & Hres & _ & Hup & Happ & _).
    exists r'. split; [exact Hres|]. split; [exact Hup|].
    exact (Happ eq_refl).
  - destruct (update_sets_timestamps (Num 1) (Str "declined") Null []
                pending_world pending_request eq_refl Hone)
      as (r' & _ & _ & _ & _ & _ & Hnext).
    exact (Hnext (Str "approved") Null [] eq_refl Hclock Hleft).
Defined.

(** C6 as stated fails: approving a request that is already approved
    writes [approved_at] again. *)
Lemma reapproval_rewrites_approved_at :
  let res := run (updateCounselorRequestStatus (Num 1) (Str "approved") Null)
                 [] approved_world in
  stored approved_world 0 "status" = Some (Str "approved")
  /\ stored approved_world 0 "approved_at"
     = Some (Str "1970-01-01T00:00:05.000Z")
  /\ fmap_completion error res.2 = Normal None
  /\ stored res.1 0 "approved_at" = Some (Str "1970-01-01T00:01:00.001Z").
Proof. by_evaluation. Qed.

(** Two updates of the same request that overlap: both read the clock
    before either is answered, the second is answered first, and
    [updated_at] ends at the earlier reading after having held the later
    one, on a clock that does not go back. *)
Lemma overlapping_updates_go_back :
  let w := World Cache.empty {[ requests := [pending_request] ]} []
             [1000; 2000] in
  let s := schedule
             [Call (updateCounselorRequestStatus (Num 1) (Str "declined")
                      Null);
              Call (updateCounselorRequestStatus (Num 1) (Str "on hold")
                      Null);
              Answer 1 Healthy] (Pool w [] []) in
  stored (env s) 0 "updated_at" = Some (Str (toISOString 2000))
  /\ stored (env (step s (Answer 0 Healthy))) 0 "updated_at"
     = Some (Str (toISOString 1000))
  /\ map is_finished (tasks (step s (Answer 0 Healthy))) = [true; true].
Proof. by_evaluation. Qed.

(* ===================================================================== *)
(** ** Creating a counselor request *)
(* ===================================================================== *)

(** One call: the row is appended as given, or the error returned. *)
Lemma run_createCounselorRequest (requestData : row) (fs : list fault)
  (w : world) :
  run (createCounselorRequest requestData) fs w =
  match hd Healthy fs with
  | Healthy =>
      (World (svc w)
             (<[requests := table (store w) requests ++ [json requestData]]>
                (store w))
             (sent w ++ [Insert requests [requestData]]) (ticks w),
       Normal (ok (Some (Rows [json requestData]))))
  | Refused e | Broken e =>
      (log (Insert requests [requestData]) w, Normal (failed e))
  end.
Proof.
  unfold createCounselorRequest. rewrite run_fetch.
  by destruct (hd Healthy fs) as [|e|e].
Qed.

(** Two one-request methods called together, then answered in the order
    of the calls. *)
Lemma two_fetches_together (rq1 rq2 : request) (f1 f2 : fault) (w : world) :
  let s := schedule [Call (fetch rq1); Call (fetch rq2);
                     Answer 0 f1; Answer 1 f2] (Pool w [] []) in
  let a1 := respond f1 rq1 (store w) in
  let a2 := respond f2 rq2 a1.1 in
  store (env s) = a2.1
  /\ tasks s = [Finished (Normal (envelope_of a1.2));
                Finished (Normal (envelope_of a2.2))].
Proof.
  unfold fetch. cbn -[respond].
  destruct (respond f1 rq1 (store w)) as [d1 [[dt1 [e1|]]|e1]];
    cbn -[respond];
    destruct (respond f2 rq2 d1) as [d2 [[dt2 [e2|]]|e2]]; done.
Qed.

(** Two calls made together, both answered: both rows are stored. *)
Lemma concurrent_creates_both_insert (rd1 rd2 : row) (w : world) :
  let s := schedule [Call (createCounselorRequest rd1);
                     Call (createCounselorRequest rd2);
                     Answer 0 Healthy; Answer 1 Healthy] (Pool w [] []) in
  table (store (env s)) requests
  = table (store w) requests ++ [json rd1; json rd2]
  /\ tasks s = [Finished (Normal (ok (Some (Rows [json rd1]))));
                Finished (Normal (ok (Some (Rows [json rd2]))))].
Proof.
  unfold createCounselorRequest. cbv zeta.
  pose proof (two_fetches_together (Insert requests [rd1])
                (Insert requests [rd2]) Healthy Healthy w) as H.
  cbv zeta in H. unfold requests in *.
  destruct H as [Hst Hts]. rewrite Hst, Hts. split; [|done].
  cbn [respond exec fst snd map].
  unfold table at 1. rewrite lookup_insert_eq. cbn [default from_option id].
  unfold table at 1. rewrite lookup_insert_eq. cbn [default from_option id].
  by rewrite <- app_assoc.
Qed.

(** C1, amended: [createCounselorRequest] makes no check of its own.  It
    sends the given object as a one-row insert; when the store accepts it,
    the request table gains exactly that one row, whatever rows it already
    holds, and the row is returned; when the store refuses or the call
    fails, nothing is inserted and the error is returned.  [status] and
    [requested_at] are whatever the given object carries.  Two calls made
    together and both accepted store both rows and both return theirs. *)
Theorem createCounselorRequest_inserts_as_given (requestData other : row)
  (fs : list fault) (w : world) :
  run (createCounselorRequest requestData) fs w
  = match hd Healthy fs with
    | Healthy =>
        (World (svc w)
               (<[requests := table (store w) requests ++ [json requestData]]>
                  (store w))
               (sent w ++ [Insert requests [requestData]]) (ticks w),
         Normal (ok (Some (Rows [json requestData]))))
    | Refused e | Broken e =>
        (log (Insert requests [requestData]) w, Normal (failed e))
    end
  /\ let s := schedule [Call (createCounselorRequest requestData);
                        Call (createCounselorRequest other);
                        Answer 0 Healthy; Answer 1 Healthy] (Pool w [] []) in
     table (store (env s)) requests
     = table (store w) requests ++ [json requestData; json other]
     /\ tasks s = [Finished (Normal (ok (Some (Rows [json requestData]))));
                   Finished (Normal (ok (Some (Rows [json other]))))].
Proof.
  split.
  - apply run_createCounselorRequest.
  - apply concurrent_creates_both_insert.
Qed.

(** The table already holds the student's pending request. *)
Lemma second_request_example :
  let rd : row := {[ "student_id" := Num 7; "requested_counselor_id" := Num 4;
                     "status" := Str "requested" ]} in
  let res := run (createCounselorRequest rd) [] pending_world in
  table (store res.1) requests = [pending_request; rd]
  /\ res.2 = Normal (ok (Some (Rows [rd]))).
Proof. by_evaluation. Qed.

(** C1 as stated fails: a student who has a pending request gets a second
    one, with no error; and two calls made together for a student with no
    request store two pending requests. *)
Lemma duplicate_request_is_inserted :
  let rd : row := {[ "student_id" := Num 7; "requested_counselor_id" := Num 4;
                     "status" := Str "requested" ]} in
  let res := run (createCounselorRequest rd) [] pending_world in
  let both := answered [] [0; 1]%nat
                (made_together (createCounselorRequest rd) 2 fresh_world) in
  (stored pending_world 0 "student_id" = Some (Num 7)
   /\ stored pending_world 0 "status" = Some (Str "requested"))
  /\ fmap_completion error res.2 = Normal None
  /\ (stored res.1 1 "student_id" = Some (Num 7)
      /\ stored res.1 1 "status" = Some (Str "requested"))
  /\ (table (store (env both)) requests = [rd; rd]
      /\ tasks both = [Finished (Normal (ok (Some (Rows [rd]))));
                       Finished (Normal (ok (Some (Rows [rd]))))]).
Proof. by_evaluation. Qed.

(* ===================================================================== *)
(** ** Search filters *)
(* ===================================================================== *)

Lemma run_searchUniversities (searchTerm : value) (filters : filters_arg)
  (fs : list fault) (w : world) :
  filters <> NullFilters ->
  run (searchUniversities searchTerm filters) fs w =
  let rq := Select "new_universities"
              (universities_where searchTerm (field filters "country_id")
                                  (field filters "university_type"))
              (ascending "university_name") false in
  (with_store (respond (hd Healthy fs) rq (store w)).1 (log rq w),
   Normal (envelope_of (respond (hd Healthy fs) rq (store w)).2)).
Proof.
  intros Hf. unfold searchUniversities, universities_where.
  rewrite (run_try_catch failed).
  destruct filters as [| |o]; [|done|]; cbn -[lookup respond].
  - destruct (truthy searchTerm); cbn -[respond];
      destruct (respond _ _ _) as [d [[dt [e|]]|e]]; done.
  - destruct (truthy searchTerm), (truthy (default Undefined (o !! "country_id"))),
      (truthy (default Undefined (o !! "university_type")));
      cbn -[lookup respond];
      destruct (respond _ _ _) as [d [[dt [e|]]|e]]; done.
Qed.

Lemma run_searchCourses (searchTerm : value) (filters : filters_arg)
  (fs : list fault) (w : world) :
  filters <> NullFilters ->
  run (searchCourses searchTerm filters) fs w =
  let rq := Select "new_courses"
              (courses_where searchTerm (field filters "university_id")
                             (field filters "degree_level"))
              (ascending "program_name") false in
  (with_store (respond (hd Healthy fs) rq (store w)).1 (log rq w),
   Normal (envelope_of (respond (hd Healthy fs) rq (store w)).2)).
Proof.
  intros Hf. unfold searchCourses, courses_where.
  rewrite (run_try_catch failed).
  destruct filters as [| |o]; [|done|]; cbn -[lookup respond].
  - destruct (truthy searchTerm); cbn -[respond];
      destruct (respond _ _ _) as [d [[dt [e|]]|e]]; done.
  - destruct (truthy searchTerm), (truthy (default Undefined (o !! "university_id"))),
      (truthy (default Undefined (o !! "degree_level")));
      cbn -[lookup respond];
      destruct (respond _ _ _) as [d [[dt [e|]]|e]]; done.
Qed.

(** *** Reading the [or] string *)

Lemma append_assoc (x y z : string) : (x +:+ y) +:+ z = x +:+ y +:+ z.
Proof.
  induction x as [|c x IH]; [done|].
  change (String c ((x +:+ y) +:+ z) = String c (x +:+ y +:+ z)).
  by rewrite IH.
Qed.

Lemma every_char_app (f : ascii -> bool) (a b : string) :
  every_char f (a +:+ b) = every_char f a && every_char f b.
Proof.
  induction a as [|c a IH]; [done|].
  change (every_char f (String c (a +:+ b))
          = every_char f (String c a) && every_char f b).
  simpl. by rewrite IH, andb_assoc.
Qed.

Lemma every_char_weaken (f g : ascii -> bool) (s : string) :
  (forall c, f c = true -> g c = true) ->
  every_char f s = true -> every_char g s = true.
Proof.
  intros Hfg. induction s as [|c s IH]; simpl; [done|].
  rewrite !andb_true_iff. intros [Hc Hs]. auto.
Qed.

Lemma split_at_plain (c : ascii) (a : string) :
  every_char (fun d => negb (d =? c)%char) a = true ->
  split_at c a = [a].
Proof.
  induction a as [|d a IH]; simpl; [done|].
  rewrite andb_true_iff, negb_true_iff. intros [-> Ha]. by rewrite IH.
Qed.

Lemma split_at_app (c : ascii) (a b : string) :
  every_char (fun d => negb (d =? c)%char) a = true ->
  split_at c (a +:+ String c b) = a :: split_at c b.
Proof.
  induction a as [|d a IH]; intros Ha.
  - change (split_at c (String c b) = "" :: split_at c b).
    simpl. by rewrite Ascii.eqb_refl.
  - change (split_at c (String d (a +:+ String c b))
            = String d a :: split_at c b).
    simpl in *. apply andb_true_iff in Ha as [Hd Ha].
    apply negb_true_iff in Hd. by rewrite Hd, IH.
Qed.

Lemma cut_at_app (c : ascii) (a b : string) :
  every_char (fun d => negb (d =? c)%char) a = true ->
  cut_at c (a +:+ String c b) = Some (a, b).
Proof.
  induction a as [|d a IH]; intros Ha.
  - change (cut_at c (String c b) = Some ("", b)).
    simpl. by rewrite Ascii.eqb_refl.
  - change (cut_at c (String d (a +:+ String c b)) = Some (String d a, b)).
    simpl in *. apply andb_true_iff in Ha as [Hd Ha].
    apply negb_true_iff in Hd. by rewrite Hd, IH.
Qed.

(** A condition on a column, with a pattern that holds no closing
    parenthesis, is read as it was written. *)
Lemma condition_ilike (col pat : string) :
  is_name col = true ->
  every_char (fun c => negb (c =? ")")%char) pat = true ->
  condition (col +:+ ".ilike." +:+ pat) = Some (col, pat).
Proof.
  intros Hcol Hpat. unfold condition.
  change (col +:+ ".ilike." +:+ pat)
    with (col +:+ String "." ("ilike" +:+ String "." pat)).
  rewrite cut_at_app.
  - rewrite cut_at_app by reflexivity. by rewrite Hcol, Hpat.
  - unfold is_name in Hcol. apply andb_true_iff in Hcol as [_ Hcol].
    revert Hcol. apply every_char_weaken. intros c Hc.
    destruct (Ascii.eqb_spec c ".") as [->|]; [discriminate Hc|done].
Qed.

Lemma plain_contains (searchTerm : value) :
  plain searchTerm = true ->
  every_char (fun c => negb (c =? ",")%char) (contains searchTerm) = true
  /\ every_char (fun c => negb (c =? ")")%char) (contains searchTerm) = true.
Proof.
  unfold plain, contains. intros H.
  rewrite !every_char_app. simpl. rewrite !andb_true_r.
  split; revert H; apply every_char_weaken; intros c;
    rewrite negb_orb, andb_true_iff; tauto.
Qed.

(** For a plain search term the store reads the three conditions the
    method means. *)
Lemma conditions_plain (searchTerm : value) :
  plain searchTerm = true ->
  conditions (name_city_or_state searchTerm)
  = Some [("university_name", contains searchTerm);
          ("city", contains searchTerm);
          ("state_province", contains searchTerm)].
Proof.
  intros Hp. destruct (plain_contains searchTerm Hp) as [Hcomma Hparen].
  assert (forall col, every_char (fun c => negb (c =? ",")%char) col = true ->
            every_char (fun c => negb (c =? ",")%char)
              (col +:+ ".ilike." +:+ contains searchTerm) = true) as Hpiece.
  { intros col Hcol. rewrite !every_char_app, Hcol, Hcomma. reflexivity. }
  unfold conditions.
  assert (name_city_or_state searchTerm
          = ("university_name" +:+ ".ilike." +:+ contains searchTerm)
            +:+ String ","
                (("city" +:+ ".ilike." +:+ contains searchTerm)
                 +:+ String ","
                     ("state_province" +:+ ".ilike." +:+ contains searchTerm)))
    as ->.
  { unfold name_city_or_state, contains.
    rewrite !append_assoc. reflexivity. }
  rewrite split_at_app by (by apply Hpiece).
  rewrite split_at_app by (by apply Hpiece).
  rewrite split_at_plain by (by apply Hpiece).
  cbn [map]. rewrite !condition_ilike by done. reflexivity.
Qed.

(** The chain of filters is the conjunction of its conditions. *)
Lemma all_hold_universities (searchTerm country_id university_type : value)
  (r : row) :
  plain searchTerm = true ->
  all_hold (universities_where searchTerm country_id university_type) r
  = university_matches searchTerm country_id university_type r.
Proof.
  intros Hp. unfold universities_where, university_matches, all_hold.
  destruct (truthy searchTerm), (truthy country_id), (truthy university_type);
    cbn [app forallb holds]; rewrite ?(conditions_plain _ Hp);
    cbn [existsb fst snd];
    rewrite ?orb_false_r, ?andb_true_r, ?orb_assoc, ?andb_assoc; done.
Qed.

Lemma readable_universities (searchTerm country_id university_type : value) :
  plain searchTerm = true ->
  forallb readable (universities_where searchTerm country_id university_type)
  = true.
Proof.
  intros Hp. unfold universities_where.
  destruct (truthy searchTerm), (truthy country_id), (truthy university_type);
    cbn [app forallb readable]; rewrite ?(conditions_plain _ Hp); done.
Qed.

Lemma readable_courses (searchTerm university_id degree_level : value) :
  forallb readable (courses_where searchTerm university_id degree_level)
  = true.
Proof.
  unfold courses_where.
  by destruct (truthy searchTerm), (truthy university_id),
    (truthy degree_level).
Qed.

Lemma all_hold_courses (searchTerm university_id degree_level : value)
  (r : row) :
  all_hold (courses_where searchTerm university_id degree_level) r
  = course_matches searchTerm university_id degree_level r.
Proof.
  unfold courses_where, course_matches, all_hold.
  destruct (truthy searchTerm), (truthy university_id), (truthy degree_level);
    simpl; rewrite ?andb_true_r, ?andb_assoc; done.
Qed.

(** Ordering returns the rows it is given. *)
Lemma insert_sorted_perm (le : row -> row -> bool) (x : row) (l : list row) :
  insert_sorted le x l ≡ₚ x :: l.
Proof.
  induction l as [|y l IH]; simpl; [done|].
  destruct (le x y); [done|]. rewrite IH. apply Permutation_swap.
Qed.

Lemma sort_rows_perm (le : row -> row -> bool) (l : list row) :
  sort_rows le l ≡ₚ l.
Proof.
  induction l as [|x l IH]; simpl; [done|].
  by rewrite insert_sorted_perm, IH.
Qed.

Lemma order_by_perm (ord : option (string * bool)) (l : list row) :
  order_by ord l ≡ₚ l.
Proof. destruct ord as [[c asc]|]; [apply sort_rows_perm|done]. Qed.

Lemma universities_found_iff (searchTerm : value) (filters : filters_arg)
  (w : world) (r : row) :
  In r (universities_found searchTerm filters w)
  <-> In r (table (store w) "new_universities")
      /\ university_matches searchTerm (field filters "country_id")
                            (field filters "university_type") r = true.
Proof.
  unfold universities_found. rewrite <- List.filter_In.
  split; apply Permutation_in; [|symmetry]; apply order_by_perm.
Qed.

Lemma courses_found_iff (searchTerm : value) (filters : filters_arg)
  (w : world) (r : row) :
  In r (courses_found searchTerm filters w)
  <-> In r (table (store w) "new_courses")
      /\ course_matches searchTerm (field filters "university_id")
                        (field filters "degree_level") r = true.
Proof.
  unfold courses_found. rewrite <- List.filter_In.
  split; apply Permutation_in; [|symmetry]; apply order_by_perm.
Qed.

Lemma searchUniversities_found (searchTerm : value) (filters : filters_arg)
  (fs : list fault) (w : world) :
  filters <> NullFilters -> hd Healthy fs = Healthy ->
  plain searchTerm = true ->
  (run (searchUniversities searchTerm filters) fs w).2
  = Normal (ok (Some (Rows (universities_found searchTerm filters w)))).
Proof.
  intros Hf Hh Hp. rewrite run_searchUniversities, Hh by done.
  cbn [snd respond exec]. rewrite readable_universities by done.
  cbn [snd envelope_of error data]. unfold ok. do 4 f_equal.
  unfold select_rows, universities_found. f_equal.
  apply List.filter_ext. intros r. by apply all_hold_universities.
Qed.

Lemma searchCourses_found (searchTerm : value) (filters : filters_arg)
  (fs : list fault) (w : world) :
  filters <> NullFilters -> hd Healthy fs = Healthy ->
  (run (searchCourses searchTerm filters) fs w).2
  = Normal (ok (Some (Rows (courses_found searchTerm filters w)))).
Proof.
  intros Hf Hh. rewrite run_searchCourses, Hh by done.
  cbn [snd respond exec]. rewrite readable_courses.
  cbn [snd envelope_of error data]. unfold ok. do 4 f_equal.
  unfold select_rows, courses_found. f_equal.
  apply List.filter_ext. intros r. apply all_hold_courses.
Qed.

(** A filter whose value is falsy is as good as left out. *)
Lemma falsy_filter_universities (searchTerm : value) (o : row) (k : string)
  (v : value) :
  truthy v = false ->
  searchUniversities searchTerm (Filters (<[k := v]> o))
  = searchUniversities searchTerm (Filters (delete k o)).
Proof.
  intros Hv. unfold searchUniversities, prop. cbn -[lookup insert delete].
  destruct (decide (k = "country_id")) as [->|H1];
    [|destruct (decide (k = "university_type")) as [->|H2]];
    rewrite ?lookup_insert_eq, ?lookup_delete_eq,
      ?lookup_insert_ne, ?lookup_delete_ne by done;
    cbn [default from_option id]; rewrite ?Hv; done.
Qed.

Lemma falsy_filter_courses (searchTerm : value) (o : row) (k : string)
  (v : value) :
  truthy v = false ->
  searchCourses searchTerm (Filters (<[k := v]> o))
  = searchCourses searchTerm (Filters (delete k o)).
Proof.
  intros Hv. unfold searchCourses, prop. cbn -[lookup insert delete].
  destruct (decide (k = "university_id")) as [->|H1];
    [|destruct (decide (k = "degree_level")) as [->|H2]];
    rewrite ?lookup_insert_eq, ?lookup_delete_eq,
      ?lookup_insert_ne, ?lookup_delete_ne by done;
    cbn [default from_option id]; rewrite ?Hv; done.
Qed.

(** What [.eq] compares: the text of the column with the text of the
    value; a NULL column equals nothing. *)
Lemma eq_holds_spec (r : row) (c : string) (v : value) :
  eq_holds r c v = true
  <-> is_null (column r c) = false
      /\ to_string (column r c) = to_string v.
Proof.
  unfold eq_holds. rewrite andb_true_iff, negb_true_iff.
  by rewrite String.eqb_eq.
Qed.

(** C7, amended: when the store answers, a search returns, in the order of
    its natural field, exactly the rows of its table that satisfy the
    search term's condition and one condition per filter whose value is
    truthy, all of them together.  The condition of [country_id],
    [university_id] and [degree_level] is equality with the value; the
    condition of [university_type] is that the column contains the value,
    case-insensitively.  A filter whose value is falsy (absent, [null],
    empty, [0], [false]) constrains nothing: the search is the same as with
    the filter left out.  For the universities this is so for a search
    term that holds neither a comma nor a closing parenthesis: the term is
    written as it is into the string of [.or], where a comma ends a
    condition. *)
Theorem search_filters (searchTerm : value) :
  (forall filters fs w,
     filters <> NullFilters -> hd Healthy fs = Healthy ->
     (plain searchTerm = true ->
      (run (searchUniversities searchTerm filters) fs w).2
      = Normal (ok (Some (Rows (universities_found searchTerm filters w)))))
     /\ (run (searchCourses searchTerm filters) fs w).2
        = Normal (ok (Some (Rows (courses_found searchTerm filters w)))))
  /\ (forall filters w r,
        (In r (universities_found searchTerm filters w)
         <-> In r (table (store w) "new_universities")
             /\ university_matches searchTerm (field filters "country_id")
                  (field filters "university_type") r = true)
        /\ (In r (courses_found searchTerm filters w)
            <-> In r (table (store w) "new_courses")
                /\ course_matches searchTerm (field filters "university_id")
                     (field filters "degree_level") r = true))
  /\ (forall o k v,
        truthy v = false ->
        searchUniversities searchTerm (Filters (<[k := v]> o))
        = searchUniversities searchTerm (Filters (delete k o))
        /\ searchCourses searchTerm (Filters (<[k := v]> o))
           = searchCourses searchTerm (Filters (delete k o)))
  /\ (searchUniversities searchTerm (Filters ∅)
      = searchUniversities searchTerm NoFilters
      /\ searchCourses searchTerm (Filters ∅)
         = searchCourses searchTerm NoFilters).
Proof.
  split; [|split; [|split]].
  - intros filters fs w Hf Hh. split.
    + intros Hp. by apply searchUniversities_found.
    + by apply searchCourses_found.
  - intros filters w r. split.
    + apply universities_found_iff.
    + apply courses_found_iff.
  - intros o k v Hv. split.
    + by apply falsy_filter_universities.
    + by apply falsy_filter_courses.
  - done.
Qed.

(** A search for [ast] with a country filter and an empty type filter:
    of the two universities of the country, the one whose name holds the
    term. *)
Lemma search_filters_witness :
  let filters :=
    Filters {[ "country_id" := Num 44; "university_type" := Str "" ]} in
  (filters <> NullFilters /\ hd Healthy [] = Healthy
   /\ plain (Str "ast") = true)
  /\ (run (searchUniversities (Str "ast") filters) [] two_universities).2
     = Normal (ok (Some (Rows [aston]))).
Proof.
  intros filters. split; [by repeat split|].
  destruct (search_filters (Str "ast")) as [H _].
  destruct (H filters [] two_universities) as [-> _]; [done..|].
  by_evaluation.
Defined.

(** A search term with a comma is not searched for.  The term of the
    first example ends the first condition and begins one that every
    named university satisfies: both universities are returned, and
    neither holds [zzz].  The term of the second example leaves a piece
    that is no condition: the store answers with an error. *)
Lemma comma_in_the_search_term :
  (run (searchUniversities (Str "zzz%,university_name.ilike.%") NoFilters)
       [] two_universities).2
  = Normal (ok (Some (Rows [aston; buckingham])))
  /\ university_matches (Str "zzz%,university_name.ilike.%") Undefined
       Undefined aston = false
  /\ (run (searchUniversities (Str "Aston, Birmingham") NoFilters)
         [] two_universities).2
     = Normal (failed (QueryRejected "failed to parse filter")).
Proof. by_evaluation. Qed.

(** C7 as stated fails: the [university_type] filter is not an equality.
    Asked for the type [pub], the search returns the university whose type
    is [Public]. *)
Lemma university_type_is_not_an_equality :
  let filters := Filters {[ "university_type" := Str "pub" ]} in
  (run (searchUniversities Undefined filters) [] two_universities).2
  = Normal (ok (Some (Rows [aston])))
  /\ column aston "university_type" = Str "Public"
  /\ eq_holds aston "university_type" (Str "pub") = false.
Proof. by_evaluation. Qed.

(* ===================================================================== *)
(** ** Lists and single rows *)
(* ===================================================================== *)

Lemma value_leb_total (a b : value) :
  value_leb a b = false -> value_leb b a = true.
Proof.
  destruct a as [| |x|x|x], b as [| |y|y|y]; simpl; try done.
  - by destruct x, y.
  - intros H. apply Z.leb_le. apply Z.leb_gt in H. lia.
  - intros H. by destruct (String.leb_total x y) as [H'|H']; [congruence|].
Qed.

Lemma row_leb_total (c : string) (asc : bool) (a b : row) :
  row_leb c asc a b = false -> row_leb c asc b a = true.
Proof. destruct asc; apply value_leb_total. Qed.

Lemma insert_sorted_in_order (c : string) (asc : bool) (x : row)
  (l : list row) :
  in_order c asc l -> in_order c asc (insert_sorted (row_leb c asc) x l).
Proof.
  unfold in_order. induction 1 as [|y l Hl IH Hy]; simpl.
  - by repeat constructor.
  - destruct (row_leb c asc x y) eqn:Hxy.
    + by repeat constructor.
    + constructor; [done|].
      apply row_leb_total in Hxy.
      destruct l as [|z l]; simpl in *.
      * by constructor.
      * destruct (row_leb c asc x z); constructor; [done|].
        by inversion Hy.
Qed.

Lemma order_by_in_order (c : string) (asc : bool) (l : list row) :
  in_order c asc (order_by (Some (c, asc)) l).
Proof.
  simpl. induction l as [|x l IH]; simpl.
  - constructor.
  - by apply insert_sorted_in_order.
Qed.

(** A list method made of one ordered select. *)
Lemma fetch_lists_rows (t : string) (wh : list pred) (keep : row -> bool)
  (c : string) (asc : bool) :
  forallb readable wh = true ->
  (forall r, all_hold wh r = keep r) ->
  lists_rows (fetch (Select t wh (Some (c, asc)) false)) t wh keep c asc.
Proof.
  intros Hwh Hkeep fs w Hh. rewrite run_fetch, Hh.
  exists (select_rows (store w) t wh (Some (c, asc))).
  split; [cbn [respond exec]; by rewrite Hwh|]. split.
  - unfold select_rows. rewrite order_by_perm.
    by rewrite (List.filter_ext _ _ Hkeep).
  - apply order_by_in_order.
Qed.

(** A by-key method made of one select of a single row. *)
Lemma fetch_finds_single (t c : string) :
  finds_single (fun v => fetch (Select t [Eq c v] None true)) t c.
Proof.
  intros v fs w Hh. rewrite run_fetch, Hh. split; [done|].
  cbn [snd respond exec]. unfold select_rows, order_by.
  rewrite (List.filter_ext _ (fun r => eq_holds r c v))
    by (intros r; apply all_hold_one).
  by destruct (List.filter _ _) as [|r [|r' l]].
Qed.

Lemma filter_true (l : list row) : List.filter (fun _ => true) l = l.
Proof. induction l as [|r l IH]; simpl; congruence. Qed.

Lemma fetch_lists_table (t c : string) (asc : bool) :
  lists_table (fetch (Select t [] (Some (c, asc)) false)) t c asc.
Proof.
  intros fs w Hh.
  destruct (fetch_lists_rows t [] (fun _ => true) c asc eq_refl
              (fun _ => eq_refl) fs w Hh) as (rows & Hrun & Hperm & Hord).
  exists rows. by rewrite filter_true in Hperm.
Qed.

(** The four lookups by key: the row with that key when the table holds
    exactly one, otherwise no data and the error of a request for a single
    row, which says how many rows were found (none, for a key that does
    not exist).  One request is sent; cache and store stay as they are. *)
Theorem lookups_by_key :
  finds_single getCountryById "n_countries" "country_id"
  /\ finds_single getUniversityById "new_universities" "id"
  /\ finds_single getCourseById "new_courses" "id"
  /\ finds_single getCounselorById "counselors" "id".
Proof. split; [|split; [|split]]; apply fetch_finds_single. Qed.

(** A country that exists and a counselor that does not. *)
Lemma lookups_by_key_witness :
  hd Healthy [] = Healthy
  /\ (run (getCountryById (Num 33)) [] small_world).2
     = Normal (ok (Some (One france)))
  /\ (run (getCounselorById (Num 9)) [] small_world).2
     = Normal (failed (NotSingular 0)).
Proof.
  split; [reflexivity|].
  destruct lookups_by_key as (Hcountry & _ & _ & Hcounselor). split.
  - destruct (Hcountry (Num 33) [] small_world eq_refl) as [_ ->].
    by_evaluation.
  - destruct (Hcounselor (Num 9) [] small_world eq_refl) as [_ ->].
    by_evaluation.
Defined.

(** The lists of a whole table: when the store answers, all the rows of
    the table, each as often as the table holds it, ordered by the natural
    field of the list (requests newest first); one request is sent. *)
Theorem whole_table_lists :
  lists_table getAllUniversities "new_universities" "university_name" true
  /\ lists_table getAllCourses "new_courses" "program_name" true
  /\ lists_table getAllCounselorRequests "counselor_requests" "requested_at"
       false.
Proof. split; [|split]; apply fetch_lists_table. Qed.

(** The two universities of the example, stored in the other order. *)
Lemma whole_table_lists_witness :
  hd Healthy [] = Healthy
  /\ exists rows,
       (run getAllUniversities [] small_world).2
       = Normal (ok (Some (Rows rows)))
       /\ rows ≡ₚ [buckingham; aston]
       /\ in_order "university_name" true rows.
Proof.
  split; [reflexivity|].
  destruct whole_table_lists as (H & _).
  destruct (H [] small_world eq_refl) as (rows & Hrun & Hperm & Hord).
  exists rows. split; [|split].
  - rewrite Hrun. reflexivity.
  - exact Hperm.
  - exact Hord.
Defined.

(** The lists by key: when the store answers, exactly the rows of the
    table whose key column has the text of the given value (a row whose
    key is NULL is never among them), in the order of the list. *)
Theorem keyed_lists (v : value) :
  lists_rows (getUniversitiesByCountry v) "new_universities"
    [Eq "country_id" v] (fun r => eq_holds r "country_id" v)
    "university_name" true
  /\ lists_rows (getCoursesByUniversity v) "new_courses"
       [Eq "university_id" v] (fun r => eq_holds r "university_id" v)
       "program_name" true
  /\ lists_rows (getCounselorRequestByStudent v) "counselor_requests"
       [Eq "student_id" v] (fun r => eq_holds r "student_id" v)
       "created_at" false
  /\ lists_rows (getCounselorRequestsByCounselor v) "counselor_requests"
       [Eq "requested_counselor_id" v]
       (fun r => eq_holds r "requested_counselor_id" v) "created_at" false
  /\ lists_rows (getCounselorRequestsByStatus v) "counselor_requests"
       [Eq "status" v] (fun r => eq_holds r "status" v) "requested_at" false.
Proof.
  split; [|split; [|split; [|split]]];
    (apply fetch_lists_rows; [done|]); intros r; apply all_hold_one.
Qed.

(** The universities of country 44, asked for with the key as a string. *)
Lemma keyed_lists_witness :
  hd Healthy [] = Healthy
  /\ exists rows,
       (run (getUniversitiesByCountry (Str "44")) [] small_world).2
       = Normal (ok (Some (Rows rows)))
       /\ rows ≡ₚ [buckingham; aston].
Proof.
  split; [reflexivity|].
  destruct (keyed_lists (Str "44")) as (H & _).
  destruct (H [] small_world eq_refl) as (rows & Hrun & Hperm & _).
  exists rows. split.
  - rewrite Hrun. reflexivity.
  - exact Hperm.
Defined.

(** [getAllCounselors] lists the counselors that are available and no
    other, by display name; [getCounselorStudents] lists the requests that
    are approved and whose [counselor_id] is the given counselor, and no
    other, latest approval first. *)
Theorem fixed_filter_lists (counselorId : value) :
  lists_rows getAllCounselors "counselors" [Eq "is_available" (Bool true)]
    (fun r => eq_holds r "is_available" (Bool true)) "display_name" true
  /\ lists_rows (getCounselorStudents counselorId) "counselor_requests"
       [Eq "counselor_id" counselorId; Eq "status" (Str "approved")]
       (fun r => eq_holds r "counselor_id" counselorId
                 && eq_holds r "status" (Str "approved"))
       "approved_at" false.
Proof.
  split; (apply fetch_lists_rows; [done|]); intros r.
  - apply all_hold_one.
  - unfold all_hold. simpl. by rewrite andb_true_r.
Qed.

(** Of three counselors, the two available ones. *)
Lemma fixed_filter_lists_witness :
  hd Healthy [] = Healthy
  /\ exists rows,
       (run getAllCounselors [] small_world).2
       = Normal (ok (Some (Rows rows)))
       /\ rows ≡ₚ [cleo; ada]
       /\ in_order "display_name" true rows.
Proof.
  split; [reflexivity|].
  destruct (fixed_filter_lists Null) as (H & _).
  destruct (H [] small_world eq_refl) as (rows & Hrun & Hperm & Hord).
  exists rows. split; [|split].
  - rewrite Hrun. reflexivity.
  - exact Hperm.
  - exact Hord.
Defined.

(* ===================================================================== *)
(** ** The world after [getStatistics] *)
(* ===================================================================== *)

Lemma advance_getAllCountries_fill :
  exists k,
    (forall w, Cache.countries (svc w) = None ->
       advance getAllCountries w
       = (log countries_query w, Waiting countries_query k))
    /\ forall r w',
         advance (k r) w'
         = (World (fill Cache.set_countries r (svc w')) (store w') (sent w')
                  (ticks w'),
            Finished (Normal (envelope_of r))).
Proof.
  eexists. split.
  - intros w H. unfold getAllCountries. cbn. rewrite H. cbn. reflexivity.
  - by intros [[dt [e|]]|e] [c d l ts].
Qed.

Lemma advance_getAllPathways_fill :
  exists k,
    (forall w, Cache.pathways (svc w) = None ->
       advance getAllPathways w
       = (log pathways_query w, Waiting pathways_query k))
    /\ forall r w',
         advance (k r) w'
         = (World (fill Cache.set_pathways r (svc w')) (store w') (sent w')
                  (ticks w'),
            Finished (Normal (envelope_of r))).
Proof.
  eexists. split.
  - intros w H. unfold getAllPathways. cbn. rewrite H. cbn. reflexivity.
  - by intros [[dt [e|]]|e] [c d l ts].
Qed.

Lemma advance_fetch_plain (rq : request) :
  exists k,
    (forall w, advance (fetch rq) w = (log rq w, Waiting rq k))
    /\ forall r w',
         advance (k r) w'
         = (World (svc w') (store w') (sent w') (ticks w'),
            Finished (Normal (envelope_of r))).
Proof.
  eexists. split.
  - intros w. unfold fetch. cbn. reflexivity.
  - by intros [[dt [e|]]|e] [c d l ts].
Qed.

(** What a slot holds after its list was filled with the answer [r]. *)
Lemma data_envelope_of_fill (r : response) :
  data (envelope_of r)
  = match r with Resolved (Reply dt None) => dt | _ => None end.
Proof. by destruct r as [[dt [e|]]|e]. Qed.

Section StatsPool.

Variables (w : world) (fs : list fault).
Variables k0 k1 k2 k3 : response -> prog reply.

Hypothesis k0_fill :
  forall r w',
    advance (k0 r) w'
    = (World (fill Cache.set_countries r (svc w')) (store w') (sent w')
             (ticks w'),
       Finished (Normal (envelope_of r))).
Hypothesis k1_plain :
  forall r w',
    advance (k1 r) w'
    = (World (svc w') (store w') (sent w') (ticks w'),
       Finished (Normal (envelope_of r))).
Hypothesis k2_plain :
  forall r w',
    advance (k2 r) w'
    = (World (svc w') (store w') (sent w') (ticks w'),
       Finished (Normal (envelope_of r))).
Hypothesis k3_fill :
  forall r w',
    advance (k3 r) w'
    = (World (fill Cache.set_pathways r (svc w')) (store w') (sent w')
             (ticks w'),
       Finished (Normal (envelope_of r))).

#[local] Abbreviation at_ := (stats_pool w fs k0 k1 k2 k3).

Ltac answer_waiting Hk :=
  unfold stats_pool, step; cbn [tasks env lookup list_lookup]; unfold deliver;
  unfold countries_query, universities_query, courses_query, pathways_query;
  cbn [store list_result];
  match goal with
  | |- context [respond ?f (Select ?t ?wh ?ord ?sg) ?d] =>
      let Hd := fresh "Hd" in
      let d' := fresh "d" in
      let r := fresh "r" in
      pose proof (respond_select_store f t wh ord sg d) as Hd;
      destruct (respond f (Select t wh ord sg) d) as [d' r];
      cbn [fst] in Hd; subst d';
      cbn [with_store svc store sent ticks snd]; rewrite Hk;
      cbn [is_finished env tasks settled svc store sent ticks list_result];
      eexists; destruct r as [[? [?|]]|?]; reflexivity
  end.

Lemma answer_stats_pool (b0 b1 b2 b3 : bool) (l : list nat) (i : nat) :
  started w b0 b3 ->
  exists l',
    step (at_ b0 b1 b2 b3 l) (Answer i (fault_of fs i))
    = at_ (b0 || bool_decide (i = 0%nat)) (b1 || bool_decide (i = 1%nat))
          (b2 || bool_decide (i = 2%nat)) (b3 || bool_decide (i = 3%nat)) l'.
Proof.
  intros [H0 H3].
  destruct i as [|[|[|[|i]]]]; cbn [bool_decide decide_rel]; simpl bool_decide;
    rewrite ?orb_false_r, ?orb_true_r.
  - destruct b0; [by exists l|]. unfold stats_pool. rewrite (H0 eq_refl).
    unfold countries_query. answer_waiting k0_fill.
  - destruct b1; [by exists l|].
    unfold universities_query. answer_waiting k1_plain.
  - destruct b2; [by exists l|].
    unfold courses_query. answer_waiting k2_plain.
  - destruct b3; [by exists l|]. unfold stats_pool. rewrite (H3 eq_refl).
    unfold pathways_query. answer_waiting k3_fill.
  - by exists l.
Qed.

Lemma answers_stats_pool (arrival : list nat) :
  forall (b0 b1 b2 b3 : bool) (l : list nat),
    started w b0 b3 ->
    exists b0' b1' b2' b3' l',
      schedule (map (fun i => Answer i (fault_of fs i)) arrival)
               (at_ b0 b1 b2 b3 l)
      = at_ b0' b1' b2' b3' l'
      /\ started w b0' b3'.
Proof.
  unfold schedule.
  induction arrival as [|i arrival IH]; intros b0 b1 b2 b3 l Hst.
  - by exists b0, b1, b2, b3, l.
  - cbn [map foldl].
    destruct (answer_stats_pool b0 b1 b2 b3 l i Hst) as [l' ->].
    apply IH. destruct Hst as [H0 H3]. split; intros H.
    + apply H0. by destruct b0.
    + apply H3. by destruct b3.
Qed.

(** In this pool, awaiting what is left of a call is receiving its
    answer. *)
Lemma await_remaining_stats_pool (b0 b1 b2 b3 : bool) (l : list nat)
  (i : nat) :
  await_remaining fs (at_ b0 b1 b2 b3 l) i
  = step (at_ b0 b1 b2 b3 l) (Answer i (fault_of fs i)).
Proof.
  unfold await_remaining, step.
  destruct (tasks (at_ b0 b1 b2 b3 l) !! i) as [[c|rq k]|] eqn:Hi; try done.
  assert (exists w' c, deliver (fault_of fs i) (Waiting rq k)
                               (env (at_ b0 b1 b2 b3 l))
                       = (w', Finished c)) as (w' & c & Hd).
  { unfold deliver.
    destruct (respond (fault_of fs i) rq (store (env (at_ b0 b1 b2 b3 l))))
      as [d r].
    destruct i as [|[|[|[|i]]]]; [destruct b0|destruct b1|destruct b2
                                  |destruct b3|]; try done;
      injection Hi as <- <-; rewrite ?k0_fill, ?k1_plain, ?k2_plain, ?k3_fill;
      eauto. }
  by rewrite (deliver_finish _ _ _ _ _ Hd), Hd.
Qed.

Lemma stats_pool_done (arrival : list nat) (b0 b1 b2 b3 : bool)
  (l : list nat) :
  started w b0 b3 ->
  exists l',
    foldl (await_remaining fs)
          (schedule (map (fun i => Answer i (fault_of fs i)) arrival)
                    (at_ b0 b1 b2 b3 l))
          (seq 0 4)
    = at_ true true true true l'.
Proof.
  intros Hst.
  destruct (answers_stats_pool arrival b0 b1 b2 b3 l Hst)
    as (c0 & c1 & c2 & c3 & l1 & -> & Hst1).
  cbn [seq foldl].
  rewrite await_remaining_stats_pool.
  destruct (answer_stats_pool c0 c1 c2 c3 l1 0 Hst1) as [l2 ->].
  assert (forall x0 x3 y0 y3, started w x0 x3 -> started w (x0 || y0) (x3 || y3))
    as Hmono.
  { intros x0 x3 y0 y3 [H0 H3]. split; intros H.
    - apply H0. by destruct x0.
    - apply H3. by destruct x3. }
  rewrite await_remaining_stats_pool.
  edestruct answer_stats_pool as [l3 ->]; [by apply Hmono|].
  rewrite await_remaining_stats_pool.
  edestruct answer_stats_pool as [l4 ->]; [by repeat apply Hmono|].
  rewrite await_remaining_stats_pool.
  edestruct answer_stats_pool as [l5 ->]; [by repeat apply Hmono|].
  exists l5. cbn [bool_decide decide_rel]. simpl bool_decide.
  by rewrite !orb_true_r.
Qed.

End StatsPool.

Lemma step_call {A : Type} (s : pool A) (p : prog A) (w' : world)
  (t : task A) :
  advance p (env s) = (w', t) ->
  step s (Call p)
  = Pool w' (tasks s ++ [t])
         (if is_finished t then settled s ++ [List.length (tasks s)]
          else settled s).
Proof. intros H. unfold step. by rewrite H. Qed.

Lemma made_stats_pool (w : world) (fs : list fault) :
  exists k0 k1 k2 k3 b0 b3 l,
    (forall r w',
        advance (k0 r) w'
        = (World (fill Cache.set_countries r (svc w')) (store w') (sent w')
                 (ticks w'),
           Finished (Normal (envelope_of r))))
    /\ (forall r w',
          advance (k1 r) w'
          = (World (svc w') (store w') (sent w') (ticks w'),
             Finished (Normal (envelope_of r))))
    /\ (forall r w',
          advance (k2 r) w'
          = (World (svc w') (store w') (sent w') (ticks w'),
             Finished (Normal (envelope_of r))))
    /\ (forall r w',
          advance (k3 r) w'
          = (World (fill Cache.set_pathways r (svc w')) (store w') (sent w')
                   (ticks w'),
             Finished (Normal (envelope_of r))))
    /\ started w b0 b3
    /\ schedule (map Call [getAllCountries; getAllUniversities;
                           getAllCourses; getAllPathways]) (Pool w [] [])
       = stats_pool w fs k0 k1 k2 k3 b0 false false b3 l.
Proof.
  destruct advance_getAllCountries_fill as (k0 & Hm0 & Hk0).
  destruct (advance_fetch_plain universities_query) as (k1 & Hm1 & Hk1).
  destruct (advance_fetch_plain courses_query) as (k2 & Hm2 & Hk2).
  destruct advance_getAllPathways_fill as (k3 & Hm3 & Hk3).
  exists k0, k1, k2, k3.
  exists (bool_decide (is_Some (Cache.countries (svc w)))),
         (bool_decide (is_Some (Cache.pathways (svc w)))).
  exists ((if bool_decide (is_Some (Cache.countries (svc w)))
           then [0%nat] else [])
          ++ (if bool_decide (is_Some (Cache.pathways (svc w)))
              then [3%nat] else [])).
  do 4 (split; [done|]). split.
  { split; intros H; apply bool_decide_eq_false in H;
      by apply eq_None_not_Some. }
  unfold schedule, getAllUniversities, getAllCourses.
  fold universities_query courses_query.
  cbn [map foldl].
  destruct w as [[c0 u c p3] d l ts]. unfold stats_pool, stats_requests.
  cbn [svc store sent ticks Cache.countries Cache.pathways Cache.universities
       Cache.courses].
  destruct c0 as [c0|], p3 as [p3|].
  all: erewrite (step_call _ getAllCountries);
    [|cbn [env];
      first [by apply advance_getAllCountries_hit | by apply Hm0]].
  all: erewrite (step_call _ (fetch universities_query)); [|by apply Hm1].
  all: erewrite (step_call _ (fetch courses_query)); [|by apply Hm2].
  all: erewrite (step_call _ getAllPathways);
    [|cbn [env];
      first [by apply advance_getAllPathways_hit | by apply Hm3]].
  all: unfold log;
    cbn [env tasks settled is_finished app svc store sent ticks
         list_result data ok].
  all: rewrite <- ?app_assoc; reflexivity.
Qed.

Lemma promise_all_lists_world (fs : list fault) (arrival : list nat)
  (w : world) :
  (promise_all [getAllCountries; getAllUniversities; getAllCourses;
                getAllPathways] fs arrival w).1
  = World (Cache.Make
             (data (list_result (Cache.countries (svc w)) (fault_of fs 0)
                                countries_query (store w)))
             (Cache.universities (svc w)) (Cache.courses (svc w))
             (data (list_result (Cache.pathways (svc w)) (fault_of fs 3)
                                pathways_query (store w))))
          (store w) (sent w ++ stats_requests w) (ticks w).
Proof.
  unfold promise_all.
  destruct (made_stats_pool w fs)
    as (k0 & k1 & k2 & k3 & b0 & b3 & l & H0 & H1 & H2 & H3 & Hst & ->).
  cbn [List.length fst].
  by destruct (stats_pool_done w fs k0 k1 k2 k3 H0 H1 H2 H3 arrival
                 b0 false false b3 l Hst) as [l' ->].
Qed.

Lemma countries_slot_alone (f : fault) (w : world) :
  Cache.countries (svc (run getAllCountries [f] w).1)
  = data (list_result (Cache.countries (svc w)) f countries_query (store w)).
Proof.
  destruct (Cache.countries (svc w)) as [c|] eqn:Hc.
  - rewrite (run_getAllCountries_hit c) by done. cbn [fst]. by rewrite Hc.
  - rewrite run_getAllCountries_miss by done. cbn [fst hd list_result].
    rewrite data_envelope_of_fill.
    by destruct (respond f countries_query (store w)).2 as [[dt [e|]]|e].
Qed.

Lemma pathways_slot_alone (f : fault) (w : world) :
  Cache.pathways (svc (run getAllPathways [f] w).1)
  = data (list_result (Cache.pathways (svc w)) f pathways_query (store w)).
Proof.
  destruct (Cache.pathways (svc w)) as [c|] eqn:Hc.
  - rewrite (run_getAllPathways_hit c) by done. cbn [fst]. by rewrite Hc.
  - rewrite run_getAllPathways_miss by done. cbn [fst hd list_result].
    rewrite data_envelope_of_fill.
    by destruct (respond f pathways_query (store w)).2 as [[dt [e|]]|e].
Qed.

(** What [getStatistics] leaves behind, whatever its requests meet and in
    whatever order the answers arrive: the store and the clock as they
    were; one request sent per list that was not cached, in the order of
    the calls; the countries and pathways slots as each list call alone
    would have left them, the two other slots untouched.  In particular,
    once the countries request was answered, [getAllCountries] is served
    from the cache. *)
Theorem getStatistics_fills_the_cache (fs : list fault) (arrival : list nat)
  (w : world) :
  let w' := (getStatistics fs arrival w).1 in
  w' = World (Cache.Make
                (Cache.countries
                   (svc (run getAllCountries [fault_of fs 0] w).1))
                (Cache.universities (svc w)) (Cache.courses (svc w))
                (Cache.pathways
                   (svc (run getAllPathways [fault_of fs 3] w).1)))
             (store w) (sent w ++ stats_requests w) (ticks w)
  /\ (fault_of fs 0 = Healthy ->
      exists c, forall fs',
        run getAllCountries fs' w' = (w', Normal (ok (Some c)))).
Proof.
  intros w'.
  assert (w' = World (Cache.Make
                (Cache.countries
                   (svc (run getAllCountries [fault_of fs 0] w).1))
                (Cache.universities (svc w)) (Cache.courses (svc w))
                (Cache.pathways
                   (svc (run getAllPathways [fault_of fs 3] w).1)))
             (store w) (sent w ++ stats_requests w) (ticks w)) as Hw'.
  { unfold w', getStatistics.
    pose proof (promise_all_lists_world fs arrival w) as H.
    destruct (promise_all _ fs arrival w) as [w1 results]. cbn [fst] in *.
    by rewrite countries_slot_alone, pathways_slot_alone. }
  split; [done|]. intros Hf.
  assert (is_Some (Cache.countries (svc w'))) as [c Hc].
  { rewrite Hw'. cbn [svc Cache.countries]. rewrite countries_slot_alone, Hf.
    destruct (Cache.countries (svc w)); by eexists. }
  exists c. intros fs'. by apply run_getAllCountries_hit.
Qed.

(** A fresh service in front of an empty database: four requests, and
    the two cached lists filled with the empty list. *)
Lemma getStatistics_fills_the_cache_witness :
  let w' := (getStatistics [] [2; 0]%nat fresh_world).1 in
  fault_of [] 0 = Healthy
  /\ sent w' = [countries_query; universities_query; courses_query;
                pathways_query]
  /\ exists c, forall fs',
       run getAllCountries fs' w' = (w', Normal (ok (Some c))).
Proof.
  intros w'. split; [reflexivity|].
  destruct (getStatistics_fills_the_cache [] [2; 0]%nat fresh_world)
    as [Hw' Hhit].
  fold w' in Hw', Hhit. split.
  - rewrite Hw'. reflexivity.
  - exact (Hhit eq_refl).
Defined.

(** *** The cache holds arrays *)

Lemma respond_list_rows (f : fault) (t : string)
  (ord : option (string * bool)) (d : db) (x : payload) :
  data (envelope_of (respond f (Select t [] ord false) d).2) = Some x ->
  exists rs, x = Rows rs.
Proof.
  destruct f as [|e|e]; cbn; [|done..]. intros [= <-]. by eexists.
Qed.

Lemma body_keeps_cache (c0 : Cache.t) (c : call) (p : prog reply) :
  body c = Some p -> c <> GetAllCountries -> c <> GetAllPathways ->
  respects (fun x => x = c0) p.
Proof.
  destruct c; intros [= <-] H1 H2; try done; unfold fetch.
  all: try match goal with f : filters_arg |- _ => destruct f end.
  all: respects_method.
Qed.

Lemma getAllCountries_holds_arrays (fs : list fault) (w : world) :
  holds_arrays (svc w) -> holds_arrays (svc (run getAllCountries fs w).1).
Proof.
  intros Hw.
  assert (is_Some (Cache.countries (svc w)) \/ Cache.countries (svc w) = None)
    as [[c Hslot]|Hslot] by (destruct (Cache.countries (svc w)); eauto).
  - by rewrite (run_getAllCountries_hit c).
  - destruct Hw as [Hc Hp]. rewrite run_getAllCountries_miss by done. cbn [fst].
    pose proof (respond_list_rows (hd Healthy fs) "n_countries"
                  (ascending "country_name") (store w)) as Hrows.
    fold countries_query in Hrows.
    destruct (respond (hd Healthy fs) countries_query (store w)).2
      as [[dt [e|]]|e]; done.
Qed.

Lemma getAllPathways_holds_arrays (fs : list fault) (w : world) :
  holds_arrays (svc w) -> holds_arrays (svc (run getAllPathways fs w).1).
Proof.
  intros Hw.
  assert (is_Some (Cache.pathways (svc w)) \/ Cache.pathways (svc w) = None)
    as [[c Hslot]|Hslot] by (destruct (Cache.pathways (svc w)); eauto).
  - by rewrite (run_getAllPathways_hit c).
  - destruct Hw as [Hc Hp]. rewrite run_getAllPathways_miss by done. cbn [fst].
    pose proof (respond_list_rows (hd Healthy fs) "pathways"
                  (ascending "name") (store w)) as Hrows.
    fold pathways_query in Hrows.
    destruct (respond (hd Healthy fs) pathways_query (store w)).2
      as [[dt [e|]]|e]; done.
Qed.

Lemma invoke_holds_arrays (c : call) (fs : list fault) (arrival : list nat)
  (w : world) :
  holds_arrays (svc w) -> holds_arrays (svc (invoke c fs arrival w).1).
Proof.
  intros Hw. unfold invoke. destruct (body c) as [p|] eqn:Hbody.
  - destruct (decide (c = GetAllCountries)) as [->|H1].
    { injection Hbody as <-.
      pose proof (getAllCountries_holds_arrays fs w Hw) as H.
      by destruct (run getAllCountries fs w). }
    destruct (decide (c = GetAllPathways)) as [->|H2].
    { injection Hbody as <-.
      pose proof (getAllPathways_holds_arrays fs w Hw) as H.
      by destruct (run getAllPathways fs w). }
    pose proof (run_respects _ p (body_keeps_cache (svc w) c p Hbody H1 H2)
                  fs w eq_refl) as H.
    destruct (run p fs w) as [w' o]. cbn [fst] in *. by rewrite H.
  - unfold getStatistics.
    pose proof (promise_all_lists_world fs arrival w) as H.
    destruct (promise_all _ fs arrival w) as [w' results]. cbn [fst] in *.
    subst w'. destruct Hw as [Hc Hp]. split; cbn [svc Cache.countries
      Cache.pathways]; intros x Hx.
    + destruct (Cache.countries (svc w)) as [c0|] eqn:Hslot.
      * apply (Hc x). by rewrite <- Hx.
      * by apply respond_list_rows in Hx.
    + destruct (Cache.pathways (svc w)) as [c0|] eqn:Hslot.
      * apply (Hp x). by rewrite <- Hx.
      * by apply respond_list_rows in Hx.
Qed.

(** The condition of the counts is one the service keeps: a cache that
    holds arrays holds arrays after any series of calls, and the cache of
    a new service holds nothing. *)
Lemma session_holds_arrays (calls : list (call * list fault * list nat)) :
  forall w : world,
    holds_arrays (svc w) -> holds_arrays (svc (session calls w)).
Proof.
  induction calls as [|[[c fs] arrival] calls IH]; intros w Hw; [done|].
  simpl. apply IH. by apply invoke_holds_arrays.
Qed.

(* ===================================================================== *)
(** ** What the methods write *)
(* ===================================================================== *)

Lemma run_reads_only {A : Type} (p : prog A) :
  reads_only p ->
  forall (fs : list fault) (w : world),
    store (run p fs w).1 = store w
    /\ exists l, sent (run p fs w).1 = sent w ++ l
                 /\ forallb is_select l = true.
Proof.
  induction p as [a|e|k IH|g k IH|k IH|rq k IH]; simpl; intros Hp fs w.
  - split; [done|]. exists []. by rewrite app_nil_r.
  - split; [done|]. exists []. by rewrite app_nil_r.
  - by apply IH.
  - apply (IH Hp fs (with_svc g w)).
  - apply (IH _ (Hp _) fs (tick w)).
  - destruct Hp as [Hrq Hk]. destruct rq as [t wh ord single| |]; try done.
    pose proof (respond_select_store (hd Healthy fs) t wh ord single (store w))
      as Hd.
    destruct (respond (hd Healthy fs) (Select t wh ord single) (store w))
      as [d r]. simpl in Hd. subst d.
    destruct (IH r (Hk r) (tl fs)
                (with_store (store w) (log (Select t wh ord single) w)))
      as (Hst & l & Hl & Hsel).
    split; [done|]. exists (Select t wh ord single :: l). split; [|done].
    rewrite Hl. simpl. by rewrite <- app_assoc.
Qed.

Lemma body_reads_only (c : call) (p : prog reply) :
  body c = Some p -> writes c = false -> reads_only p.
Proof.
  destruct c; intros [= <-] Hw; try done; unfold fetch.
  all: try match goal with f : filters_arg |- _ => destruct f end.
  all: respects_method.
Qed.

Lemma invoke_reads (c : call) (fs : list fault) (arrival : list nat)
  (w : world) :
  writes c = false ->
  store (invoke c fs arrival w).1 = store w
  /\ exists l, sent (invoke c fs arrival w).1 = sent w ++ l
               /\ forallb is_select l = true.
Proof.
  intros Hw. unfold invoke. destruct (body c) as [p|] eqn:Hbody.
  - pose proof (run_reads_only p (body_reads_only c p Hbody Hw) fs w) as H.
    by destruct (run p fs w).
  - unfold getStatistics.
    pose proof (promise_all_lists_world fs arrival w) as H.
    destruct (promise_all _ fs arrival w) as [w' results]. cbn [fst] in *.
    subst w'. cbn [store sent]. split; [done|]. eexists. split; [done|].
    unfold stats_requests.
    by destruct (Cache.countries (svc w)), (Cache.pathways (svc w)).
Qed.

(** Every method other than [createCounselorRequest] and
    [updateCounselorRequestStatus] only reads: whatever it is given and
    whatever happens, the requests it sends are selects and the database
    is afterwards as it was before. *)
Theorem read_methods_only_select (c : call) (fs : list fault)
  (arrival : list nat) (w : world) :
  writes c = false ->
  store (invoke c fs arrival w).1 = store w
  /\ exists l, sent (invoke c fs arrival w).1 = sent w ++ l
               /\ forallb is_select l = true.
Proof. apply invoke_reads. Qed.

(** A search for courses sends one select and leaves the database as it
    is. *)
Lemma read_methods_only_select_witness :
  let c := SearchCourses (Str "law")
             (Filters {[ "degree_level" := Str "MSc" ]}) in
  writes c = false
  /\ store (invoke c [] [] small_world).1 = store small_world.
Proof.
  intros c. split; [reflexivity|].
  by destruct (read_methods_only_select c [] [] small_world eq_refl) as [H _].
Defined.

(** The rows after an update or a create, in terms of the rows before. *)
Lemma update_rows (requestId status adminNotes : value) (fs : list fault)
  (w : world) (r' : row) :
  In r' (table (store (run (updateCounselorRequestStatus requestId status
                              adminNotes) fs w).1) requests) ->
  exists r, In r (table (store w) requests)
            /\ forall col, col ∉ written -> r' !! col = r !! col.
Proof.
  rewrite run_update. cbn [fst store with_store]. unfold update_request.
  set (patch := update_data _ _ _ _).
  destruct (respond_update_table (hd Healthy fs) requests patch
              [Eq "id" requestId] (store w)) as [_ [-> | ->]].
  - intros Hin. by exists r'.
  - unfold patch_rows. intros Hin. apply in_map_iff in Hin as (r & <- & Hin).
    exists r. split; [done|].
    by apply (patched_row_frame requestId status adminNotes (now w)
                (now (tick w)) r); right.
Qed.

Lemma create_rows (requestData : row) (fs : list fault) (w : world)
  (r' : row) :
  In r' (table (store (run (createCounselorRequest requestData) fs w).1)
               requests) ->
  In r' (table (store w) requests) \/ r' = json requestData.
Proof.
  rewrite run_createCounselorRequest.
  destruct (hd Healthy fs) as [|e|e]; cbn [fst store log]; [|by left..].
  unfold table at 1. rewrite lookup_insert_eq. cbn [default from_option id].
  intros Hin. apply in_app_or in Hin as [Hin|Hin]; [by left|].
  destruct Hin as [<-|[]]. by right.
Qed.

Lemma invoke_keeps_unassigned (c : call) (fs : list fault)
  (arrival : list nat) (w : world) :
  assigns_nobody c -> unassigned (store w) ->
  unassigned (store (invoke c fs arrival w).1).
Proof.
  intros Hc Hun. destruct (writes c) eqn:Hw.
  - destruct c; try done; unfold invoke; cbn [body].
    + destruct (run (createCounselorRequest requestData) fs w) as [w' o] eqn:Hrun.
      intros r' Hin. cbn [fst] in Hin.
      replace w' with (run (createCounselorRequest requestData) fs w).1 in Hin
        by (by rewrite Hrun).
      apply create_rows in Hin as [Hin| ->]; [by apply Hun|done].
    + destruct (run (updateCounselorRequestStatus requestId status adminNotes)
                  fs w) as [w' o] eqn:Hrun.
      intros r' Hin. cbn [fst] in Hin.
      replace w' with (run (updateCounselorRequestStatus requestId status
                              adminNotes) fs w).1 in Hin
        by (by rewrite Hrun).
      apply update_rows in Hin as (r & Hin & Hframe).
      unfold column. rewrite Hframe; [by apply Hun|].
      unfold written. intros H.
      repeat (apply elem_of_cons in H as [H|H]; [discriminate|]).
      by apply elem_of_nil in H.
  - by destruct (invoke_reads c fs arrival w Hw) as [-> _].
Qed.

Lemma session_keeps_unassigned (calls : list (call * list fault * list nat)) :
  forall w : world,
    Forall (fun x => assigns_nobody x.1.1) calls ->
    unassigned (store w) -> unassigned (store (session calls w)).
Proof.
  induction calls as [|[[c fs] arrival] calls IH]; intros w Hall Hun; [done|].
  inversion Hall as [|? ? Hc Hall']; subst. simpl. apply IH; [done|].
  by apply invoke_keeps_unassigned.
Qed.

(** Nothing in the service assigns a counselor: as long as no new request
    is created with a [counselor_id] of its own, every request stays
    without one through any series of calls, approvals included, and
    [getCounselorStudents] returns the empty list for every counselor. *)
Theorem approval_assigns_no_counselor
  (calls : list (call * list fault * list nat)) (w : world)
  (counselorId : value) (fs : list fault) :
  unassigned (store w) ->
  Forall (fun x => assigns_nobody x.1.1) calls ->
  hd Healthy fs = Healthy ->
  (run (getCounselorStudents counselorId) fs (session calls w)).2
  = Normal (ok (Some (Rows []))).
Proof.
  intros Hun Hall Hh.
  pose proof (session_keeps_unassigned calls w Hall Hun) as Hun'.
  unfold getCounselorStudents. rewrite run_fetch, Hh.
  cbn [snd respond exec envelope_of error data]. unfold ok, select_rows.
  do 4 f_equal.
  assert (List.filter
            (all_hold [Eq "counselor_id" counselorId;
                       Eq "status" (Str "approved")])
            (table (store (session calls w)) "counselor_requests") = [])
    as ->; [|done].
  fold requests. unfold unassigned in Hun'. revert Hun'.
  generalize (table (store (session calls w)) requests). intros l.
  induction l as [|r l IH]; intros Hun'; [done|].
  simpl. unfold eq_holds at 1. rewrite (Hun' r) by (by left). simpl.
  apply IH. intros r' Hr'. apply Hun'. by right.
Qed.

(** A student asks for counselor 3 and the request is approved: counselor 3
    still has no student. *)
Lemma approval_assigns_no_counselor_witness :
  let calls :=
    [(CreateCounselorRequest a_request, [], []);
     (UpdateCounselorRequestStatus (Num 1) (Str "approved") Null, [], [])] in
  (unassigned (store fresh_world)
   /\ Forall (fun x => assigns_nobody x.1.1) calls
   /\ hd Healthy [] = Healthy)
  /\ stored (session calls fresh_world) 0 "status" = Some (Str "approved")
  /\ (run (getCounselorStudents (Num 3)) [] (session calls fresh_world)).2
     = Normal (ok (Some (Rows []))).
Proof.
  intros calls.
  assert (unassigned (store fresh_world)) as Hun by (by intros r []).
  assert (Forall (fun x => assigns_nobody x.1.1) calls) as Hall.
  { repeat constructor. }
  split; [by repeat split|]. split; [by_evaluation|].
  exact (approval_assigns_no_counselor calls fresh_world (Num 3) [] Hun Hall
           eq_refl).
Defined.

(* ===================================================================== *)
(** ** Requests: how the calls compose *)
(* ===================================================================== *)

(** The rows an update touches, as the store answers them. *)
Lemma respond_update_not_one (t : string) (patch : row) (wh : list pred)
  (d : db) :
  List.length (List.filter (all_hold wh) (table d t)) <> 1%nat ->
  respond Healthy (Update t patch wh true) d
  = (d, Resolved (Reply None (Some (NotSingular
       (List.length (List.filter (all_hold wh) (table d t))))))).
Proof.
  intros H. unfold respond, exec.
  destruct (List.filter (all_hold wh) (table d t)) as [|r [|r' l]] eqn:Hl;
    simpl in *; try done.
  by rewrite length_map.
Qed.

(** An update whose id is the id of no request, or of several: the clock
    is read and the request is sent, no row is changed, and the method
    returns no data and the error of a request for one row, which says how
    many rows have the id. *)
Theorem update_needs_exactly_one_row (requestId status adminNotes : value)
  (fs : list fault) (w : world) :
  hd Healthy fs = Healthy ->
  List.length (with_id requestId w) <> 1%nat ->
  let res :=
    run (updateCounselorRequestStatus requestId status adminNotes) fs w in
  res.2 = Normal (failed (NotSingular (List.length (with_id requestId w))))
  /\ store res.1 = store w
  /\ sent res.1 = sent w ++ [update_request requestId status adminNotes w].
Proof.
  intros Hf Hn res. unfold res, with_id in *. rewrite run_update, Hf.
  unfold update_request at 1 2 3.
  rewrite (respond_update_not_one _ _ _ _ Hn).
  cbn [fst snd envelope_of error data store with_store sent log].
  split; [done|]. split; [done|]. by destruct (is_approved status).
Qed.

(** An id that no request has, and an id that two requests have. *)
Lemma update_needs_exactly_one_row_witness :
  hd Healthy [] = Healthy
  /\ List.length (with_id (Num 1) twice_world) <> 1%nat
  /\ (run (updateCounselorRequestStatus (Num 1) (Str "declined") Null) []
        twice_world).2
     = Normal (failed (NotSingular 2))
  /\ store (run (updateCounselorRequestStatus (Num 1) (Str "declined") Null)
              [] twice_world).1
     = store twice_world.
Proof.
  assert (List.length (with_id (Num 1) twice_world) = 2%nat) as Hn
    by by_evaluation.
  assert (List.length (with_id (Num 1) twice_world) <> 1%nat) as Hne
    by (rewrite Hn; discriminate).
  split; [reflexivity|]. split; [exact Hne|].
  destruct (update_needs_exactly_one_row (Num 1) (Str "declined") Null []
              twice_world eq_refl Hne) as (Hres & Hst & _).
  rewrite Hn in Hres. split; [exact Hres|exact Hst].
Defined.

(** A request created and then listed for a student: the list is made of
    the requests the student had and, when the new request is the
    student's, the new request as it was stored. *)
Theorem created_request_is_listed (requestData : row) (studentId : value)
  (fs fs' : list fault) (w : world) :
  hd Healthy fs = Healthy ->
  hd Healthy fs' = Healthy ->
  exists rows,
    (and_then (createCounselorRequest requestData) fs
              (getCounselorRequestByStudent studentId) fs' w).2
    = Normal (ok (Some (Rows rows)))
    /\ rows ≡ₚ
         List.filter (fun r => eq_holds r "student_id" studentId)
                     (table (store w) requests)
         ++ (if eq_holds (json requestData) "student_id" studentId
             then [json requestData] else [])
    /\ in_order "created_at" false rows.
Proof.
  intros Hf Hf'. unfold and_then.
  rewrite run_createCounselorRequest, Hf. cbn [fst].
  destruct (fetch_lists_rows "counselor_requests"
              [Eq "student_id" studentId]
              (fun r => eq_holds r "student_id" studentId) "created_at" false
              eq_refl (all_hold_one (Eq "student_id" studentId)) fs'
              (World (svc w)
                 (<[requests := table (store w) requests
                                ++ [json requestData]]> (store w))
                 (sent w ++ [Insert requests [requestData]]) (ticks w)) Hf')
    as (rows & Hrun & Hperm & Hord).
  exists rows. unfold getCounselorRequestByStudent, descending. rewrite Hrun.
  split; [done|]. split; [|done].
  rewrite Hperm. cbn [store]. fold requests. rewrite table_insert.
  by rewrite List.filter_app.
Qed.

(** Student 7 has one request and makes another: the list holds both. *)
Lemma created_request_is_listed_witness :
  hd Healthy [] = Healthy
  /\ exists rows,
       (and_then (createCounselorRequest new_request) []
                 (getCounselorRequestByStudent (Num 7)) [] pending_world).2
       = Normal (ok (Some (Rows rows)))
       /\ rows ≡ₚ [pending_request; json new_request].
Proof.
  split; [reflexivity|].
  destruct (created_request_is_listed new_request (Num 7) [] []
              pending_world eq_refl eq_refl) as (rows & Hres & Hperm & _).
  exists rows. split; [exact Hres|].
  assert (List.filter (fun r => eq_holds r "student_id" (Num 7))
                      (table (store pending_world) requests)
          ++ (if eq_holds (json new_request) "student_id" (Num 7)
              then [json new_request] else [])
          = [pending_request; json new_request]) as <- by by_evaluation.
  exact Hperm.
Defined.

(** A request whose status was set is listed under that status, and under
    no other: the status filter of the list is an equality on what the
    status reads as text. *)
Theorem updated_request_is_listed (requestId status adminNotes listed : value)
  (fs fs' : list fault) (w : world) (r : row) :
  hd Healthy fs = Healthy ->
  hd Healthy fs' = Healthy ->
  with_id requestId w = [r] ->
  is_null status = false ->
  let r' := json (update_data status adminNotes (now w) (now (tick w))) ∪ r in
  exists rows,
    (and_then (updateCounselorRequestStatus requestId status adminNotes) fs
              (getCounselorRequestsByStatus listed) fs' w).2
    = Normal (ok (Some (Rows rows)))
    /\ (In r' rows <-> to_string status = to_string listed).
Proof.
  intros Hf Hf' Hone Hst r'. unfold and_then.
  destruct (update_applied_table requestId status adminNotes fs w r Hf Hone)
    as (_ & Hone' & _).
  set (w1 := (run (updateCounselorRequestStatus requestId status adminNotes)
                fs w).1) in *.
  destruct (fetch_lists_rows "counselor_requests" [Eq "status" listed]
              (fun r => eq_holds r "status" listed) "requested_at" false
              eq_refl (all_hold_one (Eq "status" listed)) fs' w1 Hf')
    as (rows & Hrun & Hperm & _).
  exists rows. unfold getCounselorRequestsByStatus, descending.
  rewrite Hrun. split; [done|].
  assert (In r' (table (store w1) requests)) as Hin.
  { apply (List.filter_In (all_hold [Eq "id" requestId])).
    unfold with_id in Hone'. rewrite Hone'. by left. }
  assert (column r' "status" = status) as Hcol.
  { unfold column, r'. erewrite lookup_union_Some_l; [done|].
    apply json_lookup_Some; [apply update_data_status|].
    by destruct status. }
  rewrite Hperm, List.filter_In.
  fold requests. unfold eq_holds. rewrite Hcol, Hst. cbn [negb andb].
  rewrite String.eqb_eq. tauto.
Qed.

(** A request is declined: it is in the list of the declined and not in
    the list of the requested. *)
Lemma updated_request_is_listed_witness :
  let r' := json (update_data (Str "declined") Null 60000 60001)
            ∪ pending_request in
  with_id (Num 1) pending_world = [pending_request]
  /\ is_null (Str "declined") = false
  /\ (exists rows,
        (and_then (updateCounselorRequestStatus (Num 1) (Str "declined") Null)
           [] (getCounselorRequestsByStatus (Str "declined")) []
           pending_world).2
        = Normal (ok (Some (Rows rows)))
        /\ In r' rows)
  /\ (exists rows,
        (and_then (updateCounselorRequestStatus (Num 1) (Str "declined") Null)
           [] (getCounselorRequestsByStatus (Str "requested")) []
           pending_world).2
        = Normal (ok (Some (Rows rows)))
        /\ ~ In r' rows).
Proof.
  intros r'.
  assert (with_id (Num 1) pending_world = [pending_request]) as Hone
    by by_evaluation.
  split; [exact Hone|]. split; [reflexivity|]. split.
  - destruct (updated_request_is_listed (Num 1) (Str "declined") Null
                (Str "declined") [] [] pending_world pending_request
                eq_refl eq_refl Hone eq_refl) as (rows & Hres & Hin).
    exists rows. split; [exact Hres|]. apply Hin. reflexivity.
  - destruct (updated_request_is_listed (Num 1) (Str "declined") Null
                (Str "requested") [] [] pending_world pending_request
                eq_refl eq_refl Hone eq_refl) as (rows & Hres & Hin).
    exists rows. split; [exact Hres|]. intros H. apply Hin in H.
    discriminate H.
Defined.

(** A call that leaves the status out: [status] is [undefined], the body
    of the request carries no status, and the row keeps the one it had;
    [updated_at] is written all the same. *)
Theorem update_without_status (requestId adminNotes : value)
  (fs : list fault) (w : world) (r : row) :
  hd Healthy fs = Healthy ->
  with_id requestId w = [r] ->
  exists r',
    (run (updateCounselorRequestStatus requestId Undefined adminNotes) fs w).2
    = Normal (ok (Some (One r')))
    /\ with_id requestId
         (run (updateCounselorRequestStatus requestId Undefined adminNotes)
            fs w).1 = [r']
    /\ r' !! "status" = r !! "status"
    /\ r' !! "approved_at" = r !! "approved_at"
    /\ r' !! "updated_at" = Some (Str (toISOString (now w))).
Proof.
  intros Hf Hone.
  destruct (update_applied requestId Undefined adminNotes fs w r Hf Hone)
    as [Hres _].
  destruct (update_applied_table requestId Undefined adminNotes fs w r Hf
              Hone) as (_ & Hone' & _).
  eexists. split; [exact Hres|]. split; [exact Hone'|]. split; [|split].
  - apply lookup_union_r. unfold json. apply map_lookup_filter_None_2.
    right. intros v Hv. rewrite update_data_status in Hv.
    injection Hv as <-. simpl. tauto.
  - apply lookup_union_r, json_lookup_None. by apply update_data_not_approved.
  - apply lookup_union_Some_l, json_lookup_Some; [|done].
    apply update_data_updated_at.
Qed.

(** The request of the example keeps its status [requested]. *)
Lemma update_without_status_witness :
  with_id (Num 1) pending_world = [pending_request]
  /\ exists r',
       (run (updateCounselorRequestStatus (Num 1) Undefined Null) []
          pending_world).2 = Normal (ok (Some (One r')))
       /\ r' !! "status" = Some (Str "requested")
       /\ r' !! "updated_at" = Some (Str "1970-01-01T00:01:00.000Z").
Proof.
  assert (with_id (Num 1) pending_world = [pending_request]) as Hone
    by by_evaluation.
  split; [exact Hone|].
  destruct (update_without_status (Num 1) Null [] pending_world
              pending_request eq_refl Hone)
    as (r' & Hres & _ & Hst & _ & Hup).
  exists r'. split; [exact Hres|]. split; [|exact Hup].
  rewrite Hst. reflexivity.
Defined.

(** *** The cache slots that stay empty *)

Lemma body_respects_idle (u : option payload * option payload) (c : call)
  (p : prog reply) :
  body c = Some p -> respects (fun x => idle_slots x = u) p.
Proof.
  destruct c; intros [= <-]; try done; unfold fetch.
  all: try match goal with f : filters_arg |- _ => destruct f end.
  all: respects_method.
Qed.

Lemma invoke_keeps_idle (c : call) (fs : list fault) (arrival : list nat)
  (w : world) :
  idle_slots (svc (invoke c fs arrival w).1) = idle_slots (svc w).
Proof.
  unfold invoke. destruct (body c) as [p|] eqn:Hbody.
  - pose proof (run_respects _ p (body_respects_idle _ c p Hbody) fs w
                  eq_refl) as H.
    by destruct (run p fs w).
  - unfold getStatistics.
    pose proof (promise_all_lists_world fs arrival w) as H.
    destruct (promise_all _ fs arrival w) as [w' results]. cbn [fst] in *.
    by subst w'.
Qed.

(** The cache has four slots and two of them are never written:
    [universities] and [courses] are after any series of calls, of any
    methods and whatever the store does, what they were before, which is
    [null] for a service as it is constructed. *)
Theorem universities_and_courses_are_not_cached
  (calls : list (call * list fault * list nat)) (w : world) :
  idle_slots (svc (session calls w)) = idle_slots (svc w)
  /\ idle_slots (svc (session calls fresh_world)) = (None, None).
Proof.
  assert (forall w, idle_slots (svc (session calls w)) = idle_slots (svc w))
    as H.
  { clear w. induction calls as [|[[c fs] arrival] calls IH]; intros w;
      [done|].
    simpl. rewrite IH. apply invoke_keeps_idle. }
  split; [apply H|]. by rewrite H.
Qed.

(** *** Search with [null] for the filters *)

(** The default [{}] of [filters] applies to a call that leaves the
    argument out, not to one that passes [null]: reading the first filter
    then throws, the [catch] returns the error, and no request has been
    sent, whatever the search term is. *)
Theorem null_filters_send_nothing (searchTerm : value) (fs : list fault)
  (w : world) :
  (exists msg,
     run (searchUniversities searchTerm NullFilters) fs w
     = (w, Normal (failed (TypeError msg))))
  /\ (exists msg,
        run (searchCourses searchTerm NullFilters) fs w
        = (w, Normal (failed (TypeError msg)))).
Proof.
  split; eexists.
  - unfold searchUniversities. by destruct (truthy searchTerm).
  - unfold searchCourses. by destruct (truthy searchTerm).
Qed.

(* ===================================================================== *)
(** ** The sign-in page: the email pattern *)
(* ===================================================================== *)

Section Matching.
Import Regex.

Lemma append_empty (x y : string) : x +:+ y = "" -> x = "".
Proof. by destruct x. Qed.

Lemma matches_many (a : atom) (k : string -> bool) (s : string) :
  matches (Many a) s k = true
  <-> exists x rest, s = x +:+ rest /\ run_of a x /\ k rest = true.
Proof.
  induction s as [|c s IH].
  - split; [done|]. intros (x & rest & Hs & [Hx _] & _).
    symmetry in Hs. by apply append_empty in Hs.
  - change (matches (Many a) (String c s) k)
      with (accepts a c && (matches (Many a) s k || k s)).
    rewrite andb_true_iff, orb_true_iff, IH. split.
    + intros [Hc [(x & rest & -> & [Hx Hall] & Hk)|Hk]].
      * exists (String c x), rest. repeat split; try done.
        simpl. by rewrite Hc.
      * exists (String c ""), s. repeat split; try done.
        simpl. by rewrite Hc.
    + intros (x & rest & Hs & [Hx Hall] & Hk).
      destruct x as [|c' x]; [done|]. simpl in Hs, Hall.
      injection Hs as <- ->. apply andb_true_iff in Hall as [Hc Hall].
      split; [done|]. destruct x as [|c'' x].
      * by right.
      * left. by exists (String c'' x), rest.
Qed.

Lemma matches_one (a : atom) (k : string -> bool) (s : string) :
  matches (One a) s k = true
  <-> exists c rest, s = String c rest /\ accepts a c = true /\ k rest = true.
Proof.
  destruct s as [|c s]; simpl.
  - split; [done|]. by intros (c & rest & Hs & _).
  - rewrite andb_true_iff. split.
    + intros [Hc Hk]. by exists c, s.
    + by intros (c' & rest & [= <- <-] & Hc & Hk).
Qed.

Lemma matches_char (d : ascii) (k : string -> bool) (s : string) :
  matches (One (Char d)) s k = true
  <-> exists rest, s = String d rest /\ k rest = true.
Proof.
  rewrite matches_one. split.
  - intros (c & rest & -> & Hc & Hk). simpl in Hc.
    apply Ascii.eqb_eq in Hc as ->. by exists rest.
  - intros (rest & -> & Hk). exists d, rest. simpl.
    by rewrite Ascii.eqb_refl.
Qed.

(** A match of the pattern at the start of a string. *)
Lemma matches_email (s : string) :
  matches SignInPage.email_pattern s (fun _ => true) = true
  <-> exists a b c post,
        s = a +:+ "@" +:+ b +:+ "." +:+ c +:+ post
        /\ word a /\ word b /\ word c.
Proof.
  unfold SignInPage.email_pattern, word.
  cbn [matches]. fold (matches (Many NonSpace)).
  split.
  - intros H.
    apply (matches_many NonSpace) in H as (a & s1 & -> & Ha & H).
    apply matches_char in H as (s2 & -> & H).
    apply (matches_many NonSpace) in H as (b & s3 & -> & Hb & H).
    apply matches_char in H as (s4 & -> & H).
    apply (matches_many NonSpace) in H as (c & post & -> & Hc & _).
    by exists a, b, c, post.
  - intros (a & b & c & post & -> & Ha & Hb & Hc).
    apply (matches_many NonSpace). exists a, ("@" +:+ b +:+ "." +:+ c +:+ post).
    split; [done|]. split; [done|].
    apply matches_char. eexists. split; [done|].
    apply (matches_many NonSpace). exists b, ("." +:+ c +:+ post).
    split; [done|]. split; [done|].
    apply matches_char. eexists. split; [done|].
    apply (matches_many NonSpace). by exists c, post.
Qed.

Lemma test_anywhere (r : t) (s : string) :
  test r s = true
  <-> exists pre rest,
        s = pre +:+ rest /\ matches r rest (fun _ => true) = true.
Proof.
  induction s as [|c s IH]; simpl; rewrite orb_true_iff.
  - split.
    + intros [H|H]; [|done]. by exists "", "".
    + intros (pre & rest & Hs & H). left.
      destruct pre; [|done]. change ("" = rest) in Hs. by subst rest.
  - rewrite IH. split.
    + intros [H|(pre & rest & -> & H)].
      * by exists "", (String c s).
      * by exists (String c pre), rest.
    + intros (pre & rest & Hs & H). destruct pre as [|c' pre].
      * left. change (String c s = rest) in Hs. by subst rest.
      * right. injection Hs as <- ->. by exists pre, rest.
Qed.

Lemma test_email (s : string) :
  test SignInPage.email_pattern s = true <-> holds_an_address s.
Proof.
  rewrite test_anywhere. unfold holds_an_address. split.
  - intros (pre & rest & -> & H).
    apply matches_email in H as (a & b & c & post & -> & H).
    by exists pre, a, b, c, post.
  - intros (pre & a & b & c & post & -> & H).
    exists pre, (a +:+ "@" +:+ b +:+ "." +:+ c +:+ post).
    split; [done|]. apply matches_email. by exists a, b, c, post.
Qed.

End Matching.

Lemma holds_an_address_inside (pre s post : string) :
  holds_an_address s -> holds_an_address (pre +:+ s +:+ post).
Proof.
  intros (pre' & a & b & c & post' & -> & H).
  exists (pre +:+ pre'), a, b, c, (post' +:+ post). split; [|done].
  by rewrite !append_assoc.
Qed.

(** The email pattern accepts exactly the strings that hold, somewhere, a
    word, an at sign, a word, a dot and a word, a word being a run of
    characters that are not white space.  The pattern is not anchored:
    what is before and after the address is not looked at, so a string
    that is accepted stays accepted with any text, white space included,
    around it. *)
Theorem email_pattern_finds_an_address (s : string) :
  (Regex.test SignInPage.email_pattern s = true <-> holds_an_address s)
  /\ forall pre post,
       Regex.test SignInPage.email_pattern s = true ->
       Regex.test SignInPage.email_pattern (pre +:+ s +:+ post) = true.
Proof.
  split; [apply test_email|]. intros pre post.
  rewrite !test_email. apply holds_an_address_inside.
Qed.

(** An address, and the same address in the middle of a sentence. *)
Lemma email_pattern_finds_an_address_witness :
  Regex.test SignInPage.email_pattern "kim@school.example" = true
  /\ Regex.test SignInPage.email_pattern
       ("to " +:+ "kim@school.example" +:+ ", with love") = true.
Proof.
  assert (Regex.test SignInPage.email_pattern "kim@school.example" = true)
    as H by reflexivity.
  split; [exact H|].
  exact (proj2 (email_pattern_finds_an_address "kim@school.example")
           "to " ", with love" H).
Defined.

(* ===================================================================== *)
(** ** The sign-in page: sending the form *)
(* ===================================================================== *)

Section Submitting.
Import SignInPage.

Lemma validateForm_sendable (p : page) :
  (validateForm p).2 = true <-> sendable p.
Proof.
  unfold validateForm, sendable. rewrite <- test_email.
  destruct (truthy (get (formData p) "email")),
    (truthy (get (formData p) "password")),
    (Regex.test email_pattern (to_string (get (formData p) "email")));
    simpl; intuition congruence.
Qed.

Lemma validateForm_page (p : page) :
  (validateForm p).2 = true /\ (validateForm p).1 = p
  \/ (validateForm p).2 = false
     /\ exists msg,
          (validateForm p).1 = setError (Prim (Str msg)) p /\ msg <> "".
Proof.
  unfold validateForm.
  destruct (_ || _); [right; split; [done|]; by eexists|].
  destruct (negb _); [right; split; [done|]; by eexists|].
  by left.
Qed.

Lemma handleSubmit_cases (p : page) :
  sendable p
  /\ (exists k,
        handleSubmit p
        = AwaitLogin (setError (Prim (Str "")) (setLoading true p))
            (get (formData p) "email") (get (formData p) "password") k)
  \/ ~ sendable p
     /\ exists msg,
          handleSubmit p = Done (setError (Prim (Str msg)) p) /\ msg <> "".
Proof.
  pose proof (validateForm_sendable p) as Hs.
  unfold handleSubmit.
  destruct (validateForm_page p) as [[Hv Hp]|[Hv (msg & Hp & Hmsg)]];
    destruct (validateForm p) as [p1 valid]; simpl in *; subst.
  - left. split; [by apply Hs|]. by eexists.
  - right. split; [|by exists msg]. intros H. apply Hs in H. done.
Qed.

End Submitting.

(** [login] is called with the email and the password of the form, and
    only when the form can be sent; while the call is awaited the page
    shows that it is loading and no error.  A form that cannot be sent is
    answered at once with an error message, and nothing else of the page
    changes. *)
Theorem login_needs_a_sendable_form (p : SignInPage.page) :
  match SignInPage.handleSubmit p with
  | SignInPage.AwaitLogin p' email password _ =>
      sendable p
      /\ email = SignInPage.get (SignInPage.formData p) "email"
      /\ password = SignInPage.get (SignInPage.formData p) "password"
      /\ SignInPage.loading p' = true
      /\ SignInPage.error p' = SignInPage.Prim (Str "")
  | SignInPage.Done p' =>
      ~ sendable p
      /\ SignInPage.truthy_any (SignInPage.error p') = true
      /\ SignInPage.formData p' = SignInPage.formData p
      /\ SignInPage.loading p' = SignInPage.loading p
      /\ SignInPage.success p' = SignInPage.success p
      /\ SignInPage.timers p' = SignInPage.timers p
  end.
Proof.
  destruct (handleSubmit_cases p) as [[Hs [k ->]]|[Hs (msg & -> & Hmsg)]].
  - done.
  - split; [done|]. split; [|done]. simpl.
    destruct msg; [done|reflexivity].
Qed.

Section Answering.
Import SignInPage.

(** What the handler does once [login] has answered. *)
Lemma handleSubmit_answered (p p' : page) (email password : value)
  (k : outcome -> page -> page) (o : outcome) (q : page) :
  handleSubmit p = AwaitLogin p' email password k ->
  loading (k o q) = false
  /\ formData (k o q) = formData q
  /\ match signed_in o with
     | Some user =>
         error (k o q) = error q
         /\ truthy (success (k o q)) = true
         /\ timers (k o q)
            = timers q
              ++ [(1500,
                   if bool_decide (get_any user "role" = Str "counselor")
                   then "/counselor/dashboard" else "/student/profile")]
     | None =>
         truthy_any (error (k o q)) = true
         /\ success (k o q) = success q
         /\ timers (k o q) = timers q
     end.
Proof.
  unfold handleSubmit. destruct (validateForm p) as [p1 [|]]; [|done].
  intros [= <- <- <- <-]. split; [done|]. split.
  - destruct o as [| |result]; try done.
    destruct (truthy_any (field_of result "success")),
      (truthy_any (field_of result "user")); done.
  - destruct o as [| |result]; try done. unfold signed_in.
    destruct (truthy_any (field_of result "success")) eqn:Hs; simpl.
    + destruct (truthy_any (field_of result "user")) eqn:Hu; simpl; [|done].
      split; [done|]. split; [|done]. reflexivity.
    + split; [|done]. unfold or_else.
      by destruct (truthy_any (field_of result "error")) eqn:He.
Qed.

Lemma redirect_paths (authLoading : bool) (user : option row) (path : string) :
  redirect authLoading user = Some path ->
  path = "/student-dashboard" \/ path = "/counselor-dashboard"
  \/ path = "/dashboard".
Proof.
  unfold redirect. destruct user as [u|]; [|done].
  destruct authLoading; [done|]. simpl.
  repeat case_bool_decide; intros [= <-]; auto.
Qed.

Lemma redirect_render (authLoading : bool) (user : option row) :
  is_Some (redirect authLoading user) <-> render authLoading user = Nothing.
Proof.
  unfold redirect, render. destruct user as [u|], authLoading; simpl.
  - split; [by intros [? ?]|done].
  - split; [done|]. intros _. repeat case_bool_decide; by eexists.
  - split; [by intros [? ?]|done].
  - split; [by intros [? ?]|done].
Qed.

End Answering.

(** Every attempt ends: whatever [login] does (it signs the user in, it
    answers that it does not, it answers with nothing, it fails) and
    whatever the page has become meanwhile, the page stops loading and
    keeps the form as it is, and then either the user is welcomed and is
    sent, a second and a half later, to the counselor dashboard or to the
    student profile, or an error message is shown and nothing is
    scheduled. *)
Theorem every_attempt_ends (p p' : SignInPage.page) (email password : value)
  (k : SignInPage.outcome -> SignInPage.page -> SignInPage.page)
  (o : SignInPage.outcome) (q : SignInPage.page) :
  SignInPage.handleSubmit p = SignInPage.AwaitLogin p' email password k ->
  SignInPage.loading (k o q) = false
  /\ SignInPage.formData (k o q) = SignInPage.formData q
  /\ match signed_in o with
     | Some user =>
         SignInPage.error (k o q) = SignInPage.error q
         /\ truthy (SignInPage.success (k o q)) = true
         /\ SignInPage.timers (k o q)
            = SignInPage.timers q
              ++ [(1500,
                   if bool_decide
                        (SignInPage.get_any user "role" = Str "counselor")
                   then "/counselor/dashboard" else "/student/profile")]
     | None =>
         SignInPage.truthy_any (SignInPage.error (k o q)) = true
         /\ SignInPage.success (k o q) = SignInPage.success q
         /\ SignInPage.timers (k o q) = SignInPage.timers q
     end.
Proof. apply handleSubmit_answered. Qed.

(** A counselor signs in, and a call of [login] fails. *)
Lemma every_attempt_ends_witness :
  exists p' email password k,
    SignInPage.handleSubmit filled_in
    = SignInPage.AwaitLogin p' email password k
    /\ SignInPage.timers (k welcome p') = [(1500, "/counselor/dashboard")]
    /\ SignInPage.success (k welcome p')
       = Str "Welcome back, Kim! Redirecting to your dashboard..."
    /\ SignInPage.loading (k SignInPage.Rejected p') = false
    /\ SignInPage.truthy_any (SignInPage.error (k SignInPage.Rejected p'))
       = true.
Proof.
  destruct (SignInPage.handleSubmit filled_in)
    as [|p' email password k] eqn:Hs; [discriminate Hs|].
  exists p', email, password, k. split; [reflexivity|].
  pose proof (every_attempt_ends filled_in p' email password k welcome p' Hs)
    as (_ & _ & Hw).
  pose proof (every_attempt_ends filled_in p' email password k
                SignInPage.Rejected p' Hs) as (Hl & _ & He & _).
  injection Hs as <- <- <- <-.
  split; [reflexivity|]. split; [reflexivity|]. split; [exact Hl|exact He].
Defined.

(** A user who is signed in does not see the form: the effect sends them
    to a dashboard exactly when the page renders nothing.  The paths of
    the effect are not those of the handler: after a sign-in, the delayed
    navigation of the handler goes to a path to which the effect sends
    nobody. *)
Theorem signed_in_user_is_sent_away (authLoading : bool) (user : option row) :
  (is_Some (SignInPage.redirect authLoading user)
   <-> SignInPage.render authLoading user = SignInPage.Nothing)
  /\ forall p p' email password k o q who ms path,
       SignInPage.handleSubmit p = SignInPage.AwaitLogin p' email password k ->
       signed_in o = Some who ->
       In (ms, path) (SignInPage.timers (k o q)) ->
       ~ In (ms, path) (SignInPage.timers q) ->
       SignInPage.redirect authLoading user <> Some path.
Proof.
  split; [apply redirect_render|].
  intros p p' email password k o q who ms path Hs Hwho Hin Hnew Hpath.
  destruct (handleSubmit_answered p p' email password k o q Hs)
    as (_ & _ & H).
  rewrite Hwho in H. destruct H as (_ & _ & Ht). rewrite Ht in Hin.
  apply in_app_or in Hin as [Hin|[Hin|[]]]; [done|].
  apply redirect_paths in Hpath.
  case_bool_decide; injection Hin as <- <-;
    destruct Hpath as [Hp|[Hp|Hp]]; discriminate Hp.
Qed.

(** A counselor who is signed in sees nothing and is sent to
    [/counselor-dashboard]; the handler that signed them in goes, later, to
    [/counselor/dashboard]. *)
Lemma signed_in_user_is_sent_away_witness :
  SignInPage.render false (Some kim) = SignInPage.Nothing
  /\ SignInPage.redirect false (Some kim) = Some "/counselor-dashboard"
  /\ SignInPage.redirect false (Some kim) <> Some "/counselor/dashboard".
Proof.
  destruct (signed_in_user_is_sent_away false (Some kim)) as [Hr Hp].
  split; [apply Hr; by eexists|]. split; [reflexivity|].
  destruct (SignInPage.handleSubmit filled_in)
    as [|p' email password k] eqn:Hs; [discriminate Hs|].
  apply (Hp filled_in p' email password k welcome p' (SignInPage.Object kim)
           1500 "/counselor/dashboard" Hs eq_refl).
  - injection Hs as <- <- <- <-. by left.
  - injection Hs as <- <- <- <-. intros [].
Defined.

(* ===================================================================== *)
(** ** The sign-in page: typing and sending *)
(* ===================================================================== *)

Lemma typed_fields (p : SignInPage.page) (e pw : value) :
  let typed :=
    SignInPage.handleInputChange "password" pw
      (SignInPage.handleInputChange "email" e p) in
  SignInPage.get (SignInPage.formData typed) "email" = e
  /\ SignInPage.get (SignInPage.formData typed) "password" = pw.
Proof.
  cbv zeta. unfold SignInPage.get, SignInPage.handleInputChange.
  cbn [SignInPage.formData SignInPage.setError SignInPage.setFormData].
  rewrite lookup_insert_ne by done. by rewrite !lookup_insert_eq.
Qed.

(** What is sent is what was typed: after an email and a password have
    been typed, in whatever state the page was before, a submit calls
    [login] with that email and that password, or, if one of them is empty
    or the email holds no address, does not call it; and typing has
    cleared the error the page showed. *)
Theorem login_gets_what_was_typed (p : SignInPage.page) (e pw : value) :
  let typed :=
    SignInPage.handleInputChange "password" pw
      (SignInPage.handleInputChange "email" e p) in
  SignInPage.error typed = SignInPage.Prim (Str "")
  /\ match SignInPage.handleSubmit typed with
     | SignInPage.AwaitLogin _ email password _ =>
         email = e /\ password = pw
     | SignInPage.Done _ =>
         ~ (truthy e = true /\ truthy pw = true
            /\ holds_an_address (to_string e))
     end.
Proof.
  intros typed. split; [done|].
  destruct (typed_fields p e pw) as [He Hpw]. fold typed in He, Hpw.
  destruct (handleSubmit_cases typed)
    as [[Hs [k ->]]|[Hs (msg & -> & Hmsg)]].
  - done.
  - intros H. apply Hs. unfold sendable. by rewrite He, Hpw.
Qed.
